(** * acme_tiny: a shallow embedding of [get_crt] and its helpers

    The development follows [acme_tiny.py] top to bottom: text helpers and
    the regular expressions of the script, the encodings, JSON values, the
    object store holding the session header, the signed-request helper,
    the per-domain challenge loop and the assembly of the certificate
    chain.

    The script is a state and exception monad over a store of dictionary
    objects, the files of the challenge directory and a trace of effects.
    Everything outside the script is a parameter: the openssl subprocess
    and the network answer through a [world], indexed by the number of
    questions asked so far; [hashlib.sha256], [bytes.decode] and
    [json.loads] are functions given to [get_crt].  The [while True] loop
    takes a bound on its rounds and answers [Hang] when the bound is
    reached. *)

From Stdlib Require Import ZArith NArith Ascii String Lia DecimalString HexadecimalString.
From Stdlib Require HexadecimalPos HexadecimalN.
From stdpp Require Import base option list gmap sets strings.

Local Open Scope string_scope.

(** ** Characters and text

    A Python [str] and a Python [bytes] are both modelled as [string]; in a
    [str] every [ascii] stands for one character (a code point below 256),
    in a [bytes] for one byte. *)

Module Text.

Definition ord (c : ascii) : N := N_of_ascii c.

Definition between (lo hi : N) (c : ascii) : bool :=
  ((lo <=? ord c) && (ord c <=? hi))%N.

Definition is_char (d c : ascii) : bool := Ascii.eqb d c.

(** The characters [str.isspace] accepts, which are also the ones [\s]
    matches in a [str] pattern and the ones [str.strip] removes: TAB..CR,
    FS..US, SPACE, NEL and NBSP. *)
Definition is_space (c : ascii) : bool :=
  between 9 13 c || between 28 32 c || (ord c =? 133)%N || (ord c =? 160)%N.

Definition is_digit (c : ascii) : bool := between 48 57 c.
Definition is_upper (c : ascii) : bool := between 65 90 c.
Definition is_lower (c : ascii) : bool := between 97 122 c.

Definition nl : ascii := "010"%char.
Definition dquote : ascii := "034"%char.
Definition str1 (c : ascii) : string := String c EmptyString.

Fixpoint str_map (f : ascii → ascii) (s : string) : string :=
  match s with
  | EmptyString => EmptyString
  | String c s' => String (f c) (str_map f s')
  end.

Fixpoint str_filter (p : ascii → bool) (s : string) : string :=
  match s with
  | EmptyString => EmptyString
  | String c s' => if p c then String c (str_filter p s') else str_filter p s'
  end.

Fixpoint str_forall (p : ascii → bool) (s : string) : bool :=
  match s with
  | EmptyString => true
  | String c s' => p c && str_forall p s'
  end.

Fixpoint str_take (n : nat) (s : string) : string :=
  match n, s with
  | S n', String c s' => String c (str_take n' s')
  | _, _ => EmptyString
  end.

Fixpoint str_drop (n : nat) (s : string) : string :=
  match n, s with
  | S n', String _ s' => str_drop n' s'
  | _, _ => s
  end.

(** [s.startswith(p)] *)
Definition startswith (p s : string) : bool := String.prefix p s.

(** [sep.join(parts)] *)
Fixpoint join (sep : string) (parts : list string) : string :=
  match parts with
  | [] => ""
  | [p] => p
  | p :: rest => p +:+ sep +:+ join sep rest
  end.

(** [s.split(sep)] for a non-empty separator: the pieces between the
    occurrences of [sep], scanned left to right without overlap.  [skip]
    counts the characters of an occurrence still to be stepped over and
    [cur] holds the piece being read, reversed. *)
Fixpoint split_go (sep : string) (s : string) (skip : nat) (cur : string)
  : list string :=
  match s with
  | EmptyString => [String.rev cur]
  | String c s' =>
      match skip with
      | S k => split_go sep s' k cur
      | O =>
          if startswith sep s
          then String.rev cur :: split_go sep s' (String.length sep - 1) ""
          else split_go sep s' 0 (String c cur)
      end
  end.

Definition split (sep s : string) : list string := split_go sep s 0 "".

(** [s.strip()] *)
Fixpoint lstrip (s : string) : string :=
  match s with
  | String c s' => if is_space c then lstrip s' else s
  | EmptyString => EmptyString
  end.

Fixpoint rstrip (s : string) : string :=
  match s with
  | EmptyString => EmptyString
  | String c s' =>
      match rstrip s' with
      | EmptyString => if is_space c then EmptyString else str1 c
      | r => String c r
      end
  end.

Definition strip (s : string) : string := rstrip (lstrip s).

(** [s.replace(old, "")] for a one-character [old]. *)
Definition remove_char (old : ascii) (s : string) : string :=
  str_filter (fun c => negb (is_char old c)) s.

End Text.

(** ** Regular expressions

    The script uses [re.search] and [re.sub] with six patterns.  They are
    run by a backtracking matcher with the priorities of Python's engine:
    alternatives left to right, greedy repetition longest first, lazy
    repetition shortest first, and [re.search] taking the leftmost start. *)

Module Re.
Import Text.

Inductive regex : Type :=
  | Eps
  | Chr (p : ascii → bool)
  | Bol
  | Seq (a b : regex)
  | Alt (a b : regex)
  | Star (greedy : bool) (a : regex)
  | Grp (i : nat) (a : regex).

Fixpoint lit (s : string) : regex :=
  match s with
  | EmptyString => Eps
  | String c s' => Seq (Chr (is_char c)) (lit s')
  end.

Definition plus (greedy : bool) (a : regex) : regex := Seq a (Star greedy a).
Definition opt (a : regex) : regex := Alt a Eps.
Fixpoint seqs (rs : list regex) : regex :=
  match rs with
  | [] => Eps
  | [r] => r
  | r :: rs' => Seq r (seqs rs')
  end.

(** Captured groups, most recent first. *)
Definition caps : Type := list (nat * string).

Definition cap_get (i : nat) (c : caps) : option string :=
  snd <$> List.find (fun p => Nat.eqb (fst p) i) c.

(** [run r pos s c k]: match [r] at offset [pos], where [s] is the rest of
    the subject, then continue with [k]. *)
Fixpoint run {R : Type} (r : regex) (pos : nat) (s : string) (c : caps)
    (k : nat → string → caps → option R) {struct r} : option R :=
  match r with
  | Eps => k pos s c
  | Chr p =>
      match s with
      | String x s' => if p x then k (S pos) s' c else None
      | EmptyString => None
      end
  | Bol => if Nat.eqb pos 0 then k pos s c else None
  | Seq a b => run a pos s c (fun pos' s' c' => run b pos' s' c' k)
  | Alt a b =>
      match run a pos s c k with
      | Some m => Some m
      | None => run b pos s c k
      end
  | Star greedy a =>
      (fix loop (fuel : nat) (pos : nat) (s : string) (c : caps) : option R :=
         match fuel with
         | O => k pos s c
         | S fuel' =>
             let more :=
               run a pos s c (fun pos' s' c' =>
                 if Nat.ltb pos pos' then loop fuel' pos' s' c' else None) in
             if greedy
             then match more with Some m => Some m | None => k pos s c end
             else match k pos s c with Some m => Some m | None => more end
         end) (String.length s) pos s c
  | Grp i a =>
      run a pos s c (fun pos' s' c' =>
        k pos' s' ((i, str_take (pos' - pos) s) :: c'))
  end.

(** A match object: where the match starts and ends, and its groups. *)
Record rmatch : Type := { m_start : nat; m_end : nat; m_caps : caps }.

Definition match_at (r : regex) (pos : nat) (s : string) : option rmatch :=
  run r pos s [] (fun pos' _ c =>
    Some {| m_start := pos; m_end := pos'; m_caps := c |}).

Fixpoint search_from (r : regex) (pos : nat) (s : string) : option rmatch :=
  match match_at r pos s with
  | Some m => Some m
  | None =>
      match s with
      | EmptyString => None
      | String _ s' => search_from r (S pos) s'
      end
  end.

(** [re.search(r, s)] *)
Definition search (r : regex) (s : string) : option rmatch := search_from r 0 s.

(** [m.group(i)] for a group that took part in the match. *)
Definition group (i : nat) (m : rmatch) : option string := cap_get i (m_caps m).

(** [re.sub(r, repl, s)] for a literal replacement: every leftmost
    non-overlapping match is replaced; after an empty match one character
    is copied.  [skip] counts the characters of the current match still to
    be stepped over. *)
Fixpoint sub_go (r : regex) (repl : string) (pos : nat) (s : string)
    (skip : nat) : string :=
  match skip with
  | S k =>
      match s with
      | String _ s' => sub_go r repl (S pos) s' k
      | EmptyString => EmptyString
      end
  | O =>
      match match_at r pos s with
      | Some m =>
          match m_end m - pos, s with
          | S k, String _ s' => repl +:+ sub_go r repl (S pos) s' k
          | O, String x s' => repl +:+ String x (sub_go r repl (S pos) s' 0)
          | _, EmptyString => repl
          end
      | None =>
          match s with
          | String x s' => String x (sub_go r repl (S pos) s' 0)
          | EmptyString => EmptyString
          end
      end
  end.

Definition sub (r : regex) (repl s : string) : string := sub_go r repl 0 s 0.

End Re.

(** ** Encodings: base64, hexadecimal, PEM line wrapping *)

Module Codec.
Import Text.

Definition chr (n : N) : ascii := ascii_of_N n.

(** The base64 alphabet; [urlsafe] selects [-] and [_] for 62 and 63. *)
Definition b64_digit (urlsafe : bool) (n : N) : ascii :=
  if (n <? 26)%N then chr (65 + n)
  else if (n <? 52)%N then chr (97 + (n - 26))
  else if (n <? 62)%N then chr (48 + (n - 52))
  else if (n =? 62)%N then (if urlsafe then "-"%char else "+"%char)
  else (if urlsafe then "_"%char else "/"%char).

Definition pad : ascii := "="%char.

(** [base64.b64encode] ([urlsafe = false]) and [base64.urlsafe_b64encode]
    ([urlsafe = true]): three bytes give four digits, the last group is
    padded with [=]. *)
Fixpoint b64_go (urlsafe : bool) (b : string) : string :=
  let d := b64_digit urlsafe in
  match b with
  | EmptyString => EmptyString
  | String x EmptyString =>
      let n := ord x in
      String (d (N.shiftr n 2))
        (String (d (N.shiftl (N.land n 3) 4)) (String pad (String pad "")))
  | String x (String y EmptyString) =>
      let n := ord x in
      let m := ord y in
      String (d (N.shiftr n 2))
        (String (d (N.lor (N.shiftl (N.land n 3) 4) (N.shiftr m 4)))
           (String (d (N.shiftl (N.land m 15) 2)) (String pad "")))
  | String x (String y (String z rest)) =>
      let n := ord x in
      let m := ord y in
      let o := ord z in
      String (d (N.shiftr n 2))
        (String (d (N.lor (N.shiftl (N.land n 3) 4) (N.shiftr m 4)))
           (String (d (N.lor (N.shiftl (N.land m 15) 2) (N.shiftr o 6)))
              (String (d (N.land o 63)) (b64_go urlsafe rest))))
  end.

Definition b64encode (b : string) : string := b64_go false b.
Definition urlsafe_b64encode (b : string) : string := b64_go true b.

(** [_b64]: URL-safe base64 with the padding deleted.
    {[ return base64.urlsafe_b64encode(b).decode('utf8').replace("=", "") ]} *)
Definition _b64 (b : string) : string := remove_char pad (urlsafe_b64encode b).

(** [int(s)] for a string of ASCII digits.  CPython (3.11, with its
    default settings) refuses to convert a string of more than 4300 digits,
    leading zeros counted. *)
Definition max_str_digits : nat := 4300.

Definition int_of_digits (s : string) : option N :=
  if str_forall is_digit s && negb (String.eqb s "")
     && Nat.leb (String.length s) max_str_digits
  then N.of_uint <$> DecimalString.NilZero.uint_of_string s
  else None.

(** ["{0:x}".format(n)] *)
Definition hex_of_N (n : N) : string :=
  HexadecimalString.NilZero.string_of_uint (N.to_hex_uint n).

Definition hex_value (c : ascii) : option N :=
  if is_digit c then Some (ord c - 48)%N
  else if between 97 102 c then Some (ord c - 87)%N
  else if between 65 70 c then Some (ord c - 55)%N
  else None.

(** [binascii.unhexlify]: [None] stands for [binascii.Error] (odd length
    or a character that is no hexadecimal digit). *)
Fixpoint unhexlify (s : string) : option string :=
  match s with
  | EmptyString => Some EmptyString
  | String _ EmptyString => None
  | String a (String b rest) =>
      hi ← hex_value a;
      lo ← hex_value b;
      tl ← unhexlify rest;
      Some (String (chr (16 * hi + lo)) tl)
  end.

(** [textwrap.wrap(text, width)] on a text without whitespace and hyphens
    (base64 output has neither): the text is one long word, which is broken
    into pieces of [width] characters; the empty text gives no line.
    [fuel] bounds the number of lines. *)
Fixpoint wrap_go (fuel width : nat) (text : string) : list string :=
  match fuel, text with
  | _, EmptyString => []
  | O, _ => []
  | S fuel', _ => str_take width text :: wrap_go fuel' width (str_drop width text)
  end.

Definition wrap (text : string) (width : nat) : list string :=
  wrap_go (String.length text) width text.

End Codec.

(** ** JSON values *)

Module Json.
Import Text.

#[local] Set Warnings "-register-all".

Inductive json : Type :=
  | JNull
  | JBool (b : bool)
  | JNum (z : Z)
  | JStr (s : string)
  | JArr (items : list json)
  | JObj (fields : list (string * json)).

(** [d[key]] on a dictionary kept in insertion order. *)
Definition assoc {V : Type} (key : string) (d : list (string * V)) : option V :=
  snd <$> List.find (fun p => String.eqb (fst p) key) d.

(** [d[key] = v]: an existing key keeps its place, a new one goes last. *)
Fixpoint setitem {V : Type} (key : string) (v : V) (d : list (string * V))
  : list (string * V) :=
  match d with
  | [] => [(key, v)]
  | (k, x) :: d' =>
      if String.eqb k key then (k, v) :: d' else (k, x) :: setitem key v d'
  end.

Definition hexdigit (n : N) : ascii :=
  if (n <? 10)%N then ascii_of_N (48 + n) else ascii_of_N (87 + n).

(** One character of a JSON string literal under [ensure_ascii]. *)
Definition escape_char (c : ascii) : string :=
  let n := ord c in
  if is_char dquote c then String "\"%char (str1 dquote)
  else if is_char "\"%char c then "\\"
  else if (n =? 10)%N then "\n"
  else if (n =? 13)%N then "\r"
  else if (n =? 9)%N then "\t"
  else if (n =? 8)%N then "\b"
  else if (n =? 12)%N then "\f"
  else if between 32 126 c then str1 c
  else "\u00" +:+ String (hexdigit (N.shiftr n 4)) (str1 (hexdigit (N.land n 15))).

Fixpoint escape (s : string) : string :=
  match s with
  | EmptyString => EmptyString
  | String c s' => escape_char c +:+ escape s'
  end.

Definition quote (s : string) : string :=
  String dquote (escape s) +:+ str1 dquote.

(** Insertion of a field into a list sorted by key ([sort_keys=True]). *)
Fixpoint insert_sorted {V : Type} (kv : string * V) (d : list (string * V))
  : list (string * V) :=
  match d with
  | [] => [kv]
  | x :: d' =>
      if String.leb (fst kv) (fst x) then kv :: d else x :: insert_sorted kv d'
  end.

Definition sort_fields {V : Type} (d : list (string * V)) : list (string * V) :=
  foldr insert_sorted [] d.

(** [json.dumps(v, sort_keys=.., separators=(isep, ksep))] *)
Fixpoint dumps_with (sort_keys : bool) (isep ksep : string) (v : json) : string :=
  match v with
  | JNull => "null"
  | JBool true => "true"
  | JBool false => "false"
  | JNum z => DecimalString.NilZero.string_of_int (Z.to_int z)
  | JStr s => quote s
  | JArr items =>
      "[" +:+ join isep (List.map (dumps_with sort_keys isep ksep) items) +:+ "]"
  | JObj fields =>
      let rendered :=
        List.map (fun kv => (fst kv, dumps_with sort_keys isep ksep (snd kv))) fields in
      let ordered := if sort_keys then sort_fields rendered else rendered in
      "{" +:+ join isep (List.map (fun kv => quote (fst kv) +:+ ksep +:+ snd kv) ordered)
          +:+ "}"
  end.

(** [json.dumps(v)] with the default separators. *)
Definition dumps (v : json) : string := dumps_with false ", " ": " v.

(** [j[key]] on the result of [json.loads]; [None] stands for [KeyError]
    or [TypeError]. *)
Definition getitem (key : string) (j : json) : option json :=
  match j with
  | JObj fields => assoc key fields
  | _ => None
  end.

Definition is_str (s : string) (j : option json) : bool :=
  match j with
  | Some (JStr t) => String.eqb t s
  | _ => false
  end.

End Json.

(** ** The patterns of the script *)

Module Pattern.
Import Text Re.

Definition any_but_nl (c : ascii) : bool := negb (is_char nl c).

(** {[ r"modulus:\n\s+00:([a-f0-9\:\s]+?)\npublicExponent: ([0-9]+)" ]} *)
Definition account_key_re : regex :=
  seqs [ lit "modulus:"; Chr (is_char nl); plus true (Chr is_space); lit "00:";
         Grp 1 (plus false (Chr (fun c =>
           between 97 102 c || is_digit c || is_char ":" c || is_space c)));
         Chr (is_char nl); lit "publicExponent: ";
         Grp 2 (plus true (Chr is_digit)) ].

(** {[ r"(\s|:)" ]} *)
Definition hex_noise_re : regex :=
  Grp 1 (Alt (Chr is_space) (Chr (is_char ":"))).

(** {[ r"Subject:.*? CN ?= ?([^\s,;/]+)" ]}  (no flags: [.] stops at a
    newline) *)
Definition common_name_re : regex :=
  seqs [ lit "Subject:"; Star false (Chr any_but_nl); lit " CN";
         opt (lit " "); lit "="; opt (lit " ");
         Grp 1 (plus true (Chr (fun c =>
           negb (is_space c || is_char "," c || is_char ";" c || is_char "/" c)))) ].

(** {[ r"X509v3 Subject Alternative Name: \n +([^\n]+)\n" ]} *)
Definition alt_names_re : regex :=
  seqs [ lit "X509v3 Subject Alternative Name: "; Chr (is_char nl);
         plus true (lit " "); Grp 1 (plus true (Chr any_but_nl));
         Chr (is_char nl) ].

(** {[ r"[^A-Za-z0-9_\-]" ]} *)
Definition token_char (c : ascii) : bool :=
  is_upper c || is_lower c || is_digit c || is_char "_" c || is_char "-" c.

Definition unsafe_token_re : regex := Chr (fun c => negb (token_char c)).

(** The pattern applied to every [Link] header: start of the header,
    optional whitespace, a target between angle brackets (group 1, any
    characters but the closing bracket), any characters, a semicolon,
    optional whitespace and [rel=] followed by [up] in double quotes. *)
Definition link_up_re : regex :=
  seqs [ Bol; Star true (Chr is_space); lit "<";
         Grp 1 (Star true (Chr (fun c => negb (is_char ">" c)))); lit ">";
         Star true (Chr any_but_nl); lit ";"; Star true (Chr is_space);
         lit "rel="; Chr (is_char dquote); lit "up"; Chr (is_char dquote) ].

End Pattern.

(** ** The world the script runs in *)

Module Runtime.
Import Text Json.

(** A value held by a dictionary object: an immutable JSON value or a
    reference to another dictionary object. *)
Inductive pyval : Type :=
  | Lit (j : json)
  | Ref (l : nat).

Abbreviation dict := (list (string * pyval)).

(** The arguments of a [str.format] call, kept apart from the template. *)
Inductive fmt_arg : Type :=
  | AStr (s : string)
  | ABytes (b : string)
  | ACode (code : option Z)
  | AInt (n : Z)
  | AJson (j : json).

Record message : Type := Fmt { template : string; args : list fmt_arg }.

Definition headers : Type := list (string * string).

Inductive exn : Type :=
  | OSError (m : message)
  | URLError (reason : string)
  | HTTPError (code : Z) (reason : string) (body : string) (hdrs : headers)
  | HTTPException (what : string)
  | ValueError (m : message)
  | UnicodeDecodeError
  | JSONDecodeError
  | BinasciiError
  | AssertionError
  | AttributeError
  | TypeError
  | KeyError
  | IndexError
  | UnboundLocalError
  | RecursionError.

(** [IOError] is [OSError]; [URLError] and [HTTPError] derive from it. *)
Definition is_IOError (e : exn) : bool :=
  match e with
  | OSError _ | URLError _ | HTTPError _ _ _ _ => true
  | _ => false
  end.

Record request : Type := Request { req_url : string; req_headers : headers }.

(** What [urlopen] gives once the response has been read: the status
    code, the body and the headers, or the exception raised on the way. *)
Inductive reply : Type :=
  | Resp (code : Z) (body : string) (hdrs : headers)
  | Raises (e : exn).

Inductive event : Type :=
  | EvLog (msg : string)
  | EvOpenssl (command : string) (options : list string) (stdin : option string)
  | EvUrlopen (req : request) (data : option string)
  | EvHead (host path : string)
  | EvWrite (path content : string)
  | EvRemove (path : string)
  | EvSleep (seconds : Z).

(** The surroundings answer by the number of questions asked so far.
    [w_open] tells whether a file can be opened and written at that time
    ([Some e]: [open] raises [e]); [w_print] is [str] on a parsed JSON
    value that is not a text. *)
Record world : Type := World {
  w_openssl : nat → string → list string → option string → Z * string * string;
  w_urlopen : nat → request → option string → reply;
  w_head : nat → string → string → option string + exn;
  w_open : nat → string → option exn;
  w_print : json → string
}.

Record state : Type := State {
  st_heap : gmap nat dict;        (* dictionary objects, by address *)
  st_files : gmap string string;  (* the files written by the script *)
  st_trace : list event;          (* effects, latest first *)
  st_clock : nat                  (* questions asked so far *)
}.

Definition initial : state :=
  {| st_heap := ∅; st_files := ∅; st_trace := []; st_clock := 0 |}.

Inductive outcome (A : Type) : Type :=
  | Ret (a : A)
  | Raise (e : exn)
  | Hang.
Arguments Ret {A} a.
Arguments Raise {A} e.
Arguments Hang {A}.

Definition M (A : Type) : Type := state → outcome A * state.

Definition ret {A} (a : A) : M A := fun st => (Ret a, st).
Definition raise {A} (e : exn) : M A := fun st => (Raise e, st).
Definition hang {A} : M A := fun st => (Hang, st).

Definition bind {A B} (m : M A) (f : A → M B) : M B :=
  fun st =>
    match m st with
    | (Ret a, st') => f a st'
    | (Raise e, st') => (Raise e, st')
    | (Hang, st') => (Hang, st')
    end.

#[global] Instance M_ret : MRet M := @ret.
#[global] Instance M_bind : MBind M := fun A B f m => bind m f.

(** [try: m  except <classes accepted by catches> as e: h e] *)
Definition try_except {A} (m : M A) (catches : exn → bool) (h : exn → M A) : M A :=
  fun st =>
    match m st with
    | (Raise e, st') => if catches e then h e st' else (Raise e, st')
    | r => r
    end.

Definition lift_option {A} (e : exn) (o : option A) : M A :=
  match o with
  | Some a => ret a
  | None => raise e
  end.

Definition emit (ev : event) : M unit :=
  fun st => (Ret tt, {| st_heap := st_heap st; st_files := st_files st;
                        st_trace := ev :: st_trace st; st_clock := st_clock st |}).

Definition tick : M nat :=
  fun st => (Ret (st_clock st),
             {| st_heap := st_heap st; st_files := st_files st;
                st_trace := st_trace st; st_clock := S (st_clock st) |}).

(** [log.info(msg)] *)
Definition log_info (msg : string) : M unit := emit (EvLog msg).

(** [time.sleep(seconds)] *)
Definition sleep (seconds : Z) : M unit := emit (EvSleep seconds).

(** *** Dictionary objects *)

Definition alloc (d : dict) : M nat :=
  fun st =>
    let l := fresh (dom (st_heap st)) in
    (Ret l, {| st_heap := <[l := d]> (st_heap st); st_files := st_files st;
               st_trace := st_trace st; st_clock := st_clock st |}).

Definition read (l : nat) : M dict :=
  fun st =>
    match st_heap st !! l with
    | Some d => (Ret d, st)
    | None => (Raise KeyError, st)
    end.

(** [obj[key] = v] on the object at address [l] *)
Definition store (l : nat) (key : string) (v : pyval) : M unit :=
  fun st =>
    match st_heap st !! l with
    | Some d =>
        (Ret tt, {| st_heap := <[l := setitem key v d]> (st_heap st);
                    st_files := st_files st; st_trace := st_trace st;
                    st_clock := st_clock st |})
    | None => (Raise KeyError, st)
    end.

(** [copy.deepcopy]: every dictionary reached is copied into a new object.
    The session header is a tree (a dictionary holding one dictionary), on
    which this agrees with Python's memoised copy; [fuel] bounds the depth. *)
Fixpoint deepcopy_fields (copy : pyval → M pyval) (d : dict) : M dict :=
  match d with
  | [] => ret []
  | (k, v) :: d' =>
      v' ← copy v;
      d'' ← deepcopy_fields copy d';
      ret ((k, v') :: d'')
  end.

Fixpoint deepcopy (fuel : nat) (l : nat) : M nat :=
  match fuel with
  | O => raise RecursionError
  | S fuel' =>
      d ← read l;
      d' ← deepcopy_fields (fun v =>
              match v with
              | Lit j => ret (Lit j)
              | Ref l' => l'' ← deepcopy fuel' l'; ret (Ref l'')
              end) d;
      alloc d'
  end.

(** The JSON value an object stands for when it is serialised. *)
Fixpoint snapshot (fuel : nat) (h : gmap nat dict) (v : pyval) : option json :=
  match v with
  | Lit j => Some j
  | Ref l =>
      match fuel with
      | O => None
      | S fuel' =>
          d ← h !! l;
          fields ← mapM (fun kv => j ← snapshot fuel' h (snd kv); Some (fst kv, j)) d;
          Some (JObj fields)
      end
  end.

Definition depth : nat := 8.

(** [json.dumps] of a value that may hold references. *)
Definition dumps_value (sort_keys : bool) (isep ksep : string) (v : pyval) : M string :=
  fun st =>
    match snapshot depth (st_heap st) v with
    | Some j => (Ret (dumps_with sort_keys isep ksep j), st)
    | None => (Raise (ValueError (Fmt "Circular reference detected" [])), st)
    end.

(** [json.dumps] of a dictionary whose values may be references. *)
Definition dumps_dict (d : dict) : M string :=
  fun st =>
    match mapM (fun kv => j ← snapshot depth (st_heap st) (snd kv); Some (fst kv, j)) d with
    | Some fields => (Ret (dumps (JObj fields)), st)
    | None => (Raise (ValueError (Fmt "Circular reference detected" [])), st)
    end.

(** *** Files

    Only the script writes to the challenge directory.  Whether a file
    can be opened there for writing is for the surroundings to say: the
    path may be a directory (an empty token), too long, or not writable. *)

(** [with open(path, "w") as f: f.write(content)] *)
Definition write_file (W : world) (path content : string) : M unit :=
  fun st =>
    match w_open W (st_clock st) path with
    | Some e => (Raise e, st)
    | None =>
        (Ret tt, {| st_heap := st_heap st; st_files := <[path := content]> (st_files st);
                    st_trace := EvWrite path content :: st_trace st;
                    st_clock := st_clock st |})
    end.

(** [os.remove(path)]: a missing file raises [FileNotFoundError], which is
    an [OSError]. *)
Definition os_remove (path : string) : M unit :=
  fun st =>
    match st_files st !! path with
    | Some _ =>
        (Ret tt, {| st_heap := st_heap st; st_files := delete path (st_files st);
                    st_trace := EvRemove path :: st_trace st;
                    st_clock := st_clock st |})
    | None => (Raise (OSError (Fmt "No such file or directory: {0}" [AStr path])), st)
    end.

(** [os.path.join(a, b)] on POSIX *)
Definition os_path_join (a b : string) : string :=
  if startswith "/" b then b
  else if String.eqb a "" then b
  else if startswith "/" (String.rev a) then a +:+ b
  else a +:+ "/" +:+ b.

(** *** Response headers (names compare without case) *)

Definition lower (c : ascii) : ascii :=
  if is_upper c then ascii_of_N (ord c + 32) else c.

Definition same_name (a b : string) : bool :=
  String.eqb (str_map lower a) (str_map lower b).

(** [headers.get(name)] *)
Definition get (name : string) (h : headers) : option string :=
  snd <$> List.find (fun kv => same_name (fst kv) name) h.

(** [headers.get_all(name)]: [None] when no header has that name. *)
Definition get_all (name : string) (h : headers) : option (list string) :=
  match List.filter (fun kv => same_name (fst kv) name) h with
  | [] => None
  | found => Some (List.map snd found)
  end.

(** [for x in xs: body x] *)
Fixpoint for_each {A} (xs : list A) (body : A → M unit) : M unit :=
  match xs with
  | [] => ret tt
  | x :: xs' => body x;; for_each xs' body
  end.

End Runtime.

(** ** The script *)

Module AcmeTiny.
Import Text Re Pattern Codec Json Runtime.

Definition DEFAULT_CA : string := "https://acme-v01.api.letsencrypt.org".
Definition USER_AGENT : string := "acme-tiny // https://github.com/bjoe2k4/acme-tiny".

(** [m.group(i)]; every group of the script's patterns takes part in
    every match. *)
Definition group (i : nat) (m : rmatch) : string := default "" (Re.group i m).

(** Lines 76-84: the domains named by the textual dump of the request. *)
Definition add_alt_name (domains : gset string) (san : string) : gset string :=
  if startswith "DNS:" san then domains ∪ {[ str_drop 4 san ]} else domains.

Definition find_domains (csr_dump : string) : gset string :=
  let domains : gset string := ∅ in
  let domains :=
    match search common_name_re csr_dump with
    | Some common_name => domains ∪ {[ group 1 common_name ]}
    | None => domains
    end in
  match search alt_names_re csr_dump with
  | Some subject_alt_names =>
      foldl add_alt_name domains (split ", " (group 1 subject_alt_names))
  | None => domains
  end.

(** Line 112: the token made safe for a file name. *)
Definition sanitize_token (token : string) : string :=
  sub unsafe_token_re "_" token.

(** Lines 166-167: one framed entry, and the whole output. *)
Definition pem_entry (cert : string) : string :=
  "-----BEGIN CERTIFICATE-----" +:+ str1 nl
    +:+ join (str1 nl) (wrap (b64encode cert) 64)
    +:+ str1 nl +:+ "-----END CERTIFICATE-----" +:+ str1 nl.

Definition pem (certchain : list string) : string :=
  join "" (List.map pem_entry certchain).

(** [j[key]] on a parsed JSON value. *)
Definition subscript (key : string) (j : json) : M json :=
  match j with
  | JObj fields => lift_option KeyError (assoc key fields)
  | _ => raise TypeError
  end.

(** What [for c in j] ranges over. *)
Definition iterate (j : json) : M (list json) :=
  match j with
  | JArr items => ret items
  | JObj fields => ret (List.map (fun kv => JStr (fst kv)) fields)
  | JStr s => ret (List.map (fun c => JStr (str1 c)) (list_ascii_of_string s))
  | _ => raise TypeError
  end.

Definition as_str (j : json) : M string :=
  match j with
  | JStr s => ret s
  | _ => raise TypeError
  end.

(** What [int(s)] raises for a text it does not convert. *)
Definition int_error (s : string) : exn :=
  if Nat.leb (String.length s) max_str_digits
  then ValueError (Fmt "invalid literal for int() with base 10: {0}" [AStr s])
  else ValueError
         (Fmt ("Exceeds the limit (4300 digits) for integer string conversion: "
               +:+ "value has {0} digits; use sys.set_int_max_str_digits() "
               +:+ "to increase the limit")
              [AInt (Z.of_nat (String.length s))]).

(** The URL [Request] makes of the value it is given: it takes [str] of
    it, which for a text is the text itself. *)
Definition url_text (W : world) (target : json) : string :=
  match target with
  | JStr url => url
  | _ => w_print W target
  end.

Section get_crt.

(** Outside the script: [hashlib.sha256(..).digest()], [bytes.decode('utf8')],
    [json.loads] and the surroundings. *)
Context (sha256 : string → string)
        (utf8_decode : string → option string)
        (json_loads : string → option json)
        (W : world).

(** The arguments of [get_crt]. *)
Context (account_key csr acme_dir : string) (account_email : option string)
        (CA : string) (chain : bool).

Definition decode (b : string) : M string :=
  lift_option UnicodeDecodeError (utf8_decode b).

Definition loads (text : string) : M json :=
  lift_option JSONDecodeError (json_loads text).

(** Lines 22-27. *)
Definition _openssl (command : string) (options : list string)
    (communicate : option string) : M string :=
  n ← tick;
  emit (EvOpenssl command options communicate);;
  let '(returncode, out, err) := w_openssl W n command options communicate in
  if (returncode =? 0)%Z then ret out
  else raise (OSError (Fmt "OpenSSL Error: {0}" [ABytes err])).

(** Lines 30-31. *)
Definition _request (url : string) : request :=
  Request url [("User-Agent", USER_AGENT); ("Accept", "*/*")].

(** [urlopen(req, data)] together with the reading of the response. *)
Definition urlopen (req : request) (data : option string) : M (Z * string * headers) :=
  n ← tick;
  emit (EvUrlopen req data);;
  match w_urlopen W n req data with
  | Resp code body hdrs => ret (code, body, hdrs)
  | Raises e => raise e
  end.

(** Lines 34-47: the session header, its key and the thumbprint.  The
    header and the key it holds are two dictionary objects. *)
Definition parse_account_key : M (nat * string) :=
  log_info "Parsing account key...";;
  out ← _openssl "rsa" ["-in"; account_key; "-noout"; "-text"] None;
  text ← decode out;
  m ← lift_option AttributeError (search account_key_re text);
  let pub_hex := group 1 m in
  let pub_exp := group 2 m in
  n ← lift_option (int_error pub_exp) (int_of_digits pub_exp);
  let pub_exp := hex_of_N n in
  let pub_exp := if Nat.odd (String.length pub_exp) then "0" +:+ pub_exp else pub_exp in
  e ← lift_option BinasciiError (unhexlify pub_exp);
  modulus ← lift_option BinasciiError (unhexlify (sub hex_noise_re "" pub_hex));
  jwk ← alloc [("e", Lit (JStr (_b64 e))); ("kty", Lit (JStr "RSA"));
               ("n", Lit (JStr (_b64 modulus)))];
  header ← alloc [("alg", Lit (JStr "RS256")); ("jwk", Ref jwk)];
  held ← read header;
  key ← lift_option KeyError (assoc "jwk" held);
  accountkey_json ← dumps_value true "," ":" key;
  let thumbprint := _b64 (sha256 accountkey_json) in
  ret (header, thumbprint).

(** Lines 51-58: the envelope of one signed request. *)
Definition build_envelope (header : nat) (payload : json) : M dict :=
  let payload64 := _b64 (dumps payload) in
  protected ← deepcopy depth header;
  '(_, _, info) ← urlopen (_request (CA +:+ "/directory")) None;
  store protected "nonce"
    (Lit (match get "Replay-Nonce" info with Some nonce => JStr nonce | None => JNull end));;
  protected_json ← dumps_value false ", " ": " (Ref protected);
  let protected64 := _b64 protected_json in
  signature ← _openssl "dgst" ["-sha256"; "-sign"; account_key]
                 (Some (protected64 +:+ "." +:+ payload64));
  ret [("header", Ref header); ("protected", Lit (JStr protected64));
       ("payload", Lit (JStr payload64)); ("signature", Lit (JStr (_b64 signature)))].

(** Lines 65-71, the [finally] block: the code decides. [shown] is the
    result as the error message receives it. *)
Definition classify (return_codes : gmap Z (option string)) (error_message : string)
    (code : option Z) (shown : fmt_arg) (result : string) (hdrs : headers)
  : M (string * headers) :=
  match code ≫= (fun c => return_codes !! c) with
  | Some message =>
      match message with
      | Some text => log_info text
      | None => ret tt
      end;;
      ret (result, hdrs)
  | None => raise (ValueError (Fmt error_message [ACode code; shown]))
  end.

(** Lines 59-71: the request is sent and its outcome classified.  An
    exception that is neither [HTTPError] nor [URLError] reaches the
    [finally] block with [code] unbound. *)
Definition send_and_classify (url signed_request : string)
    (return_codes : gmap Z (option string)) (error_message : string)
  : M (string * headers) :=
  attempt ← try_except
    (r ← urlopen (_request url) (Some signed_request); ret (inl r))
    (fun _ => true) (fun e => ret (inr e));
  match attempt with
  | inl (code, result, hdrs) =>
      classify return_codes error_message (Some code) (ABytes result) result hdrs
  | inr (HTTPError code _ body hdrs) =>
      classify return_codes error_message (Some code) (ABytes body) body hdrs
  | inr (URLError reason) =>
      classify return_codes error_message None (AStr reason) reason []
  | inr _ => raise UnboundLocalError
  end.

(** Lines 50-71. *)
Definition _send_signed_request (header : nat) (url : string) (payload : json)
    (return_codes : gmap Z (option string)) (error_message : string)
  : M (string * headers) :=
  envelope ← build_envelope header payload;
  signed_request ← dumps_dict envelope;
  send_and_classify url signed_request return_codes error_message.

(** Lines 74-84. *)
Definition parse_csr : M (gset string) :=
  log_info "Parsing CSR...";;
  out ← _openssl "req" ["-in"; csr; "-noout"; "-text"] None;
  csr_dump ← decode out;
  ret (find_domains csr_dump).

(** Lines 89-94: the agreement is the [location] header of [HEAD /terms]. *)
Definition terms_location : M (option string) :=
  let host := List.last (split "/" CA) "" in
  n ← tick;
  emit (EvHead host "/terms");;
  match w_head W n host "/terms" with
  | inl location => ret location
  | inr e => raise e
  end.

(** Lines 87-99. *)
Definition register (header : nat) : M (string * headers) :=
  log_info "Registering account...";;
  agreement ← terms_location;
  let payload :=
    [("resource", JStr "new-reg");
     ("agreement", match agreement with Some url => JStr url | None => JNull end)] in
  let payload :=
    match account_email with
    | Some email =>
        if String.eqb email "" then payload
        else setitem "contact" (JArr [JStr ("mailto:" +:+ email)]) payload
    | None => payload
    end in
  _send_signed_request header (CA +:+ "/acme/new-reg") (JObj payload)
    {[ 201%Z := Some "Registered!"; 409%Z := Some "Already registered!" ]}
    "Error registering: {code} {result}".

(** Lines 118-127: the file must be served before the authority is told. *)
Definition self_check (wellknown_path wellknown_url keyauthorization : string) : M unit :=
  try_except
    ('(_, body, _) ← urlopen (_request wellknown_url) None;
     text ← decode body;
     let resp_data := strip text in
     if String.eqb resp_data keyauthorization then ret tt else raise AssertionError)
    (fun e => is_IOError e || match e with AssertionError => true | _ => false end)
    (fun _ =>
       os_remove wellknown_path;;
       raise (ValueError (Fmt "Wrote file to {0}, but couldn't download {1}"
                            [AStr wellknown_path; AStr wellknown_url]))).

(** Lines 134-149: [while True]; [fuel] bounds the number of rounds and
    [Hang] is the answer when it runs out. *)
Fixpoint poll (fuel : nat) (domain uri wellknown_path : string) : M unit :=
  match fuel with
  | O => hang
  | S fuel' =>
      challenge_status ← try_except
        ('(_, body, _) ← urlopen (_request uri) None;
         text ← decode body;
         loads text)
        is_IOError
        (fun e =>
           match e with
           | HTTPError code _ body _ =>
               text ← decode body;
               detail ← loads text;
               raise (ValueError (Fmt "Error checking challenge: {0} {1}"
                                    [ACode (Some code); AJson detail]))
           | _ => raise AttributeError
           end);
      status ← subscript "status" challenge_status;
      if is_str "pending" (Some status) then
        sleep 2;;
        poll fuel' domain uri wellknown_path
      else if is_str "valid" (Some status) then
        log_info (domain +:+ " verified!");;
        os_remove wellknown_path
      else
        raise (ValueError (Fmt "{0} challenge did not pass: {1}"
                             [AStr domain; AJson challenge_status]))
  end.

(** Lines 105-111: the [http-01] challenge offered for [domain]. *)
Definition request_challenge (header : nat) (domain : string) : M json :=
  '(result, _) ← _send_signed_request header (CA +:+ "/acme/new-authz")
      (JObj [("resource", JStr "new-authz");
             ("identifier", JObj [("type", JStr "dns"); ("value", JStr domain)])])
      {[ 201%Z := None ]} "Error requesting challenges: {code} {result}";
  text ← decode result;
  authz ← loads text;
  offered ← subscript "challenges" authz;
  candidates ← iterate offered;
  http01 ← (fix select (cs : list json) : M (list json) :=
              match cs with
              | [] => ret []
              | c :: cs' =>
                  type ← subscript "type" c;
                  rest ← select cs';
                  ret (if is_str "http-01" (Some type) then c :: rest else rest)
              end) candidates;
  lift_option IndexError (head http01).

(** Lines 112-149: publish, check, notify, poll. *)
Definition answer_challenge (fuel : nat) (header : nat) (thumbprint domain : string)
    (challenge : json) : M unit :=
  raw_token ← subscript "token" challenge;
  raw_token ← as_str raw_token;
  let token := sanitize_token raw_token in
  let keyauthorization := token +:+ "." +:+ thumbprint in
  let wellknown_path := os_path_join acme_dir token in
  write_file W wellknown_path keyauthorization;;
  let wellknown_url := "http://" +:+ domain +:+ "/.well-known/acme-challenge/" +:+ token in
  self_check wellknown_path wellknown_url keyauthorization;;
  uri ← subscript "uri" challenge;
  let uri := url_text W uri in
  _send_signed_request header uri
      (JObj [("resource", JStr "challenge"); ("keyAuthorization", JStr keyauthorization)])
      {[ 202%Z := None ]} "Error triggering challenge: {code} {result}";;
  poll fuel domain uri wellknown_path.

(** Lines 103-149: one round of the [for] loop. *)
Definition verify_domain (fuel : nat) (header : nat) (thumbprint domain : string)
  : M unit :=
  log_info ("Verifying " +:+ domain +:+ "...");;
  challenge ← request_challenge header domain;
  answer_challenge fuel header thumbprint domain challenge.

(** Lines 152-154. *)
Definition sign_certificate (header : nat) : M (string * headers) :=
  log_info "Signing certificate...";;
  der ← _openssl "req" ["-in"; csr; "-outform"; "DER"] None;
  _send_signed_request header (CA +:+ "/acme/new-cert")
    (JObj [("resource", JStr "new-cert"); ("csr", JStr (_b64 der))])
    {[ 201%Z := None ]} "Error signing certificate: {code} {result}".

(** Lines 158-162: the body of the loop over the [Link] headers. *)
Fixpoint fetch_links (links : list string) (certchain : list string)
  : M (list string) :=
  match links with
  | [] => ret certchain
  | link :: links' =>
      match search link_up_re link with
      | Some m =>
          log_info ("Retrieving Intermediate Certificate (" +:+ group 1 m +:+ ")!");;
          '(_, body, _) ← urlopen (_request (group 1 m)) None;
          fetch_links links' (certchain ++ [body])
      | None => fetch_links links' certchain
      end
  end.

(** Lines 156-162: iterating [None] raises [TypeError]. *)
Definition assemble_chain (result : string) (hdrs : headers) : M (list string) :=
  let certchain := [result] in
  if chain then
    match get_all "Link" hdrs with
    | Some links => fetch_links links certchain
    | None => raise TypeError
    end
  else ret certchain.

(** Lines 156-167. *)
Definition encode_chain (result : string) (hdrs : headers) : M string :=
  certchain ← assemble_chain result hdrs;
  log_info "Certificate signed!";;
  ret (pem certchain).

(** Lines 152-167. *)
Definition issue (header : nat) : M string :=
  '(result, hdrs) ← sign_certificate header;
  encode_chain result hdrs.

(** Lines 16-167.  A set is walked in an order Python does not fix; the
    model takes the order of [elements]. *)
Definition get_crt (fuel : nat) : M string :=
  '(header, thumbprint) ← parse_account_key;
  domains ← parse_csr;
  register header;;
  for_each (elements domains) (verify_domain fuel header thumbprint);;
  issue header.

End get_crt.

End AcmeTiny.

(** ** A complete exchange, used to run the script *)

Module Demo.
Import Text Re Pattern Codec Json Runtime AcmeTiny.

Definition lines (l : list string) : string := join (str1 nl) l +:+ str1 nl.

Definition key_text : string :=
  lines [ "Private-Key: (2048 bit)"; "modulus:"; "    00:c1:5e:a7:"; "    0f:ee:d5";
          "publicExponent: 65537 (0x10001)"; "privateExponent:"; "    1b:ad" ].

Definition csr_text : string :=
  lines [ "Certificate Request:"; "    Data:"; "        Version: 1 (0x0)";
          "        Subject: CN = example.com";
          "        Subject Public Key Info:";
          "            Public Key Algorithm: rsaEncryption";
          "        Attributes:"; "        Requested Extensions:";
          "            X509v3 Subject Alternative Name: ";
          "                DNS:example.com, DNS:www.example.com";
          "    Signature Algorithm: sha256WithRSAEncryption" ].

(** A request naming no domain at all. *)
Definition bare_csr_text : string :=
  lines [ "Certificate Request:"; "    Data:"; "        Version: 1 (0x0)";
          "        Subject: O = Example";
          "        Subject Public Key Info:";
          "    Signature Algorithm: sha256WithRSAEncryption" ].

Definition ca : string := "https://ca.test".

(** Stand-ins for the functions outside the script. *)
Definition digest (data : string) : string := "0123456789abcdef0123456789abcdef".

Definition ascii_decode (b : string) : option string :=
  if str_forall (fun c => (ord c <? 128)%N) b then Some b else None.

Definition challenge_uri : string := ca +:+ "/acme/challenge/1".

Definition challenge_json : json :=
  JObj [("type", JStr "http-01"); ("token", JStr "tok.en/1");
        ("uri", JStr challenge_uri)].

Definition authz_json : json :=
  JObj [("status", JStr "pending");
        ("challenges", JArr [JObj [("type", JStr "dns-01"); ("token", JStr "other")];
                             challenge_json])].

Definition status_json (status : string) : json := JObj [("status", JStr status)].

Definition documents : list json :=
  [ authz_json; status_json "pending"; status_json "valid"; status_json "invalid" ].

(** [json.loads] on the documents the authority sends here. *)
Definition parse (text : string) : option json :=
  List.find (fun j => String.eqb (dumps j) text) documents.

Definition openssl (csr_dump : string) (n : nat) (command : string)
    (options : list string) (stdin : option string) : Z * string * string :=
  if String.eqb command "rsa" then (0%Z, key_text, "")
  else if String.eqb command "dgst" then (0%Z, "signature-bytes", "")
  else if existsb (String.eqb "-text") options then (0%Z, csr_dump, "")
  else (0%Z, "csr-der", "").

Definition thumbprint : string := _b64 (digest "").
Definition keyauthorization : string := sanitize_token "tok.en/1" +:+ "." +:+ thumbprint.

Definition nonce (n : nat) : string := "nonce-" +:+ hex_of_N (N.of_nat n).

Definition up_link (url : string) : string :=
  "<" +:+ url +:+ ">;rel=" +:+ str1 dquote +:+ "up" +:+ str1 dquote.

(** The authority: [polls] tells how the challenge stands at each question,
    [links] are the [Link] headers of the certificate response. *)
Definition urlopen (polls : nat → string) (links : headers) (n : nat)
    (req : request) (data : option string) : reply :=
  let url := req_url req in
  if String.eqb url (ca +:+ "/directory") then Resp 200 "" [("Replay-Nonce", nonce n)]
  else if String.eqb url (ca +:+ "/acme/new-reg") then
    Raises (HTTPError 409 "Conflict" "already registered" [])
  else if String.eqb url (ca +:+ "/acme/new-authz") then
    match data with
    | Some _ => Resp 201 (dumps authz_json) []
    | None => Raises (HTTPError 405 "Method Not Allowed" "" [])
    end
  else if startswith "http://" url then Resp 200 (keyauthorization +:+ str1 nl) []
  else if String.eqb url challenge_uri then
    match data with
    | Some _ => Resp 202 "" []
    | None => Resp 200 (dumps (status_json (polls n))) []
    end
  else if String.eqb url (ca +:+ "/acme/new-cert") then Resp 201 "leaf-der" links
  else if String.eqb url (ca +:+ "/acme/issuer-cert") then Resp 200 "issuer-der" []
  else if String.eqb url (ca +:+ "/acme/root-cert") then Resp 200 "root-der" []
  else Raises (URLError "unreachable").

Definition world_of (csr_dump : string) (polls : nat → string) (links : headers) : world :=
  {| w_openssl := openssl csr_dump;
     w_urlopen := urlopen polls links;
     w_head := fun _ _ _ => inl (Some (ca +:+ "/terms/v1"));
     w_open := fun _ _ => None;
     w_print := fun _ => "None" |}.

Definition run (csr_dump : string) (polls : nat → string) (links : headers)
    (chain : bool) (fuel : nat) : outcome string * state :=
  get_crt digest ascii_decode parse (world_of csr_dump polls links)
    "account.key" "domain.csr" "/var/www/challenges/" None ca chain fuel initial.

End Demo.

(** * The vocabulary of the statements *)

Import Text Re Pattern Codec Json Runtime AcmeTiny.

(** ** States *)

(** The state after the events [evs] (latest first) and [asked] questions. *)
Definition after (evs : list event) (asked : nat) (st : state) : state :=
  {| st_heap := st_heap st; st_files := st_files st;
     st_trace := (evs ++ st_trace st)%list; st_clock := asked + st_clock st |}.

(** The state with the objects [h] in place of its own. *)
Definition with_heap (h : gmap nat dict) (st : state) : state :=
  {| st_heap := h; st_files := st_files st; st_trace := st_trace st;
     st_clock := st_clock st |}.

Definition is_remove (ev : event) : bool :=
  match ev with
  | EvRemove _ => true
  | _ => false
  end.

(** ** Tokens *)

(** What sanitisation does to one character. *)
Definition safe_char (c : ascii) : ascii := if token_char c then c else "_"%char.

(** ** Signed requests *)

(** The status code, body and headers of a reply: a response that
    [urlopen] returns, or one it raises as [HTTPError]. *)
Definition status_of (r : reply) : option (Z * string * headers) :=
  match r with
  | Resp code body hdrs => Some (code, body, hdrs)
  | Raises (HTTPError code _ body hdrs) => Some (code, body, hdrs)
  | Raises _ => None
  end.

(** The table of the registration request (line 99). *)
Definition registration_codes : gmap Z (option string) :=
  {[ 201%Z := Some "Registered!"; 409%Z := Some "Already registered!" ]}.

(** The request for a nonce. *)
Definition directory (CA : string) : request := _request (CA +:+ "/directory").

(** The nonce a directory response carries. *)
Definition nonce_value (info : headers) : json :=
  match get "Replay-Nonce" info with
  | Some nonce => JStr nonce
  | None => JNull
  end.

(** The protected field for a header standing for [hj] and a nonce. *)
Definition protected_text (hj : list (string * json)) (nonce : json) : string :=
  _b64 (dumps (JObj (setitem "nonce" nonce hj))).

(** What is signed. *)
Definition signing_input (hj : list (string * json)) (payload nonce : json) : string :=
  protected_text hj nonce +:+ "." +:+ _b64 (dumps payload).

Definition sign_event (account_key : string) (input : string) : event :=
  EvOpenssl "dgst" ["-sha256"; "-sign"; account_key] (Some input).

(** The envelope for a header object at [header] standing for [hj]. *)
Definition envelope_of (header : nat) (hj : list (string * json)) (payload nonce : json)
    (signature : string) : dict :=
  [ ("header", Ref header);
    ("protected", Lit (JStr (protected_text hj nonce)));
    ("payload", Lit (JStr (_b64 (dumps payload))));
    ("signature", Lit (JStr (_b64 signature))) ].

(** ** Objects and their copies *)

(** One field of a dictionary as it is serialised. *)
Definition snapshot_field (fuel : nat) (h : gmap nat dict) (kv : string * pyval)
  : option (string * json) :=
  j ← snapshot fuel h (snd kv); Some (fst kv, j).

(** The copy of one value, as [deepcopy] makes it. *)
Definition copy_value (fuel : nat) (v : pyval) : M pyval :=
  match v with
  | Lit j => ret (Lit j)
  | Ref l' => l'' ← deepcopy fuel l'; ret (Ref l'')
  end.

(** What a copy is: a new object, in a store that has kept every older
    object, standing for the same JSON value as the original. *)
Definition copies (fuel : nat) : Prop :=
  ∀ (l : nat) (st : state) (fields : list (string * json)),
    snapshot fuel (st_heap st) (Ref l) = Some (JObj fields) →
    ∃ l' h d',
      deepcopy fuel l st = (Ret l', with_heap (<[l' := d']> h) st)
      ∧ h !! l' = None ∧ st_heap st ⊆ h
      ∧ mapM (snapshot_field (pred fuel) h) d' = Some fields.

(** ** The published file *)

(** The state once the challenge file is written. *)
Definition published (path content : string) (st : state) : state :=
  {| st_heap := st_heap st; st_files := <[path := content]> (st_files st);
     st_trace := EvWrite path content :: st_trace st; st_clock := st_clock st |}.

(** The state once a failed check has removed it again. *)
Definition withdrawn (path content url : string) (st : state) : state :=
  {| st_heap := st_heap st; st_files := delete path (st_files st);
     st_trace := [EvRemove path; EvUrlopen (_request url) None; EvWrite path content]
                 ++ st_trace st;
     st_clock := S (st_clock st) |}.

(** The error of a failed check (lines 126-127). *)
Definition check_failed (path url : string) : exn :=
  ValueError (Fmt "Wrote file to {0}, but couldn't download {1}" [AStr path; AStr url]).

(** ** Polling *)

(** The challenge resource read by the question numbered [n], when the
    fetch returns and the body decodes and parses. *)
Definition resource (utf8_decode : string → option string)
    (json_loads : string → option json) (W : world) (uri : string) (n : nat)
  : option json :=
  match w_urlopen W n (_request uri) None with
  | Resp _ body _ => utf8_decode body ≫= json_loads
  | Raises _ => None
  end.

(** The resource read at [n] has the given status. *)
Definition stands (utf8_decode : string → option string)
    (json_loads : string → option json) (W : world) (uri status : string) (n : nat)
  : bool :=
  match resource utf8_decode json_loads W uri n with
  | Some j => is_str status (getitem "status" j)
  | None => false
  end.

(** One round that found the challenge pending, latest event first. *)
Definition pending_round (uri : string) : list event :=
  [EvSleep 2; EvUrlopen (_request uri) None].

Definition rounds (uri : string) (k : nat) : list event :=
  concat (replicate k (pending_round uri)).

(** The error for a status that is neither pending nor valid (lines 148-149). *)
Definition did_not_pass (domain : string) (j : json) : exn :=
  ValueError (Fmt "{0} challenge did not pass: {1}" [AStr domain; AJson j]).

(** ** The run as a whole *)

(** The certificate request is among the events. *)
Definition asks_for_certificate (CA : string) (ev : event) : bool :=
  match ev with
  | EvUrlopen req (Some _) => String.eqb (req_url req) (CA +:+ "/acme/new-cert")
  | _ => false
  end.

(** A run that stops with an error before asking for the certificate. *)
Definition fails_before_issuing (CA : string) (r : outcome string * state) : Prop :=
  (∃ e, fst r = Raise e) ∧ existsb (asks_for_certificate CA) (st_trace (snd r)) = false.

(** ** The chain *)

(** The targets of the [Link] headers with relation [up], in header order. *)
Definition up_targets (links : list string) : list string :=
  omap (fun link => group 1 <$> search link_up_re link) links.

(** The replies to fetching [urls] one after the other from question [n]. *)
Fixpoint fetched (W : world) (n : nat) (urls : list string) : list reply :=
  match urls with
  | [] => []
  | url :: urls' => w_urlopen W n (_request url) None :: fetched W (S n) urls'
  end.

(** The events of one fetch, latest first. *)
Definition fetch_events (url : string) : list event :=
  [ EvUrlopen (_request url) None;
    EvLog ("Retrieving Intermediate Certificate (" +:+ url +:+ ")!") ].

Definition delivers (r : reply) (body : string) : Prop :=
  ∃ code hdrs, r = Resp code body hdrs.

(** The characters of base64 text. *)
Definition b64_char (c : ascii) : bool :=
  is_upper c || is_lower c || is_digit c || is_char "+" c || is_char "/" c
  || is_char "=" c.

(** ** Samples *)

(** Certificate responses with and without [Link] headers. *)
Definition two_up_links : headers :=
  [ ("Content-Type", "application/pkix-cert");
    ("Link", Demo.up_link (Demo.ca +:+ "/acme/issuer-cert"));
    ("Link", "<" +:+ Demo.ca +:+ "/acme/terms>;rel=next");
    ("link", " " +:+ Demo.up_link (Demo.ca +:+ "/acme/root-cert")) ].

Definition plain_headers : headers := [("Content-Type", "application/pkix-cert")].

(** The sample exchange with a challenge that is valid at once. *)
Definition sample_world (hdrs : headers) : world :=
  Demo.world_of Demo.csr_text (fun _ => "valid") hdrs.

(** Its session once the account key is parsed: the key is the object 0,
    the header the object 1. *)
Definition sample_session (hdrs : headers) : outcome (nat * string) * state :=
  parse_account_key Demo.digest Demo.ascii_decode (sample_world hdrs)
    "account.key" initial.

Definition sample_header : nat := 1.

Definition sample_header_json : list (string * json) :=
  [ ("alg", JStr "RS256");
    ("jwk", JObj [("e", JStr "AQAB"); ("kty", JStr "RSA"); ("n", JStr "wV6nD-7V")]) ].

(** A web server answering every fetch with [content]. *)
Definition serving (content : string) : world :=
  {| w_openssl := fun _ _ _ _ => (0%Z, "signature-bytes", "");
     w_urlopen := fun _ req _ =>
       if startswith "http://" (req_url req) then Resp 200 content []
       else Raises (URLError "unreachable");
     w_head := fun _ _ _ => inl None;
     w_open := fun _ _ => None;
     w_print := fun _ => "None" |}.

(** A web server whose answer breaks off while it is read. *)
Definition broken_read : world :=
  {| w_openssl := fun _ _ _ _ => (0%Z, "signature-bytes", "");
     w_urlopen := fun _ _ _ => Raises (HTTPException "IncompleteRead(0 bytes read)");
     w_head := fun _ _ _ => inl None;
     w_open := fun _ _ => None;
     w_print := fun _ => "None" |}.

(** A certificate of 49 bytes, one more than fill a line of base64 text. *)
Definition long_certificate : string :=
  string_of_list_ascii (List.map ascii_of_nat (seq 0 49)).

Definition sample_challenge : list (string * json) :=
  [("type", JStr "http-01"); ("token", JStr "abc"); ("uri", JStr "https://ca.test/c/1")].

(** A challenge pending at the first two questions and valid afterwards. *)
Definition pending_twice (n : nat) : string := if Nat.ltb n 2 then "pending" else "valid".

(** ** What a match is *)

(** [matches r pos s c pos' s' c']: the pattern [r] can take the matcher
    from offset [pos], rest [s] and groups [c] to offset [pos'], rest [s']
    and groups [c']. *)
Inductive matches : regex → nat → string → caps → nat → string → caps → Prop :=
  | matches_eps pos s c : matches Eps pos s c pos s c
  | matches_chr p x pos s c :
      p x = true → matches (Chr p) pos (String x s) c (S pos) s c
  | matches_bol s c : matches Bol 0 s c 0 s c
  | matches_seq a b pos s c pos1 s1 c1 pos2 s2 c2 :
      matches a pos s c pos1 s1 c1 → matches b pos1 s1 c1 pos2 s2 c2 →
      matches (Seq a b) pos s c pos2 s2 c2
  | matches_alt_l a b pos s c pos' s' c' :
      matches a pos s c pos' s' c' → matches (Alt a b) pos s c pos' s' c'
  | matches_alt_r a b pos s c pos' s' c' :
      matches b pos s c pos' s' c' → matches (Alt a b) pos s c pos' s' c'
  | matches_star_stop greedy a pos s c : matches (Star greedy a) pos s c pos s c
  | matches_star_more greedy a pos s c pos1 s1 c1 pos2 s2 c2 :
      matches a pos s c pos1 s1 c1 → pos < pos1 →
      matches (Star greedy a) pos1 s1 c1 pos2 s2 c2 →
      matches (Star greedy a) pos s c pos2 s2 c2
  | matches_grp i a pos s c pos' s' c' :
      matches a pos s c pos' s' c' →
      matches (Grp i a) pos s c pos' s' ((i, str_take (pos' - pos) s) :: c').

(** A pattern without groups. *)
Fixpoint groupless (r : regex) : bool :=
  match r with
  | Eps | Chr _ | Bol => true
  | Seq a b | Alt a b => groupless a && groupless b
  | Star _ a => groupless a
  | Grp _ _ => false
  end.


(** ** Names and texts *)

(** The characters a common name is made of. *)
Definition name_char (c : ascii) : bool :=
  negb (is_space c || is_char "," c || is_char ";" c || is_char "/" c).


(** A hexadecimal digit as [format] prints it and [unhexlify] reads it. *)
Definition is_hex (c : ascii) : bool := is_digit c || between 97 102 c.

(** The characters [re.sub] deletes from the modulus (line 43). *)
Definition hex_noise (c : ascii) : bool := is_space c || is_char ":" c.

(** The characters the pattern allows in the modulus (line 36). *)
Definition modulus_char (c : ascii) : bool :=
  between 97 102 c || is_digit c || is_char ":" c || is_space c.

(** ** The session *)

(** A text between double quotes. *)
Definition quoted (s : string) : string := String dquote s +:+ str1 dquote.

(** The key of the account as it is hashed: the three members in the
    order of their names, without any whitespace. *)
Definition canonical_key (e n : string) : string :=
  "{" +:+ quoted "e" +:+ ":" +:+ quoted e +:+ ","
      +:+ quoted "kty" +:+ ":" +:+ quoted "RSA" +:+ ","
      +:+ quoted "n" +:+ ":" +:+ quoted n +:+ "}".

(** The exponent in hexadecimal, with an even number of digits (lines 38-39). *)
Definition exponent_hex (n : N) : string :=
  let pub_exp := hex_of_N n in
  if Nat.odd (String.length pub_exp) then "0" +:+ pub_exp else pub_exp.

(** The question put to [openssl] about the account key (line 37). *)
Definition key_dump_options (account_key : string) : list string :=
  ["-in"; account_key; "-noout"; "-text"].

(** The two objects of a session: the key and the header that holds it. *)
Definition key_object (e n : string) : dict :=
  [("e", Lit (JStr e)); ("kty", Lit (JStr "RSA")); ("n", Lit (JStr n))].

Definition header_object (jwk : nat) : dict :=
  [("alg", Lit (JStr "RS256")); ("jwk", Ref jwk)].

Definition header_json (e n : string) : list (string * json) :=
  [("alg", JStr "RS256");
   ("jwk", JObj [("e", JStr e); ("kty", JStr "RSA"); ("n", JStr n)])].

(** ** The challenge file *)

(** What joins the directory and the file name (line 114). *)
Definition path_separator (acme_dir : string) : string :=
  if String.eqb acme_dir "" then ""
  else if startswith "/" (String.rev acme_dir) then "" else "/".

(** The characters a file name must not hold to stay inside its directory. *)
Definition is_path_char (c : ascii) : bool := is_char "/" c || is_char "." c.

(** ** Registration *)

Definition no_slash (c : ascii) : bool := negb (is_char "/" c).

(** The state once the terms have been asked for at [host]. *)
Definition terms_asked (host : string) (st : state) : state :=
  after [EvHead host "/terms"] 1 st.

(** ** Replies without a status code *)

(** What a signed request raises when [urlopen] raised [e] and [e] is no
    [HTTPError] (lines 62-71): a [URLError] has no code, so the table is
    asked for [None]; any other exception leaves [code] unbound. *)
Definition no_status_error (error_message : string) (e : exn) : exn :=
  match e with
  | URLError reason => ValueError (Fmt error_message [ACode None; AStr reason])
  | _ => UnboundLocalError
  end.

(** The state once a signed request has been posted. *)
Definition posted (url signed_request : string) (st : state) : state :=
  after [EvUrlopen (_request url) (Some signed_request)] 1 st.

(** The body of a signed request (lines 55-58). *)
Definition signed_body (hj : list (string * json)) (payload nonce : json)
    (signature : string) : string :=
  dumps (JObj [ ("header", JObj hj);
                ("protected", JStr (protected_text hj nonce));
                ("payload", JStr (_b64 (dumps payload)));
                ("signature", JStr (_b64 signature)) ]).

(** What the polling loop raises when the fetch of the challenge raised
    [e] (lines 138-140): the handler reads [e.code] and [e.read()], which
    only an [HTTPError] has. *)
Definition poll_error (utf8_decode : string → option string)
    (json_loads : string → option json) (e : exn) : exn :=
  match e with
  | HTTPError code _ body _ =>
      match utf8_decode body with
      | None => UnicodeDecodeError
      | Some text =>
          match json_loads text with
          | None => JSONDecodeError
          | Some detail =>
              ValueError (Fmt "Error checking challenge: {0} {1}"
                            [ACode (Some code); AJson detail])
          end
      end
  | OSError _ | URLError _ => AttributeError
  | _ => e
  end.

(** ** Steps and the files *)

(** A step that leaves the files as they are, however it ends. *)
Definition keeps_files {A : Type} (m : M A) : Prop :=
  ∀ st, st_files (snd (m st)) = st_files st.

(** ** Answering a challenge *)

(** The key authorization, the path and the URL of a challenge (lines 112-119). *)
Definition keyauthorization_of (raw_token thumbprint : string) : string :=
  sanitize_token raw_token +:+ "." +:+ thumbprint.

Definition wellknown_path_of (acme_dir raw_token : string) : string :=
  os_path_join acme_dir (sanitize_token raw_token).

Definition wellknown_url_of (domain raw_token : string) : string :=
  "http://" +:+ domain +:+ "/.well-known/acme-challenge/" +:+ sanitize_token raw_token.

(** The notification that the challenge is met (line 130). *)
Definition notification (keyauthorization : string) : json :=
  JObj [("resource", JStr "challenge"); ("keyAuthorization", JStr keyauthorization)].

(** The state once the file is published and has been fetched. *)
Definition checked (path content url : string) (st : state) : state :=
  after [EvUrlopen (_request url) None] 1 (published path content st).

(** The entries of an authorization that offer the [http-01] challenge. *)
Definition is_http01 (c : json) : bool := is_str "http-01" (getitem "type" c).

(** What subscripting an entry without a [type] raises. *)
Definition untyped_error (c : json) : exn :=
  match c with
  | JObj _ => KeyError
  | _ => TypeError
  end.

(** An authority that serves the challenge file and hands out nonces,
    but rejects every post. *)
Definition rejecting (content : string) : world :=
  {| w_openssl := fun _ _ _ _ => (0%Z, "signature-bytes", "");
     w_urlopen := fun n req data =>
       if startswith "http://" (req_url req) then Resp 200 content []
       else match data with
            | None => Resp 200 "" [("Replay-Nonce", Demo.nonce n)]
            | Some _ => Raises (HTTPError 400 "Bad Request" "malformed" [])
            end;
     w_head := fun _ _ _ => inl None;
     w_open := fun _ _ => None;
     w_print := fun _ => "None" |}.

(** ** Numbers in bytes and in digits *)

(** The number a byte string stands for, most significant byte first. *)
Fixpoint big_endian_from (acc : N) (b : string) : N :=
  match b with
  | EmptyString => acc
  | String c b' => big_endian_from (256 * acc + ord c) b'
  end.

Definition big_endian (b : string) : N := big_endian_from 0 b.

(** The number a string of hexadecimal digits stands for. *)
Fixpoint hex_number_from (acc : N) (s : string) : option N :=
  match s with
  | EmptyString => Some acc
  | String c s' => v ← hex_value c; hex_number_from (16 * acc + v) s'
  end.

Definition hex_number (s : string) : option N := hex_number_from 0 s.

(** ** Trimmed text *)

Definition starts_bare (s : string) : bool :=
  match s with
  | String c _ => negb (is_space c)
  | EmptyString => true
  end.

Fixpoint last_char (s : string) : option ascii :=
  match s with
  | EmptyString => None
  | String c EmptyString => Some c
  | String _ s' => last_char s'
  end.

Definition ends_bare (s : string) : bool :=
  match last_char s with
  | Some c => negb (is_space c)
  | None => true
  end.

(** A challenge directory in which nothing can be written. *)
Definition read_only (content : string) : world :=
  {| w_openssl := fun _ _ _ _ => (0%Z, "signature-bytes", "");
     w_urlopen := fun _ _ _ => Resp 200 content [];
     w_head := fun _ _ _ => inl None;
     w_open := fun _ p => Some (OSError (Fmt "Is a directory: {0}" [AStr p]));
     w_print := fun _ => "None" |}.
(** * Properties *)

(** Unfolds the monad down to functions on states. *)
Ltac unfold_m :=
  cbv [mbind M_bind bind mret M_ret ret raise hang lift_option try_except
       emit tick log_info sleep].

(** ** Steps of a run *)

Lemma bind_returns {A B} (m : M A) (k : A → M B) (st st' : state) (a : A) :
  m st = (Ret a, st') → (m ≫= k) st = k a st'.
Proof. unfold_m. by intros ->. Qed.

Lemma bind_raises {A B} (m : M A) (k : A → M B) (st st' : state) (e : exn) :
  m st = (Raise e, st') → (m ≫= k) st = (Raise e, st').
Proof. unfold_m. by intros ->. Qed.

Lemma bind_hangs {A B} (m : M A) (k : A → M B) (st st' : state) :
  m st = (Hang, st') → (m ≫= k) st = (Hang, st').
Proof. unfold_m. by intros ->. Qed.

Lemma after_after evs evs' n n' st :
  after evs n (after evs' n' st) = after (evs ++ evs')%list (n + n') st.
Proof. unfold after; cbn. f_equal; [by rewrite app_assoc | lia]. Qed.

Lemma after_nothing st : after [] 0 st = st.
Proof. by destruct st. Qed.

Lemma urlopen_step W req data st :
  urlopen W req data st
  = match w_urlopen W (st_clock st) req data with
    | Resp code body hdrs => (Ret (code, body, hdrs), after [EvUrlopen req data] 1 st)
    | Raises e => (Raise e, after [EvUrlopen req data] 1 st)
    end.
Proof. unfold urlopen. unfold_m. cbn. by destruct (w_urlopen _ _ _ _). Qed.

(** ** Token sanitisation (line 112) *)

(** A pattern of one character class never matches the empty string, so
    [re.sub] works character by character. *)
Lemma sub_go_class (p : ascii → bool) (r : ascii) (s : string) (pos : nat) :
  sub_go (Chr p) (str1 r) pos s 0 = str_map (fun c => if p c then r else c) s.
Proof.
  revert pos. induction s as [|x s IH]; intros pos; [reflexivity|].
  cbn [sub_go match_at run str_map].
  destruct (p x); cbn [m_end].
  - replace (S pos - pos) with 1 by lia. cbn. by rewrite IH.
  - by rewrite IH.
Qed.

Lemma sanitize_token_map (token : string) :
  sanitize_token token = str_map safe_char token.
Proof.
  unfold sanitize_token, sub, unsafe_token_re.
  change "_" with (str1 "_"%char). rewrite sub_go_class.
  induction token as [|c t IH]; [reflexivity|].
  cbn [str_map]. rewrite IH. unfold safe_char. by destruct (token_char c).
Qed.

Lemma safe_char_token (c : ascii) : token_char (safe_char c) = true.
Proof. unfold safe_char. destruct (token_char c) eqn:E; [exact E | reflexivity]. Qed.

Lemma safe_char_fixed (c : ascii) : token_char c = true → safe_char c = c.
Proof. unfold safe_char. by intros ->. Qed.

Lemma str_map_length f (s : string) : String.length (str_map f s) = String.length s.
Proof. induction s; cbn; congruence. Qed.

Lemma str_map_get f (s : string) (i : nat) :
  String.get i (str_map f s) = f <$> String.get i s.
Proof.
  revert i. induction s as [|c s IH]; intros [|i]; cbn; try reflexivity. apply IH.
Qed.

(** C7. Sanitising a token keeps its length; at every position a character
    of [A-Za-z0-9_-] is kept and any other character becomes [_]; and
    sanitising twice gives the same as sanitising once. *)
Theorem sanitize_token_pointwise_idempotent (token : string) :
  String.length (sanitize_token token) = String.length token
  ∧ (∀ i c, String.get i token = Some c →
       String.get i (sanitize_token token)
       = Some (if token_char c then c else "_"%char))
  ∧ str_forall token_char (sanitize_token token) = true
  ∧ sanitize_token (sanitize_token token) = sanitize_token token.
Proof.
  rewrite !sanitize_token_map. repeat split.
  - apply str_map_length.
  - intros i c Hc. by rewrite str_map_get, Hc.
  - induction token as [|c t IH]; [reflexivity|].
    cbn. by rewrite safe_char_token, IH.
  - induction token as [|c t IH]; [reflexivity|].
    cbn. rewrite IH. f_equal. apply safe_char_fixed, safe_char_token.
Qed.

Example sanitize_token_sample :
  sanitize_token "tok.en/1 a+b=c_d-e" = "tok_en_1_a_b_c_d-e".
Proof. reflexivity. Qed.

(** ** The domains of a request (lines 76-84) *)

Lemma add_alt_names_elem (names : list string) (domains : gset string) (d : string) :
  d ∈ foldl add_alt_name domains names
  ↔ d ∈ domains
    ∨ ∃ san, san ∈ names ∧ startswith "DNS:" san = true ∧ d = str_drop 4 san.
Proof.
  revert domains. induction names as [|san names IH]; intros domains; cbn [foldl].
  - split; [by left | intros [H | (san & Hin & _)]; [done | by inversion Hin]].
  - rewrite IH. unfold add_alt_name at 1. destruct (startswith "DNS:" san) eqn:E.
    + rewrite elem_of_union, elem_of_singleton. split.
      * intros [[H | ->] | (x & Hx & Hd)]; [by left | right | right].
        -- exists san. split; [left | done].
        -- exists x. split; [by right | done].
      * intros [H | (x & Hx & Hs & Hd)]; [by left; left |].
        apply elem_of_cons in Hx as [-> | Hx]; [left; by right |].
        right. by exists x.
    + split.
      * intros [H | (x & Hx & Hd)]; [by left | right].
        exists x. split; [by right | done].
      * intros [H | (x & Hx & Hs & Hd)]; [by left |].
        apply elem_of_cons in Hx as [-> | Hx]; [congruence |].
        right. by exists x.
Qed.

(** C8. A name belongs to the domains of a request exactly when it is the
    common name found by the [Subject: ... CN = <name>] pattern or one of
    the [DNS:] entries of the comma-separated line after the alternative
    names heading; the result is a set, so a name found twice counts once.
    A request with [CN = example.com] and the alternative names
    [DNS:example.com, DNS:www.example.com] gives exactly the two names. *)
Theorem find_domains_union (csr_dump d : string) :
  (d ∈ find_domains csr_dump
   ↔ (∃ m, search common_name_re csr_dump = Some m ∧ d = group 1 m)
     ∨ (∃ m san, search alt_names_re csr_dump = Some m
          ∧ san ∈ split ", " (group 1 m)
          ∧ startswith "DNS:" san = true ∧ d = str_drop 4 san))
  ∧ (group 1 <$> search common_name_re Demo.csr_text = Some "example.com"
     ∧ split ", " <$> (group 1 <$> search alt_names_re Demo.csr_text)
       = Some ["DNS:example.com"; "DNS:www.example.com"]
     ∧ find_domains Demo.csr_text = {[ "example.com"; "www.example.com" ]}
     ∧ size (find_domains Demo.csr_text) = 2).
Proof.
  split.
  - unfold find_domains.
    destruct (search alt_names_re csr_dump) as [sans|];
      destruct (search common_name_re csr_dump) as [cn|];
      rewrite ?add_alt_names_elem, ?elem_of_union, ?elem_of_singleton.
    + split.
      * intros [[H | ->] | (san & H)]; [set_solver | left; by exists cn | right; by exists sans, san].
      * intros [(m & [= <-] & ->) | (m & san & [= <-] & H)]; [left; by right | right; by exists san].
    + split.
      * intros [H | (san & H)]; [set_solver | right; by exists sans, san].
      * intros [(m & [=] & _) | (m & san & [= <-] & H)]. right; by exists san.
    + split.
      * intros [H | ->]; [set_solver | left; by exists cn].
      * intros [(m & [= <-] & ->) | (m & san & [=] & _)]. by right.
    + split; [set_solver |].
      intros [(m & [=] & _) | (m & san & [=] & _)].
  - repeat split; vm_compute; reflexivity.
Qed.

(** ** The certificate chain (lines 156-167) *)

Lemma fetch_links_ok W links : ∀ certchain bodies st,
  Forall2 delivers (fetched W (st_clock st) (up_targets links)) bodies →
  fetch_links W links certchain st
  = (Ret (certchain ++ bodies)%list,
     after (flat_map fetch_events (rev (up_targets links))) (length bodies) st).
Proof.
  induction links as [|link links IH]; intros certchain bodies st Hf.
  - cbn in Hf. inversion Hf; subst. cbn. unfold_m.
    by rewrite app_nil_r, after_nothing.
  - cbn [fetch_links]. unfold up_targets in *. cbn [omap list_omap] in Hf |- *.
    destruct (search link_up_re link) as [m|] eqn:Hs;
      cbn [fmap option_fmap option_map] in Hf |- *.
    + cbn [fetched] in Hf. inversion Hf as [|r body rs bs (code & hdrs & Hr) Hrest]; subst.
      unfold_m. rewrite urlopen_step. cbn [st_clock]. rewrite Hr.
      rewrite (IH _ bs); [| by cbn].
      rewrite <- app_assoc. cbn [length app]. f_equal.
      cbn [rev]. rewrite flat_map_app. cbn [flat_map]. rewrite app_nil_r.
      unfold after, fetch_events. cbn. rewrite <- !app_assoc. cbn.
      f_equal. lia.
    + by apply IH.
Qed.

(** *** Line wrapping and framing *)

Lemma append_empty (s : string) : s +:+ "" = s.
Proof.
  induction s as [|c s IH]; [done |].
  change (String c (s +:+ "") = String c s). by rewrite IH.
Qed.

Lemma join_empty_cons (p : string) (rest : list string) :
  join "" (p :: rest) = p +:+ join "" rest.
Proof. destruct rest; cbn; [by rewrite append_empty | done]. Qed.

Lemma str_take_drop (n : nat) (s : string) : str_take n s +:+ str_drop n s = s.
Proof.
  revert s. induction n as [|n IH]; intros [|c s]; cbn; try done.
  change (String c (str_take n s +:+ str_drop n s) = String c s). by rewrite IH.
Qed.

Lemma str_take_length (n : nat) (s : string) :
  String.length (str_take n s) = n `min` String.length s.
Proof.
  revert s. induction n as [|n IH]; intros [|c s]; cbn; try done. by rewrite IH.
Qed.

Lemma str_drop_length (n : nat) (s : string) :
  String.length (str_drop n s) = String.length s - n.
Proof.
  revert s. induction n as [|n IH]; intros [|c s]; cbn; try done.
Qed.

(** The lines of a wrapped text: joined they give the text back, none is
    empty or longer than the width, and all but the last are full. *)
Lemma wrap_go_lines (width : nat) : 0 < width → ∀ fuel text,
  (String.length text ≤ fuel)%nat →
  join "" (wrap_go fuel width text) = text
  ∧ Forall (fun line => 0 < String.length line ≤ width)%nat (wrap_go fuel width text)
  ∧ ∀ i line, wrap_go fuel width text !! i = Some line →
      S i < length (wrap_go fuel width text) → String.length line = width.
Proof.
  intros Hw. induction fuel as [|fuel IH]; intros text Hlen.
  - destruct text; [cbn | cbn in Hlen; lia].
    repeat split; [constructor | intros i line H; inversion H].
  - destruct text as [|c text]; [cbn; repeat split; [constructor | intros i line H; inversion H] |].
    cbn [wrap_go].
    destruct (IH (str_drop width (String c text))) as (Hj & Hall & Hfull).
    { rewrite str_drop_length. cbn in *. lia. }
    split; [| split].
    + by rewrite join_empty_cons, Hj, str_take_drop.
    + constructor; [| done]. rewrite str_take_length. cbn. lia.
    + intros [|i] line Hi Hlast; cbn in Hi, Hlast.
      * injection Hi as <-. rewrite str_take_length.
        destruct (wrap_go fuel width (str_drop width (String c text))) eqn:E;
          [cbn in Hlast; lia |].
        assert (str_drop width (String c text) ≠ "") as Hne.
        { intros Heq. rewrite Heq in E. by destruct fuel. }
        assert (String.length (str_drop width (String c text)) ≠ 0) as Hn.
        { by destruct (str_drop width (String c text)). }
        rewrite str_drop_length in Hn. lia.
      * apply (Hfull i line Hi). lia.
Qed.

Lemma wrap_lines (text : string) (width : nat) : 0 < width →
  join "" (wrap text width) = text
  ∧ Forall (fun line => 0 < String.length line ≤ width)%nat (wrap text width)
  ∧ ∀ i line, wrap text width !! i = Some line →
      S i < length (wrap text width) → String.length line = width.
Proof. intros Hw. by apply wrap_go_lines. Qed.

Lemma pem_cons (cert : string) (certchain : list string) :
  pem (cert :: certchain) = pem_entry cert +:+ pem certchain.
Proof. unfold pem. cbn [List.map]. apply join_empty_cons. Qed.

(** *** Base64 text *)

Lemma b64_digit_char (n : N) : b64_char (b64_digit false n) = true.
Proof.
  assert (∀ k, k < 62 → b64_char (b64_digit false (N.of_nat k)) = true) as Hsmall.
  { assert (forallb (fun k => b64_char (b64_digit false (N.of_nat k))) (seq 0 62) = true)
      as Hall by (vm_compute; reflexivity).
    intros k Hk. apply (proj1 (forallb_forall _ _) Hall). apply in_seq. lia. }
  destruct (N.ltb n 62) eqn:Hn.
  - apply N.ltb_lt in Hn. rewrite <- (N2Nat.id n). apply Hsmall. lia.
  - apply N.ltb_ge in Hn. unfold b64_digit.
    replace (n <? 26)%N with false by (symmetry; apply N.ltb_ge; lia).
    replace (n <? 52)%N with false by (symmetry; apply N.ltb_ge; lia).
    replace (n <? 62)%N with false by (symmetry; apply N.ltb_ge; lia).
    by destruct (n =? 62)%N.
Qed.

(** Base64 text consists of letters, digits, [+], [/] and [=]. *)
Lemma b64encode_chars (b : string) : str_forall b64_char (b64encode b) = true.
Proof.
  unfold b64encode.
  enough (∀ n b, (String.length b ≤ n)%nat → str_forall b64_char (b64_go false b) = true) as H
    by by apply (H (String.length b)).
  clear b. induction n as [|n IH]; intros b Hlen.
  - destruct b; [done | cbn in Hlen; lia].
  - destruct b as [|x [|y [|z rest]]]; cbn [b64_go str_forall];
      rewrite ?b64_digit_char; try done.
    cbn [andb]. apply IH. cbn in Hlen. lia.
Qed.

(** None of them is whitespace or a hyphen, the places where
    [textwrap.wrap] would rather break a line. *)
Lemma b64_char_unbroken (c : ascii) :
  b64_char c = true → is_space c = false ∧ is_char "-" c = false.
Proof. destruct c as [[] [] [] [] [] [] [] []]; vm_compute; intros; by try split. Qed.

(** Known answers of RFC 4648 for the base64 encoder. *)
Example b64encode_rfc4648 :
  List.map b64encode ["" ; "f"; "fo"; "foo"; "foob"; "fooba"; "foobar"]
  = [""; "Zg=="; "Zm8="; "Zm9v"; "Zm9vYg=="; "Zm9vYmE="; "Zm9vYmFy"].
Proof. reflexivity. Qed.

Lemma get_all_none (name : string) (hdrs : headers) :
  (∀ k v, (k, v) ∈ hdrs → same_name k name = false) → get_all name hdrs = None.
Proof.
  intros H. unfold get_all.
  replace (List.filter _ hdrs) with (@nil (string * string)); [done |].
  induction hdrs as [|[k v] hdrs IH]; [done |].
  cbn [List.filter fst]. rewrite (H k v) by left. apply IH. intros k' v' Hin. apply (H k' v'). by right.
Qed.

(** C9. The output starts with the certificate of the response.  With the
    chain flag unset nothing follows; with the flag set and [Link] headers
    present, every header matching the [up] pattern is fetched, in header
    order, and the bodies follow in that order.  The output is the framed
    entries one after the other with nothing between them; an entry is the
    begin line, the base64 text of the certificate (letters, digits, [+],
    [/] and [=]) cut into lines of 64 characters, of which only the last
    may be shorter, and the end line.  The base64 text is that of RFC 4648,
    as its test vectors show; a certificate of 49 bytes after a short one
    gives two entries, the second with a full line and a line of four
    characters. *)
Theorem certificate_chain_encoding (W : world) (leaf : string) (hdrs : headers)
    (st : state) :
  encode_chain W false leaf hdrs st
    = (Ret (pem [leaf]), after [EvLog "Certificate signed!"] 0 st)
  ∧ (∀ links bodies,
       get_all "Link" hdrs = Some links →
       Forall2 delivers (fetched W (st_clock st) (up_targets links)) bodies →
       encode_chain W true leaf hdrs st
         = (Ret (pem (leaf :: bodies)),
            after (EvLog "Certificate signed!"
                     :: flat_map fetch_events (rev (up_targets links)))
                  (length bodies) st)
       ∧ length bodies = length (up_targets links)
       ∧ pem (leaf :: bodies) = pem_entry leaf +:+ join "" (List.map pem_entry bodies))
  ∧ ∀ cert,
      pem_entry cert
      = "-----BEGIN CERTIFICATE-----" +:+ str1 nl
          +:+ join (str1 nl) (wrap (b64encode cert) 64)
          +:+ str1 nl +:+ "-----END CERTIFICATE-----" +:+ str1 nl
      ∧ str_forall b64_char (b64encode cert) = true
      ∧ join "" (wrap (b64encode cert) 64) = b64encode cert
      ∧ Forall (fun line => 0 < String.length line ≤ 64)%nat (wrap (b64encode cert) 64)
      ∧ (∀ i line, wrap (b64encode cert) 64 !! i = Some line →
           S i < length (wrap (b64encode cert) 64) → String.length line = 64)
      ∧ List.map b64encode ["" ; "f"; "fo"; "foo"; "foob"; "fooba"; "foobar"]
        = [""; "Zg=="; "Zm8="; "Zm9v"; "Zm9vYg=="; "Zm9vYmE="; "Zm9vYmFy"]
      ∧ pem ["leaf-der"; long_certificate]
        = "-----BEGIN CERTIFICATE-----" +:+ str1 nl
            +:+ "bGVhZi1kZXI=" +:+ str1 nl
            +:+ "-----END CERTIFICATE-----" +:+ str1 nl
            +:+ "-----BEGIN CERTIFICATE-----" +:+ str1 nl
            +:+ "AAECAwQFBgcICQoLDA0ODxAREhMUFRYXGBkaGxwdHh8gISIjJCUmJygpKissLS4v" +:+ str1 nl
            +:+ "MA==" +:+ str1 nl
            +:+ "-----END CERTIFICATE-----" +:+ str1 nl.
Proof.
  split_and!.
  - unfold encode_chain, assemble_chain. unfold_m. by destruct st.
  - intros links bodies Hlinks Hfetch. split_and!.
    + unfold encode_chain, assemble_chain. rewrite Hlinks. unfold_m.
      rewrite (fetch_links_ok W links [leaf] bodies st Hfetch). by cbn.
    + apply Forall2_length in Hfetch. rewrite <- Hfetch. clear.
      generalize (st_clock st).
      induction (up_targets links) as [|url urls IH]; intros n; cbn;
        [done | by rewrite (IH (S n))].
    + apply pem_cons.
  - intros cert. split; [done |]. split; [apply b64encode_chars |].
    destruct (wrap_lines (b64encode cert) 64) as (Hjoin & Hlines & Hfull); [lia |].
    split_and!; [done | done | done | reflexivity | vm_compute; reflexivity].
Qed.

Lemma certificate_chain_encoding_witness :
  let W := Demo.world_of Demo.csr_text (fun _ => "valid") two_up_links in
  up_targets (List.map snd (tail two_up_links))
    = [Demo.ca +:+ "/acme/issuer-cert"; Demo.ca +:+ "/acme/root-cert"]
  ∧ fst (encode_chain W true "leaf-der" two_up_links initial)
    = Ret ("-----BEGIN CERTIFICATE-----" +:+ str1 nl
             +:+ "bGVhZi1kZXI=" +:+ str1 nl
             +:+ "-----END CERTIFICATE-----" +:+ str1 nl
             +:+ "-----BEGIN CERTIFICATE-----" +:+ str1 nl
             +:+ "aXNzdWVyLWRlcg==" +:+ str1 nl
             +:+ "-----END CERTIFICATE-----" +:+ str1 nl
             +:+ "-----BEGIN CERTIFICATE-----" +:+ str1 nl
             +:+ "cm9vdC1kZXI=" +:+ str1 nl
             +:+ "-----END CERTIFICATE-----" +:+ str1 nl).
Proof.
  intros W. split; [vm_compute; reflexivity |].
  destruct (certificate_chain_encoding W "leaf-der" two_up_links initial)
    as (_ & Hchain & _).
  destruct (Hchain (List.map snd (tail two_up_links)) ["issuer-der"; "root-der"])
    as (-> & _).
  - vm_compute; reflexivity.
  - repeat constructor; by eexists _, _.
  - reflexivity.
Defined.

(** C10. With the chain flag set and no [Link] header in the certificate
    response, the header collection is [None]; walking it raises
    [TypeError], so the output with the single certificate is not produced,
    although the certificate request has been answered.  With the flag
    unset the same response gives that output. *)
Theorem chain_without_link_header (W : world) (account_key csr CA : string)
    (header : nat) (leaf : string) (hdrs : headers) (st0 st : state) :
  (∀ k v, (k, v) ∈ hdrs → same_name k "Link" = false) →
  sign_certificate W account_key csr CA header st0 = (Ret (leaf, hdrs), st) →
  get_all "Link" hdrs = None
  ∧ assemble_chain W true leaf hdrs st = (Raise TypeError, st)
  ∧ issue W account_key csr CA true header st0 = (Raise TypeError, st)
  ∧ issue W account_key csr CA false header st0
    = (Ret (pem [leaf]), after [EvLog "Certificate signed!"] 0 st).
Proof.
  intros Hnone Hsign. pose proof (get_all_none "Link" hdrs Hnone) as Hget.
  split_and!; [done | ..].
  - unfold assemble_chain. by rewrite Hget.
  - unfold issue, encode_chain, assemble_chain. unfold_m. by rewrite Hsign, Hget.
  - unfold issue, encode_chain, assemble_chain. unfold_m. by rewrite Hsign.
Qed.

Lemma sample_session_header hdrs :
  fst (sample_session hdrs) = Ret (sample_header, Demo.thumbprint).
Proof. vm_compute. reflexivity. Qed.

Lemma chain_without_link_header_witness :
  let W := sample_world plain_headers in
  let st0 := snd (sample_session plain_headers) in
  fst (issue W "account.key" "domain.csr" Demo.ca true sample_header st0)
    = Raise TypeError
  ∧ fst (issue W "account.key" "domain.csr" Demo.ca false sample_header st0)
    = Ret (pem ["leaf-der"]).
Proof.
  intros W st0.
  destruct (chain_without_link_header W "account.key" "domain.csr" Demo.ca
              sample_header "leaf-der" plain_headers st0
              (snd (sign_certificate W "account.key" "domain.csr" Demo.ca
                      sample_header st0)))
    as (_ & _ & -> & ->).
  - intros k v Hin. apply list_elem_of_singleton in Hin. by injection Hin as -> ->.
  - vm_compute. reflexivity.
  - split; reflexivity.
Defined.

(** The whole run on that exchange: the certificate request is the last
    thing sent, and the run then stops in the chain loop. *)
Example run_without_link_header :
  let r := Demo.run Demo.csr_text (fun _ => "valid") plain_headers true 1 in
  fst r = Raise TypeError
  ∧ (∃ data, head (st_trace (snd r))
       = Some (EvUrlopen (_request (Demo.ca +:+ "/acme/new-cert")) (Some data)))
  ∧ st_files (snd r) = ∅.
Proof. vm_compute. split_and!; [done | by eexists | done]. Qed.

(** ** Signed requests (lines 50-71) *)

(** C3. Whatever the reply to a signed request, once it has a status code
    the outcome depends on that code alone: a code of the table returns the
    body and the headers of the reply, after logging the message the table
    gives for it, if any; a code not in the table raises the error built
    from the template, that code and the body.  This holds alike for a
    reply returned by [urlopen] and for one raised as [HTTPError]. *)
Theorem signed_request_classification (W : world) (url signed_request : string)
    (return_codes : gmap Z (option string)) (error_message : string)
    (st : state) (code : Z) (body : string) (hdrs : headers) :
  status_of (w_urlopen W (st_clock st) (_request url) (Some signed_request))
    = Some (code, body, hdrs) →
  send_and_classify W url signed_request return_codes error_message st
    = (let sent := after [EvUrlopen (_request url) (Some signed_request)] 1 st in
       match return_codes !! code with
       | Some (Some message) => (Ret (body, hdrs), after [EvLog message] 0 sent)
       | Some None => (Ret (body, hdrs), sent)
       | None =>
           (Raise (ValueError (Fmt error_message [ACode (Some code); ABytes body])), sent)
       end)
  ∧ ∀ account_key CA header payload st0 envelope,
      build_envelope W account_key CA header payload st0 = (Ret envelope, st) →
      dumps_dict envelope st = (Ret signed_request, st) →
      _send_signed_request W account_key CA header url payload return_codes
        error_message st0
      = send_and_classify W url signed_request return_codes error_message st.
Proof.
  intros Hstatus. split.
  - unfold send_and_classify. unfold_m. rewrite urlopen_step.
    destruct (w_urlopen W (st_clock st) (_request url) (Some signed_request))
      as [c b h | e]; cbn in Hstatus.
    + injection Hstatus as -> -> ->. unfold classify. unfold_m. cbn [option_bind mbind].
      destruct (return_codes !! code) as [[message|]|]; cbn; try done.
    + destruct e; try discriminate. injection Hstatus as -> -> ->.
      unfold classify. unfold_m. cbn [option_bind mbind].
      destruct (return_codes !! code) as [[message|]|]; cbn; try done.
  - intros account_key CA header payload st0 envelope Hbuild Hdumps.
    unfold _send_signed_request. unfold_m. by rewrite Hbuild, Hdumps.
Qed.

Lemma signed_request_classification_witness :
  let W := sample_world plain_headers in
  w_urlopen W 0 (_request (Demo.ca +:+ "/acme/new-reg")) (Some "signed")
    = Raises (HTTPError 409 "Conflict" "already registered" [])
  ∧ send_and_classify W (Demo.ca +:+ "/acme/new-reg") "signed" registration_codes
      "Error registering: {code} {result}" initial
    = (Ret ("already registered", []),
       after [EvLog "Already registered!";
              EvUrlopen (_request (Demo.ca +:+ "/acme/new-reg")) (Some "signed")] 1 initial).
Proof.
  intros W. split; [reflexivity |].
  destruct (signed_request_classification W (Demo.ca +:+ "/acme/new-reg") "signed"
              registration_codes "Error registering: {code} {result}" initial
              409%Z "already registered" []) as [-> _]; reflexivity.
Defined.

(** A code outside the table, here 403 for a registration, is an error
    carrying the code and the body; a reply without a code is one too. *)
Example unexpected_status_raises :
  let W := {| w_openssl := fun _ _ _ _ => (0%Z, "", "");
              w_urlopen := fun n _ _ =>
                if Nat.eqb n 0 then Raises (HTTPError 403 "Forbidden" "denied" [])
                else Raises (URLError "timed out");
              w_head := fun _ _ _ => inl None;
              w_open := fun _ _ => None;
              w_print := fun _ => "None" |} in
  fst (send_and_classify W "https://ca.test/acme/new-reg" "signed" registration_codes
         "Error registering: {code} {result}" initial)
    = Raise (ValueError (Fmt "Error registering: {code} {result}"
                           [ACode (Some 403%Z); ABytes "denied"]))
  ∧ fst (send_and_classify W "https://ca.test/acme/new-reg" "signed" registration_codes
           "Error registering: {code} {result}" (after [] 1 initial))
    = Raise (ValueError (Fmt "Error registering: {code} {result}"
                           [ACode None; AStr "timed out"])).
Proof. split; reflexivity. Qed.

(** ** Checking the published file (lines 110-131) *)

Lemma self_check_pass utf8_decode W path url ka st code body hdrs text :
  w_urlopen W (st_clock st) (_request url) None = Resp code body hdrs →
  utf8_decode body = Some text → strip text = ka →
  self_check utf8_decode W path url ka st
  = (Ret tt, after [EvUrlopen (_request url) None] 1 st).
Proof.
  intros Hr Hd Hs. unfold self_check, decode. unfold_m. rewrite urlopen_step, Hr, Hd, Hs.
  by rewrite String.eqb_refl.
Qed.

Lemma self_check_fail utf8_decode W path url ka st content :
  st_files st !! path = Some content →
  ((∃ e, w_urlopen W (st_clock st) (_request url) None = Raises e ∧ is_IOError e = true)
   ∨ ∃ code body hdrs text,
       w_urlopen W (st_clock st) (_request url) None = Resp code body hdrs
       ∧ utf8_decode body = Some text ∧ strip text ≠ ka) →
  self_check utf8_decode W path url ka st
  = (Raise (check_failed path url),
     {| st_heap := st_heap st; st_files := delete path (st_files st);
        st_trace := EvRemove path :: EvUrlopen (_request url) None :: st_trace st;
        st_clock := S (st_clock st) |}).
Proof.
  intros Hfile [(e & Hr & He) | (code & body & hdrs & text & Hr & Hd & Hs)];
    unfold self_check, decode, os_remove; unfold_m; rewrite urlopen_step, Hr.
  - rewrite He. cbn. by rewrite Hfile.
  - rewrite Hd. apply String.eqb_neq in Hs. rewrite Hs. cbn. by rewrite Hfile.
Qed.

Lemma self_check_passes_only utf8_decode W path url ka st :
  fst (self_check utf8_decode W path url ka st) = Ret tt →
  ∃ code body hdrs text,
    w_urlopen W (st_clock st) (_request url) None = Resp code body hdrs
    ∧ utf8_decode body = Some text ∧ strip text = ka.
Proof.
  unfold self_check, decode, os_remove. unfold_m. rewrite urlopen_step.
  destruct (w_urlopen W (st_clock st) (_request url) None) as [code body hdrs | e].
  - destruct (utf8_decode body) as [text|] eqn:Hd; [| by cbn].
    destruct (String.eqb (strip text) ka) eqn:Hs.
    + intros _. apply String.eqb_eq in Hs. by exists code, body, hdrs, text.
    + cbn. by destruct (_ !! path).
  - destruct (is_IOError e || _); cbn; [by destruct (_ !! path) | done].
Qed.

(** A body that does not decode is neither of the two failures above:
    the decoding error is not among the exceptions the check catches. *)
Remark self_check_undecodable utf8_decode W path url ka st code body hdrs :
  w_urlopen W (st_clock st) (_request url) None = Resp code body hdrs →
  utf8_decode body = None →
  self_check utf8_decode W path url ka st
  = (Raise UnicodeDecodeError, after [EvUrlopen (_request url) None] 1 st).
Proof.
  intros Hr Hd. unfold self_check, decode. unfold_m. by rewrite urlopen_step, Hr, Hd.
Qed.

(** Content with trailing whitespace passes the check; other content fails
    it and the file is gone. *)
Example self_check_trims :
  fst (self_check Demo.ascii_decode (serving ("abc.def " +:+ str1 nl)) "/srv/acme/abc"
         "http://example.com/.well-known/acme-challenge/abc" "abc.def"
         (published "/srv/acme/abc" "abc.def" initial)) = Ret tt
  ∧ self_check Demo.ascii_decode (serving "abc.deg") "/srv/acme/abc"
      "http://example.com/.well-known/acme-challenge/abc" "abc.def"
      (published "/srv/acme/abc" "abc.def" initial)
    = (Raise (check_failed "/srv/acme/abc"
                "http://example.com/.well-known/acme-challenge/abc"),
       withdrawn "/srv/acme/abc" "abc.def"
         "http://example.com/.well-known/acme-challenge/abc" initial).
Proof. split; vm_compute; reflexivity. Qed.

(** C4 (the script departs from it).  The check removes the file for the
    errors its handler names, [IOError] and [AssertionError], and for no
    other.  On the sample challenge, a body that is not UTF-8 text, and a
    read that breaks off with an exception of [http.client], both end the
    run with that very exception: the file published for the challenge is
    still in place, nothing has removed it, and the error is not the one
    naming the path and the URL; the claim has the file removed and that
    error raised on any read failure. *)
Theorem unread_check_keeps_file :
  let answer W :=
    answer_challenge Demo.ascii_decode Demo.parse W "account.key" "/srv/acme"
      "https://ca.test" 1 0 "def" "example.com" (JObj sample_challenge) initial in
  let undecodable := answer (serving (String (Codec.chr 255) "")) in
  let broken := answer broken_read in
  (fst undecodable = Raise UnicodeDecodeError
   ∧ st_files (snd undecodable) !! "/srv/acme/abc" = Some "abc.def"
   ∧ List.filter is_remove (st_trace (snd undecodable)) = [])
  ∧ (fst broken = Raise (HTTPException "IncompleteRead(0 bytes read)")
     ∧ st_files (snd broken) !! "/srv/acme/abc" = Some "abc.def"
     ∧ List.filter is_remove (st_trace (snd broken)) = []).
Proof. intros answer undecodable broken. split_and!; vm_compute; reflexivity. Qed.

(** ** Waiting for the authority (lines 134-149) *)

Section polling.
Context (utf8_decode : string → option string) (json_loads : string → option json)
        (W : world) (domain uri path : string).

Abbreviation resource' := (resource utf8_decode json_loads W uri).
Abbreviation stands' := (stands utf8_decode json_loads W uri).
Abbreviation rounds' := (rounds uri).
Abbreviation poll' := (poll utf8_decode json_loads W).

Lemma resource_fetch (st : state) (j : json) :
  resource' (st_clock st) = Some j →
  (try_except
     ('(_, body, _) ← urlopen W (_request uri) None;
      text ← decode utf8_decode body;
      loads json_loads text)
     is_IOError
     (fun e =>
        match e with
        | HTTPError code _ body _ =>
            text ← decode utf8_decode body;
            detail ← loads json_loads text;
            raise (ValueError (Fmt "Error checking challenge: {0} {1}"
                                 [ACode (Some code); AJson detail]))
        | _ => raise AttributeError
        end)) st
  = (Ret j, after [EvUrlopen (_request uri) None] 1 st).
Proof.
  unfold resource, decode, loads. intros H. unfold_m. rewrite urlopen_step.
  destruct (w_urlopen W (st_clock st) (_request uri) None) as [c body h|]; [| done].
  destruct (utf8_decode body) as [text|]; [| done]. cbn in H. by rewrite H.
Qed.

Lemma is_str_status (s : string) (j : json) :
  is_str s (getitem "status" j) = true →
  ∃ fields, j = JObj fields ∧ assoc "status" fields = Some (JStr s).
Proof.
  destruct j as [| | | |items|fields]; cbn; try done.
  destruct (assoc "status" fields) as [[| | |t| |]|] eqn:E; cbn; try done.
  intros ->%String.eqb_eq. by exists fields.
Qed.

Lemma poll_pending (fuel : nat) (st : state) :
  stands' "pending" (st_clock st) = true →
  poll' (S fuel) domain uri path st = poll' fuel domain uri path (after (pending_round uri) 1 st).
Proof.
  unfold stands. destruct (resource' (st_clock st)) as [j|] eqn:Hres; [| done].
  intros (fields & -> & Hs)%is_str_status.
  cbn [poll]. erewrite bind_returns; [| by apply resource_fetch].
  cbn [subscript]. rewrite Hs. unfold_m. cbn. done.
Qed.

Lemma poll_valid (fuel : nat) (st : state) (content : string) :
  stands' "valid" (st_clock st) = true →
  st_files st !! path = Some content →
  poll' (S fuel) domain uri path st
  = (Ret tt,
     {| st_heap := st_heap st; st_files := delete path (st_files st);
        st_trace := EvRemove path :: EvLog (domain +:+ " verified!")
                      :: EvUrlopen (_request uri) None :: st_trace st;
        st_clock := S (st_clock st) |}).
Proof.
  unfold stands. destruct (resource' (st_clock st)) as [j|] eqn:Hres; [| done].
  intros (fields & -> & Hs)%is_str_status Hfile.
  cbn [poll]. erewrite bind_returns; [| by apply resource_fetch].
  cbn [subscript]. rewrite Hs. unfold os_remove. unfold_m. cbn. by rewrite Hfile.
Qed.

(** Any other status ends the loop with an error holding the whole
    resource; nothing but the fetch has happened. *)
Lemma poll_other (fuel : nat) (st : state) (j status : json) :
  resource' (st_clock st) = Some j →
  getitem "status" j = Some status →
  status ≠ JStr "pending" → status ≠ JStr "valid" →
  poll' (S fuel) domain uri path st
  = (Raise (did_not_pass domain j), after [EvUrlopen (_request uri) None] 1 st).
Proof.
  intros Hres Hs Hp Hv.
  cbn [poll]. erewrite bind_returns; [| by apply resource_fetch].
  destruct j as [| | | |items|fields]; try done. cbn in Hs. cbn [subscript]. rewrite Hs.
  unfold_m. cbn.
  destruct status as [| | |t| |]; cbn; try done.
  destruct (String.eqb t "pending") eqn:E1; [apply String.eqb_eq in E1; by subst |].
  destruct (String.eqb t "valid") eqn:E2; [apply String.eqb_eq in E2; by subst |].
  done.
Qed.

Lemma rounds_succ (k : nat) : (rounds' k ++ (pending_round uri) = rounds' (S k))%list.
Proof.
  unfold rounds. induction k as [|k IH]; [done |].
  cbn [replicate concat] in *. by rewrite <- app_assoc, IH.
Qed.

Lemma poll_until_valid (k : nat) : ∀ (st : state) (fuel : nat) (content : string),
  (∀ i, i < k → stands' "pending" (st_clock st + i) = true) →
  stands' "valid" (st_clock st + k) = true →
  st_files st !! path = Some content →
  k < fuel →
  poll' fuel domain uri path st
  = (Ret tt,
     {| st_heap := st_heap st; st_files := delete path (st_files st);
        st_trace := EvRemove path :: EvLog (domain +:+ " verified!")
                      :: EvUrlopen (_request uri) None :: (rounds' k ++ st_trace st)%list;
        st_clock := S k + st_clock st |}).
Proof.
  induction k as [|k IH]; intros st [|fuel] content Hpending Hvalid Hfile Hfuel; try lia.
  - rewrite Nat.add_0_r in Hvalid. by erewrite poll_valid.
  - rewrite poll_pending by (rewrite <- (Nat.add_0_r (st_clock st)); apply Hpending; lia).
    erewrite (IH _ fuel content); [| | | done | lia]; cbn [after st_clock st_files st_heap st_trace].
    + f_equal. f_equal; [| lia]. do 3 f_equal. by rewrite app_assoc, rounds_succ.
    + intros i Hi. replace (1 + st_clock st + i) with (st_clock st + S i) by lia.
      apply Hpending. lia.
    + by replace (1 + st_clock st + k) with (st_clock st + S k) by lia.
Qed.

Lemma poll_hangs (fuel : nat) : ∀ st : state,
  (∀ i, i < fuel → stands' "pending" (st_clock st + i) = true) →
  poll' fuel domain uri path st = (Hang, after (rounds' fuel) fuel st).
Proof.
  induction fuel as [|fuel IH]; intros st Hpending.
  - cbn. by rewrite after_nothing.
  - rewrite poll_pending by (rewrite <- (Nat.add_0_r (st_clock st)); apply Hpending; lia).
    rewrite IH.
    + by rewrite after_after, rounds_succ, Nat.add_1_r.
    + intros i Hi. cbn [after st_clock].
      replace (1 + st_clock st + i) with (st_clock st + S i) by lia. apply Hpending. lia.
Qed.

Lemma poll_stops (fuel : nat) (st : state) :
  stands' "pending" (st_clock st) = false →
  stands' "valid" (st_clock st) = false →
  ∃ e, fst (poll' (S fuel) domain uri path st) = Raise e.
Proof.
  unfold stands, resource. intros Hp Hv. cbn [poll].
  unfold decode, loads, os_remove. unfold_m. rewrite urlopen_step.
  destruct (w_urlopen W (st_clock st) (_request uri) None) as [c body h | e].
  - destruct (utf8_decode body) as [text|]; [| by eexists]. cbn in Hp, Hv |- *.
    destruct (json_loads text) as [j|]; [| by eexists]. cbn in Hp, Hv |- *.
    destruct j as [| | | |items|fields]; cbn; try by eexists.
    cbn in Hp, Hv. destruct (assoc "status" fields) as [status|]; cbn; [| by eexists].
    cbn in Hp, Hv. destruct status as [| | |t| |]; cbn; try by eexists.
    cbn in Hp, Hv. rewrite Hp, Hv. by eexists.
  - destruct e; cbn; try by eexists.
    destruct (utf8_decode body) as [text|]; cbn; [| by eexists].
    destruct (json_loads text); cbn; by eexists.
Qed.

Lemma poll_returns_only (fuel : nat) : ∀ st : state,
  fst (poll' fuel domain uri path st) = Ret tt →
  ∃ k, k < fuel
       ∧ (∀ i, i < k → stands' "pending" (st_clock st + i) = true)
       ∧ stands' "valid" (st_clock st + k) = true.
Proof.
  induction fuel as [|fuel IH]; intros st Hret; [done |].
  destruct (stands' "pending" (st_clock st)) eqn:Hp.
  - rewrite poll_pending in Hret by done.
    destruct (IH _ Hret) as (k & Hk & Hpending & Hvalid). cbn [after st_clock] in *.
    exists (S k). split_and!; [lia | |].
    + intros [|i] Hi; [by rewrite Nat.add_0_r |].
      replace (st_clock st + S i) with (1 + st_clock st + i) by lia. apply Hpending. lia.
    + by replace (st_clock st + S k) with (1 + st_clock st + k) by lia.
  - destruct (stands' "valid" (st_clock st)) eqn:Hv.
    + exists 0. split_and!; [lia | intros i Hi; lia | by rewrite Nat.add_0_r].
    + destruct (poll_stops fuel st Hp Hv) as [e He]. congruence.
Qed.

End polling.

(** C5. While the challenge is pending the loop sleeps two seconds and asks
    again, as often as it takes: if the first [k] answers are pending and
    the next one is valid, the loop returns after [k] sleeps, having
    removed the file at that point, whatever [k] is.  It returns only in
    that way.  If every answer is pending, no number of rounds ends it. *)
Theorem polling_until_valid (utf8_decode : string → option string)
    (json_loads : string → option json) (W : world)
    (domain uri path content : string) (st : state) :
  st_files st !! path = Some content →
  let pending i := stands utf8_decode json_loads W uri "pending" (st_clock st + i) = true in
  let valid k := stands utf8_decode json_loads W uri "valid" (st_clock st + k) = true in
  let run fuel := poll utf8_decode json_loads W fuel domain uri path st in
  pending_round uri = [EvSleep 2; EvUrlopen (_request uri) None]
  ∧ (∀ k fuel, (∀ i, i < k → pending i) → valid k → k < fuel →
       run fuel
       = (Ret tt,
          {| st_heap := st_heap st; st_files := delete path (st_files st);
             st_trace := EvRemove path :: EvLog (domain +:+ " verified!")
                           :: EvUrlopen (_request uri) None
                           :: (rounds uri k ++ st_trace st)%list;
             st_clock := S k + st_clock st |}))
  ∧ (∀ fuel, fst (run fuel) = Ret tt →
       ∃ k, k < fuel ∧ (∀ i, i < k → pending i) ∧ valid k)
  ∧ ((∀ i, pending i) →
       ∀ fuel, run fuel = (Hang, after (rounds uri fuel) fuel st)).
Proof.
  intros Hfile pending valid run. split_and!; [done | ..].
  - intros k fuel Hp Hv Hk. by eapply poll_until_valid.
  - intros fuel Hret. by apply poll_returns_only in Hret.
  - intros Hp fuel. apply poll_hangs. intros i _. apply Hp.
Qed.

Lemma polling_until_valid_witness :
  let W := Demo.world_of Demo.csr_text pending_twice [] in
  let r := poll Demo.ascii_decode Demo.parse W 3 "example.com" Demo.challenge_uri
             "/srv/acme/abc" (published "/srv/acme/abc" "abc.def" initial) in
  fst r = Ret tt
  ∧ st_files (snd r) = ∅
  ∧ List.filter is_remove (st_trace (snd r)) = [EvRemove "/srv/acme/abc"]
  ∧ List.filter (fun ev => match ev with EvSleep _ => true | _ => false end)
      (st_trace (snd r)) = [EvSleep 2; EvSleep 2].
Proof.
  intros W r.
  destruct (polling_until_valid Demo.ascii_decode Demo.parse W "example.com"
              Demo.challenge_uri "/srv/acme/abc" "abc.def"
              (published "/srv/acme/abc" "abc.def" initial))
    as (_ & Hvalid & _ & _); [reflexivity |].
  unfold r. rewrite (Hvalid 2 3).
  - split_and!; reflexivity.
  - intros [|[|i]] Hi; [reflexivity | reflexivity | lia].
  - reflexivity.
  - lia.
Defined.

(** With the challenge pending for ever, every bound on the rounds is
    reached. *)
Example polling_never_ends (fuel : nat) :
  fst (poll Demo.ascii_decode Demo.parse
         (Demo.world_of Demo.csr_text (fun _ => "pending") []) fuel "example.com"
         Demo.challenge_uri "/srv/acme/abc" (published "/srv/acme/abc" "abc.def" initial))
  = Hang.
Proof. by rewrite poll_hangs. Qed.

(** ** A challenge that did not pass (lines 147-149) *)

(** C1 (the script departs from it). On the sample exchange with the
    challenge reported invalid, the run stops with the error that holds
    the whole challenge resource, as claimed; but the file published for
    the challenge is still there and no removal has taken place, whereas
    the claim has it removed once. *)
Theorem invalid_challenge_keeps_file :
  let r := Demo.run Demo.csr_text (fun _ => "invalid") [] false 5 in
  fst r = Raise (did_not_pass "www.example.com" (Demo.status_json "invalid"))
  ∧ st_files (snd r) !! "/var/www/challenges/tok_en_1" = Some Demo.keyauthorization
  ∧ List.filter is_remove (st_trace (snd r)) = [].
Proof. intros r. split_and!; vm_compute; reflexivity. Qed.

(** The same for every challenge and every status but pending and valid:
    the files are as they were before the round. *)
Lemma other_status_keeps_files (utf8_decode : string → option string)
    (json_loads : string → option json) (W : world) (fuel : nat)
    (domain uri path : string) (st : state) (j status : json) :
  resource utf8_decode json_loads W uri (st_clock st) = Some j →
  getitem "status" j = Some status →
  status ≠ JStr "pending" → status ≠ JStr "valid" →
  let r := poll utf8_decode json_loads W (S fuel) domain uri path st in
  fst r = Raise (did_not_pass domain j)
  ∧ st_files (snd r) = st_files st
  ∧ List.filter is_remove (st_trace (snd r)) = List.filter is_remove (st_trace st).
Proof.
  intros Hres Hs Hp Hv r. unfold r. by erewrite poll_other.
Qed.

(** ** A request without domains (lines 76-102) *)

(** For a request that names no domain the run does not fail: it asks for
    the certificate and returns what the authority sends. *)
Lemma empty_domains_not_refused :
  let r := Demo.run Demo.bare_csr_text (fun _ => "valid") [] false 0 in
  find_domains Demo.bare_csr_text = ∅
  ∧ fst r = Ret (pem ["leaf-der"])
  ∧ existsb (asks_for_certificate Demo.ca) (st_trace (snd r)) = true
  ∧ ¬ fails_before_issuing Demo.ca r.
Proof.
  intros r. split_and!; [by vm_compute .. |].
  intros [[e He] _]. vm_compute in He. discriminate.
Qed.

Lemma for_each_nothing {A} (body : A → M unit) (st : state) :
  for_each [] body st = (Ret tt, st).
Proof. done. Qed.

(** C2 (as the script has it). When the request names no domain, nothing
    is verified and no error is raised for it: once the account is
    registered the run goes on to ask for the certificate, and its outcome
    is that of the certificate request and the encoding of the chain. *)
Theorem empty_domains_go_to_issuance (sha256 : string → string)
    (utf8_decode : string → option string) (json_loads : string → option json)
    (W : world) (account_key csr acme_dir : string) (account_email : option string)
    (CA : string) (chain : bool) (fuel header : nat) (thumbprint : string)
    (registered : string * headers) (st0 st1 st2 st3 : state) :
  parse_account_key sha256 utf8_decode W account_key st0 = (Ret (header, thumbprint), st1) →
  parse_csr utf8_decode W csr st1 = (Ret ∅, st2) →
  register W account_key account_email CA header st2 = (Ret registered, st3) →
  for_each (elements (∅ : gset string))
    (verify_domain utf8_decode json_loads W account_key acme_dir CA fuel header thumbprint)
    st3 = (Ret tt, st3)
  ∧ get_crt sha256 utf8_decode json_loads W account_key csr acme_dir account_email
      CA chain fuel st0
    = issue W account_key csr CA chain header st3.
Proof.
  intros Hkey Hcsr Hreg. split; [by rewrite elements_empty |].
  unfold get_crt.
  erewrite bind_returns by exact Hkey. cbn beta iota.
  erewrite bind_returns by exact Hcsr.
  erewrite bind_returns by exact Hreg.
  rewrite elements_empty. by erewrite bind_returns.
Qed.

Lemma empty_domains_go_to_issuance_witness :
  let W := Demo.world_of Demo.bare_csr_text (fun _ => "valid") [] in
  let key := parse_account_key Demo.digest Demo.ascii_decode W "account.key" initial in
  let names := parse_csr Demo.ascii_decode W "domain.csr" (snd key) in
  let reg := register W "account.key" None Demo.ca sample_header (snd names) in
  fst names = Ret ∅
  ∧ Demo.run Demo.bare_csr_text (fun _ => "valid") [] false 0
    = issue W "account.key" "domain.csr" Demo.ca false sample_header (snd reg).
Proof.
  intros W key names reg. split; [by vm_compute |].
  refine (proj2 (empty_domains_go_to_issuance Demo.digest Demo.ascii_decode Demo.parse W
                   "account.key" "domain.csr" "/var/www/challenges/" None Demo.ca false
                   0 sample_header Demo.thumbprint ("already registered", [])
                   initial (snd key) (snd names) (snd reg) _ _ _));
    vm_compute; reflexivity.
Defined.

(** ** The envelope of a signed request (lines 51-58) *)

Lemma snapshot_ref (fuel : nat) (h : gmap nat dict) (l : nat) :
  snapshot (S fuel) h (Ref l)
  = d ← h !! l; fields ← mapM (snapshot_field fuel h) d; Some (JObj fields).
Proof. done. Qed.

Lemma snapshot_field_via (fuel : nat) (h h' : gmap nat dict) :
  (∀ v j, snapshot fuel h v = Some j → snapshot fuel h' v = Some j) →
  ∀ kv r, snapshot_field fuel h kv = Some r → snapshot_field fuel h' kv = Some r.
Proof.
  intros Hv [k v] r. unfold snapshot_field. cbn.
  destruct (snapshot fuel h v) as [jv|] eqn:E; [| done].
  by rewrite (Hv v jv E).
Qed.

Lemma mapM_snapshot_via (fuel : nat) (h h' : gmap nat dict) :
  (∀ v j, snapshot fuel h v = Some j → snapshot fuel h' v = Some j) →
  ∀ (d : dict) fields,
    mapM (snapshot_field fuel h) d = Some fields →
    mapM (snapshot_field fuel h') d = Some fields.
Proof.
  intros Hv. induction d as [|kv d IHd]; intros fields; cbn [mapM]; [done |].
  destruct (snapshot_field fuel h kv) as [r|] eqn:E; [| done].
  rewrite (snapshot_field_via fuel h h' Hv kv r E). cbn.
  destruct (mapM (snapshot_field fuel h) d) as [rest|]; [| done].
  by rewrite (IHd rest).
Qed.

Lemma snapshot_mono (fuel : nat) : ∀ (h h' : gmap nat dict) (v : pyval) (j : json),
  h ⊆ h' → snapshot fuel h v = Some j → snapshot fuel h' v = Some j.
Proof.
  induction fuel as [|fuel IH]; intros h h' [j'|l] j Hsub; try done.
  rewrite (snapshot_ref fuel h), (snapshot_ref fuel h').
  destruct (h !! l) as [d|] eqn:Hl; [| done].
  assert (h' !! l = Some d) as -> by (by eapply lookup_weaken). cbn.
  destruct (mapM (snapshot_field fuel h) d) as [fields|] eqn:Hm; [| done].
  intros [= <-].
  by rewrite (mapM_snapshot_via fuel h h' (fun v j => IH h h' v j Hsub) d fields Hm).
Qed.

Lemma mapM_snapshot_mono (fuel : nat) (h h' : gmap nat dict) (d : dict) fields :
  h ⊆ h' → mapM (snapshot_field fuel h) d = Some fields →
  mapM (snapshot_field fuel h') d = Some fields.
Proof.
  intros Hsub. apply mapM_snapshot_via. intros v j. by apply snapshot_mono.
Qed.

Lemma alloc_fresh (d : dict) (st : state) :
  ∃ l, alloc d st = (Ret l, {| st_heap := <[l := d]> (st_heap st); st_files := st_files st;
                               st_trace := st_trace st; st_clock := st_clock st |})
       ∧ st_heap st !! l = None.
Proof.
  eexists. split; [reflexivity |].
  apply not_elem_of_dom, is_fresh.
Qed.

Lemma deepcopy_succ (fuel l : nat) :
  deepcopy (S fuel) l
  = (d ← read l; d' ← deepcopy_fields (copy_value fuel) d; alloc d').
Proof. done. Qed.

Lemma snapshot_ref_obj (fuel : nat) (h : gmap nat dict) (l : nat) (j : json) :
  snapshot fuel h (Ref l) = Some j →
  ∃ fuel' d fields, fuel = S fuel' ∧ j = JObj fields ∧ h !! l = Some d
                    ∧ mapM (snapshot_field fuel' h) d = Some fields.
Proof.
  destruct fuel as [|fuel]; [done |]. rewrite snapshot_ref.
  destruct (h !! l) as [d|]; [| done]. cbn.
  destruct (mapM (snapshot_field fuel h) d) as [fields|] eqn:E; [| done].
  intros [= <-]. by exists fuel, d, fields.
Qed.

Lemma with_heap_same (st : state) : with_heap (st_heap st) st = st.
Proof. by destruct st. Qed.

Lemma mapM_snapshot_cons (fuel : nat) (h : gmap nat dict) kv r (d : dict) rest :
  snapshot_field fuel h kv = Some r →
  mapM (snapshot_field fuel h) d = Some rest →
  mapM (snapshot_field fuel h) (kv :: d) = Some (r :: rest).
Proof. intros Hr Hd. cbn [mapM]. by rewrite Hr, Hd. Qed.

Lemma snapshot_lit (fuel : nat) (h : gmap nat dict) (j : json) :
  snapshot fuel h (Lit j) = Some j.
Proof. by destruct fuel. Qed.

Lemma deepcopy_fields_copies (fuel : nat) : copies fuel →
  ∀ (d : dict) (st : state) (fields : list (string * json)),
    mapM (snapshot_field fuel (st_heap st)) d = Some fields →
    ∃ h d',
      deepcopy_fields (copy_value fuel) d st = (Ret d', with_heap h st)
      ∧ st_heap st ⊆ h
      ∧ mapM (snapshot_field fuel h) d' = Some fields.
Proof.
  intros IH. induction d as [|[k v] d IHd]; intros st fields Hsnap.
  - injection Hsnap as <-. exists (st_heap st), []. by rewrite with_heap_same.
  - cbn [mapM] in Hsnap.
    destruct (snapshot_field fuel (st_heap st) (k, v)) as [[k' jv]|] eqn:Hv; [| done].
    cbn in Hsnap.
    destruct (mapM (snapshot_field fuel (st_heap st)) d) as [rest|] eqn:Hrest; [| done].
    injection Hsnap as <-.
    unfold snapshot_field in Hv. cbn in Hv.
    destruct (snapshot fuel (st_heap st) v) as [jv'|] eqn:Hjv; [| done].
    injection Hv as <- <-.
    destruct v as [j|l].
    + rewrite snapshot_lit in Hjv. injection Hjv as <-.
      destruct (IHd st rest Hrest) as (h & d' & Hcopy & Hsub & Hd').
      exists h, ((k, Lit j) :: d'). split_and!; [| done |].
      * cbn [deepcopy_fields copy_value]. unfold_m. by rewrite Hcopy.
      * apply mapM_snapshot_cons; [| done].
        unfold snapshot_field. cbn. by rewrite snapshot_lit.
    + destruct (snapshot_ref_obj _ _ _ _ Hjv) as (fuel' & d0 & f0 & -> & -> & Hl & Hf0).
      destruct (IH l st f0 Hjv) as (l' & h0 & d0' & Hcopy & Hfresh & Hsub0 & Hd0').
      assert (h0 ⊆ <[l' := d0']> h0) as Hins by by apply insert_subseteq.
      destruct (IHd (with_heap (<[l' := d0']> h0) st) rest) as (h & d' & Hrest' & Hsub & Hd').
      { cbn. eapply mapM_snapshot_mono; [| exact Hrest]. by etrans. }
      cbn in Hsub, Hrest'.
      exists h, ((k, Ref l') :: d'). split_and!.
      * cbn [deepcopy_fields copy_value]. unfold_m. rewrite Hcopy. by rewrite Hrest'.
      * by etrans; [etrans |].
      * apply mapM_snapshot_cons; [| done].
        unfold snapshot_field. cbn [snd fst].
        rewrite (snapshot_mono (S fuel') (<[l' := d0']> h0) h (Ref l') (JObj f0)); [done | done |].
        rewrite snapshot_ref, lookup_insert_eq. cbn.
        by rewrite (mapM_snapshot_mono fuel' h0 _ d0' f0 Hins Hd0').
Qed.

Lemma deepcopy_copies (fuel : nat) : copies fuel.
Proof.
  induction fuel as [|fuel IH]; intros l st fields Hsnap; [done |].
  destruct (snapshot_ref_obj _ _ _ _ Hsnap) as (fuel' & d & f & [= <-] & [= <-] & Hl & Hf).
  destruct (deepcopy_fields_copies fuel IH d st fields Hf) as (h & d' & Hcopy & Hsub & Hd').
  destruct (alloc_fresh d' (with_heap h st)) as (l' & Halloc & Hfresh).
  exists l', h, d'. split_and!; try done.
  rewrite deepcopy_succ. unfold read. unfold_m. rewrite Hl, Hcopy. by rewrite Halloc.
Qed.

Lemma mapM_snapshot_setitem (fuel : nat) (h : gmap nat dict) (key : string) (j : json) :
  ∀ (d : dict) fields,
    mapM (snapshot_field fuel h) d = Some fields →
    mapM (snapshot_field fuel h) (setitem key (Lit j) d) = Some (setitem key j fields).
Proof.
  induction d as [|[k v] d IHd]; intros fields Hd.
  - injection Hd as <-. cbn [setitem]. apply mapM_snapshot_cons; [| done].
    unfold snapshot_field. cbn. by rewrite snapshot_lit.
  - cbn [mapM] in Hd.
    destruct (snapshot_field fuel h (k, v)) as [[k' jv]|] eqn:Hv; [| done]. cbn in Hd.
    destruct (mapM (snapshot_field fuel h) d) as [rest|] eqn:Hrest; [| done].
    injection Hd as <-.
    assert (k' = k) as ->.
    { unfold snapshot_field in Hv. cbn in Hv. destruct (snapshot fuel h v); [| done].
      by injection Hv as <- _. }
    cbn [setitem]. destruct (String.eqb k key).
    + apply mapM_snapshot_cons; [| done]. unfold snapshot_field. cbn. by rewrite snapshot_lit.
    + apply mapM_snapshot_cons; [done |]. by apply IHd.
Qed.

Section build.
Context (W : world) (account_key CA : string) (header : nat) (payload : json)
        (st : state) (hj : list (string * json)).
Hypothesis header_object : snapshot depth (st_heap st) (Ref header) = Some (JObj hj).

(** Every way a build can go.  The copy of the header is the new object
    [l']; the older objects are those of [h]. *)
Lemma build_envelope_cases :
  ∃ l' h d',
    h !! l' = None ∧ st_heap st ⊆ h
    ∧ build_envelope W account_key CA header payload st
      = match w_urlopen W (st_clock st) (directory CA) None with
        | Raises e =>
            (Raise e, after [EvUrlopen (directory CA) None] 1 (with_heap (<[l' := d']> h) st))
        | Resp _ _ info =>
            let nonce := nonce_value info in
            let input := signing_input hj payload nonce in
            let st' := after [sign_event account_key input; EvUrlopen (directory CA) None] 2
                         (with_heap (<[l' := setitem "nonce" (Lit nonce) d']> h) st) in
            let '(returncode, out, err) :=
              w_openssl W (S (st_clock st)) "dgst" ["-sha256"; "-sign"; account_key]
                (Some input) in
            if (returncode =? 0)%Z
            then (Ret (envelope_of header hj payload nonce out), st')
            else (Raise (OSError (Fmt "OpenSSL Error: {0}" [ABytes err])), st')
        end.
Proof.
  destruct (deepcopy_copies depth header st hj header_object)
    as (l' & h & d' & Hcopy & Hfresh & Hsub & Hd').
  exists l', h, d'. split_and!; [done | done |].
  unfold build_envelope. erewrite bind_returns by exact Hcopy.
  fold (directory CA).
  destruct (w_urlopen W (st_clock st) (directory CA) None) as [code body info | e] eqn:Hreply.
  - erewrite bind_returns; [| rewrite urlopen_step; cbn [with_heap st_clock]; by rewrite Hreply].
    cbn beta iota. fold (nonce_value info).
    unfold store, dumps_value, _openssl. unfold_m.
    cbn [after with_heap st_heap st_files st_trace st_clock].
    rewrite (lookup_insert_eq h l' d'), (insert_insert_eq h l').
    change depth with (S (pred depth)). rewrite snapshot_ref. cbn [st_heap].
    rewrite (lookup_insert_eq h l').
    cbn [mbind option_bind].
    erewrite mapM_snapshot_setitem;
      [| eapply mapM_snapshot_mono; [| exact Hd']; by apply insert_subseteq].
    cbn [mbind option_bind app Nat.add].
    fold (dumps (JObj (setitem "nonce" (nonce_value info) hj))).
    fold (protected_text hj (nonce_value info)).
    fold (signing_input hj payload (nonce_value info)).
    cbn [st_heap st_files st_trace st_clock].
    destruct (w_openssl W (S (st_clock st)) "dgst" ["-sha256"; "-sign"; account_key]
                (Some (signing_input hj payload (nonce_value info))))
      as [[returncode out] err].
    by destruct (returncode =? 0)%Z.
  - erewrite bind_raises; [reflexivity |].
    rewrite urlopen_step. cbn [with_heap st_clock]. by rewrite Hreply.
Qed.

End build.

(** C6. A build copies the session header and puts the nonce into the
    copy: every object of the store, the header and its key among them, is
    afterwards what it was before.  The nonce is the one carried by the
    answer to the build's own directory request, made just before the
    signing.  The envelope holds the header by reference, the payload, the
    protected text, which is determined by the header and that nonce, and
    the signature over the two texts: for one payload, the protected text
    and the signature are the only fields that differ between two builds,
    and the protected text differs only with the nonce. *)
Theorem envelope_nonce_only (W : world) (account_key CA : string) (header : nat)
    (payload : json) (st : state) (hj : list (string * json)) :
  snapshot depth (st_heap st) (Ref header) = Some (JObj hj) →
  let r := build_envelope W account_key CA header payload st in
  (st_heap st ⊆ st_heap (snd r)
   ∧ snapshot depth (st_heap (snd r)) (Ref header) = Some (JObj hj))
  ∧ (∀ code body info signature err,
       w_urlopen W (st_clock st) (directory CA) None = Resp code body info →
       let nonce := nonce_value info in
       let input := signing_input hj payload nonce in
       w_openssl W (S (st_clock st)) "dgst" ["-sha256"; "-sign"; account_key] (Some input)
         = (0%Z, signature, err) →
       fst r = Ret (envelope_of header hj payload nonce signature)
       ∧ st_trace (snd r)
         = sign_event account_key input :: EvUrlopen (directory CA) None :: st_trace st
       ∧ st_clock (snd r) = 2 + st_clock st
       ∧ dumps_dict (envelope_of header hj payload nonce signature) (snd r)
         = (Ret (dumps (JObj [ ("header", JObj hj);
                               ("protected", JStr (protected_text hj nonce));
                               ("payload", JStr (_b64 (dumps payload)));
                               ("signature", JStr (_b64 signature)) ])),
            snd r))
  ∧ (∀ nonce signature nonce' signature',
       let e := envelope_of header hj payload nonce signature in
       let e' := envelope_of header hj payload nonce' signature' in
       List.map fst e = ["header"; "protected"; "payload"; "signature"]
       ∧ List.map fst e' = List.map fst e
       ∧ assoc "header" e = Some (Ref header) ∧ assoc "header" e' = assoc "header" e
       ∧ assoc "payload" e' = assoc "payload" e
       ∧ (nonce' = nonce → assoc "protected" e' = assoc "protected" e)).
Proof.
  intros Hheader r.
  destruct (build_envelope_cases W account_key CA header payload st hj Hheader)
    as (l' & h & d' & Hfresh & Hsub & Hbuild).
  fold r in Hbuild.
  assert (∀ d, st_heap st ⊆ <[l' := d]> h) as Hkept.
  { intros d. etrans; [exact Hsub |]. by apply insert_subseteq. }
  assert (st_heap st ⊆ st_heap (snd r)) as Hstore.
  { rewrite Hbuild. destruct (w_urlopen W (st_clock st) (directory CA) None); [| apply Hkept].
    cbn zeta. destruct (w_openssl _ _ _ _ _) as [[rc out] err].
    destruct (rc =? 0)%Z; apply Hkept. }
  assert (snapshot depth (st_heap (snd r)) (Ref header) = Some (JObj hj)) as Hsame
    by by eapply snapshot_mono.
  split_and!; [done | done | |].
  - intros code body info signature err Hreply nonce input Hsigned.
    rewrite Hreply in Hbuild. cbv zeta in Hbuild. fold nonce input in Hbuild.
    rewrite Hsigned in Hbuild. cbv beta iota in Hbuild.
    change (0 =? 0)%Z with true in Hbuild. cbv iota in Hbuild.
    split_and!; try by rewrite Hbuild.
    unfold dumps_dict, envelope_of. cbn [mapM snd fst].
    rewrite Hsame. by rewrite !snapshot_lit.
  - intros nonce signature nonce' signature' e e'. split_and!; try done.
    by intros ->.
Qed.

Lemma envelope_nonce_only_witness :
  let W := sample_world plain_headers in
  let st := snd (sample_session plain_headers) in
  let payload := JObj [("resource", JStr "new-reg")] in
  let r := build_envelope W "account.key" Demo.ca sample_header payload st in
  snapshot depth (st_heap st) (Ref sample_header) = Some (JObj sample_header_json)
  ∧ fst r = Ret (envelope_of sample_header sample_header_json payload
                   (JStr (Demo.nonce 1)) "signature-bytes")
  ∧ snapshot depth (st_heap (snd r)) (Ref sample_header) = Some (JObj sample_header_json).
Proof.
  intros W st payload r.
  assert (snapshot depth (st_heap st) (Ref sample_header) = Some (JObj sample_header_json))
    as Hheader by (vm_compute; reflexivity).
  destruct (envelope_nonce_only W "account.key" Demo.ca sample_header payload st
              sample_header_json Hheader) as ((_ & Hsame) & Hbuild & _).
  split_and!; [done | | done].
  exact (proj1 (Hbuild 200%Z "" [("Replay-Nonce", Demo.nonce 1)] "signature-bytes" ""
                  eq_refl eq_refl)).
Defined.

(** Two builds in a row for the same payload: the nonces differ, and with
    them the protected texts; header and payload fields are the same. *)
Example two_builds_differ_in_nonce :
  let W := sample_world plain_headers in
  let st := snd (sample_session plain_headers) in
  let payload := JObj [("resource", JStr "new-reg")] in
  let first := build_envelope W "account.key" Demo.ca sample_header payload st in
  let second := build_envelope W "account.key" Demo.ca sample_header payload (snd first) in
  fst first = Ret (envelope_of sample_header sample_header_json payload
                     (JStr "nonce-1") "signature-bytes")
  ∧ fst second = Ret (envelope_of sample_header sample_header_json payload
                        (JStr "nonce-3") "signature-bytes")
  ∧ st_heap (snd second) !! sample_header = st_heap st !! sample_header.
Proof. vm_compute. split_and!; reflexivity. Qed.

(** ** The sample exchange as a whole *)

(** With the challenge pending twice for each of the two domains and two
    [up] links on the certificate, the run returns the three framed
    certificates; each domain has slept twice, the challenge file has been
    written and removed once per domain, and none is left. *)
Example sample_run :
  let polls n := if Nat.eqb n 13 || Nat.eqb n 14 || Nat.eqb n 23 || Nat.eqb n 24
                 then "pending" else "valid" in
  let r := Demo.run Demo.csr_text polls two_up_links true 3 in
  fst r = Ret (pem ["leaf-der"; "issuer-der"; "root-der"])
  ∧ st_files (snd r) = ∅
  ∧ List.filter is_remove (st_trace (snd r))
    = [EvRemove "/var/www/challenges/tok_en_1"; EvRemove "/var/www/challenges/tok_en_1"]
  ∧ length (List.filter (fun ev => match ev with EvSleep _ => true | _ => false end)
              (st_trace (snd r))) = 4
  ∧ length (List.filter (fun ev => match ev with EvWrite _ _ => true | _ => false end)
              (st_trace (snd r))) = 2.
Proof. intros polls r. split_and!; vm_compute; reflexivity. Qed.

(** ** Texts *)

Lemma append_assoc (a b c : string) : (a +:+ b) +:+ c = a +:+ b +:+ c.
Proof.
  induction a as [|x a IH]; [done |].
  change (String x ((a +:+ b) +:+ c) = String x (a +:+ b +:+ c)). by rewrite IH.
Qed.

Lemma append_cons (x : ascii) (a b : string) : String x a +:+ b = String x (a +:+ b).
Proof. done. Qed.

Lemma str_forall_app p (a b : string) :
  str_forall p (a +:+ b) = str_forall p a && str_forall p b.
Proof.
  induction a as [|x a IH]; [done |].
  rewrite append_cons. cbn [str_forall]. by rewrite IH, andb_assoc.
Qed.

Lemma length_append (a b : string) :
  String.length (a +:+ b) = String.length a + String.length b.
Proof.
  induction a as [|x a IH]; [done |]. rewrite append_cons. cbn. by rewrite IH.
Qed.

(** ** The matcher and the matches *)

(** Whatever the matcher answers, it has found a match and handed its end
    to the continuation. *)
Lemma run_sound {R : Type} (r : regex) :
  ∀ (pos : nat) (s : string) (c : caps) (k : nat → string → caps → option R) (res : R),
    run r pos s c k = Some res →
    ∃ pos' s' c', matches r pos s c pos' s' c' ∧ k pos' s' c' = Some res.
Proof.
  induction r as [| p | | a IHa b IHb | a IHa b IHb | greedy a IHa | i a IHa];
    intros pos s c k res Hrun; cbn [run] in Hrun.
  - exists pos, s, c. split; [constructor | done].
  - destruct s as [|x s]; [done |]. destruct (p x) eqn:Hp; [| done].
    exists (S pos), s, c. split; [by constructor | done].
  - destruct (Nat.eqb pos 0) eqn:E; [| done]. apply Nat.eqb_eq in E as ->.
    exists 0, s, c. split; [constructor | done].
  - apply IHa in Hrun as (pos1 & s1 & c1 & Ha & Hrun).
    apply IHb in Hrun as (pos2 & s2 & c2 & Hb & Hk).
    exists pos2, s2, c2. split; [by econstructor | done].
  - destruct (run a pos s c k) as [m|] eqn:Ea.
    + injection Hrun as ->. apply IHa in Ea as (pos' & s' & c' & Ha & Hk).
      exists pos', s', c'. split; [by apply matches_alt_l | done].
    + apply IHb in Hrun as (pos' & s' & c' & Hb & Hk).
      exists pos', s', c'. split; [by apply matches_alt_r | done].
  - generalize dependent (String.length s). intros fuel. revert pos s c res.
    induction fuel as [|fuel IHf]; intros pos s c res Hrun.
    + exists pos, s, c. split; [constructor | done].
    + assert (∀ res', run a pos s c (fun pos' s' c' =>
                 if Nat.ltb pos pos'
                 then (fix loop (fuel : nat) (pos : nat) (s : string) (c : caps) : option R :=
                         match fuel with
                         | O => k pos s c
                         | S fuel' =>
                             let more :=
                               run a pos s c (fun pos' s' c' =>
                                 if Nat.ltb pos pos' then loop fuel' pos' s' c' else None) in
                             if greedy
                             then match more with Some m => Some m | None => k pos s c end
                             else match k pos s c with Some m => Some m | None => more end
                         end) fuel pos' s' c'
                 else None) = Some res' →
               ∃ pos' s' c', matches (Star greedy a) pos s c pos' s' c'
                             ∧ k pos' s' c' = Some res') as Hmore.
      { intros res' Hm. apply IHa in Hm as (pos1 & s1 & c1 & Ha & Hm).
        destruct (Nat.ltb pos pos1) eqn:Hlt; [| done]. apply Nat.ltb_lt in Hlt.
        apply IHf in Hm as (pos2 & s2 & c2 & Hs & Hk).
        exists pos2, s2, c2. split; [by eapply matches_star_more | done]. }
      cbn zeta in Hrun. destruct greedy.
      * match type of Hrun with match ?m with _ => _ end = _ => destruct m as [r|] eqn:E end.
        -- injection Hrun as ->. by apply Hmore.
        -- exists pos, s, c. split; [constructor | done].
      * destruct (k pos s c) as [r|] eqn:E.
        -- injection Hrun as ->. exists pos, s, c. split; [constructor | done].
        -- by apply Hmore.
  - apply IHa in Hrun as (pos' & s' & c' & Ha & Hk).
    eexists pos', s', _. split; [by constructor | done].
Qed.

Lemma str_drop_drop (n m : nat) (s : string) :
  str_drop m (str_drop n s) = str_drop (n + m) s.
Proof.
  revert s. induction n as [|n IH]; intros s; [done |].
  destruct s as [|x s]; [by destruct m | apply IH].
Qed.

Lemma str_take_0 (s : string) : str_take 0 s = "".
Proof. by destruct s. Qed.

(** A match moves forward, and the rest it leaves is what remains of the
    rest it started from. *)
Lemma matches_extent r pos s c pos' s' c' :
  matches r pos s c pos' s' c' →
  (pos ≤ pos')%nat ∧ s' = str_drop (pos' - pos) s.
Proof.
  induction 1 as [pos s c | p x pos s c Hp | s c
                 | a b pos s c pos1 s1 c1 pos2 s2 c2 _ [Hle1 Hs1] _ [Hle2 Hs2]
                 | a b pos s c pos' s' c' _ IH | a b pos s c pos' s' c' _ IH
                 | greedy a pos s c
                 | greedy a pos s c pos1 s1 c1 pos2 s2 c2 _ [Hle1 Hs1] Hlt _ [Hle2 Hs2]
                 | i a pos s c pos' s' c' _ IH]; try done.
  - by rewrite Nat.sub_diag.
  - split; [lia |]. by replace (S pos - pos) with 1 by lia.
  - split; [lia |]. rewrite Hs2, Hs1, str_drop_drop. f_equal. lia.
  - by rewrite Nat.sub_diag.
  - split; [lia |]. rewrite Hs2, Hs1, str_drop_drop. f_equal. lia.
Qed.

(** A pattern without groups leaves the groups as they are. *)
Lemma matches_groupless r pos s c pos' s' c' :
  matches r pos s c pos' s' c' → groupless r = true → c' = c.
Proof.
  induction 1; cbn [groupless]; intros Hg; try done.
  - apply andb_true_iff in Hg as [Ha Hb]. rewrite IHmatches2, IHmatches1; done.
  - apply andb_true_iff in Hg as [Ha Hb]. by apply IHmatches.
  - apply andb_true_iff in Hg as [Ha Hb]. by apply IHmatches.
  - rewrite IHmatches2, IHmatches1; done.
Qed.

Lemma matches_chr_inv p pos s c pos' s' c' :
  matches (Chr p) pos s c pos' s' c' →
  ∃ x, s = String x s' ∧ p x = true ∧ pos' = S pos ∧ c' = c.
Proof. inversion 1; subst. by eexists. Qed.

Lemma matches_bol_inv pos s c pos' s' c' :
  matches Bol pos s c pos' s' c' → pos = 0 ∧ pos' = 0 ∧ s' = s ∧ c' = c.
Proof. by inversion 1. Qed.

Lemma matches_seq_inv a b pos s c pos' s' c' :
  matches (Seq a b) pos s c pos' s' c' →
  ∃ pos1 s1 c1, matches a pos s c pos1 s1 c1 ∧ matches b pos1 s1 c1 pos' s' c'.
Proof. inversion 1; subst. by eexists _, _, _. Qed.

Lemma matches_grp_inv i a pos s c pos' s' c' :
  matches (Grp i a) pos s c pos' s' c' →
  ∃ c1, matches a pos s c pos' s' c1 ∧ c' = (i, str_take (pos' - pos) s) :: c1.
Proof. inversion 1; subst. by eexists. Qed.

(** The characters taken by a repeated class all belong to the class. *)
Lemma matches_star_class greedy p pos s c pos' s' c' :
  matches (Star greedy (Chr p)) pos s c pos' s' c' →
  c' = c ∧ str_forall p (str_take (pos' - pos) s) = true.
Proof.
  intros H. remember (Star greedy (Chr p)) as r eqn:Hr.
  induction H as [| | | | | | g a pos s c
                 | g a pos s c pos1 s1 c1 pos2 s2 c2 Ha _ Hlt Hs IH |]; try done.
  - by rewrite Nat.sub_diag, str_take_0.
  - injection Hr as -> ->. destruct (IH eq_refl) as [-> Hall].
    apply matches_chr_inv in Ha as (x & -> & Hp & -> & ->). split; [done |].
    apply matches_extent in Hs as [Hle _].
    replace (pos2 - pos) with (S (pos2 - S pos)) by lia.
    cbn [str_take str_forall]. by rewrite Hp, Hall.
Qed.

Lemma matches_plus_class greedy p pos s c pos' s' c' :
  matches (plus greedy (Chr p)) pos s c pos' s' c' →
  c' = c ∧ str_take (pos' - pos) s ≠ ""
  ∧ str_forall p (str_take (pos' - pos) s) = true.
Proof.
  unfold plus. intros (pos1 & s1 & c1 & Ha & Hs)%matches_seq_inv.
  apply matches_chr_inv in Ha as (x & -> & Hp & -> & ->).
  pose proof (matches_extent _ _ _ _ _ _ _ Hs) as [Hle _].
  apply matches_star_class in Hs as [-> Hall].
  replace (pos' - pos) with (S (pos' - S pos)) by lia.
  cbn [str_take str_forall]. by rewrite Hp, Hall.
Qed.

(** [re.search] answers with a match of the pattern, found in the text
    from the start it reports. *)
Lemma search_from_sound r : ∀ s pos m,
  search_from r pos s = Some m →
  ∃ skipped s', (pos ≤ m_start m)%nat ∧ skipped = m_start m - pos
    ∧ matches r (m_start m) (str_drop skipped s) [] (m_end m) s' (m_caps m).
Proof.
  induction s as [|x s IH]; intros pos m Hs; cbn [search_from] in Hs.
  - unfold match_at in Hs. destruct (run r pos "" [] _) as [m'|] eqn:E; [| done].
    injection Hs as ->. apply run_sound in E as (pos' & s' & c' & Hm & [= <-]).
    exists 0, s'. cbn. by rewrite Nat.sub_diag.
  - unfold match_at in Hs. destruct (run r pos (String x s) [] _) as [m'|] eqn:E.
    + injection Hs as ->. apply run_sound in E as (pos' & s' & c' & Hm & [= <-]).
      exists 0, s'. cbn. by rewrite Nat.sub_diag.
    + apply IH in Hs as (skipped & s' & Hle & -> & Hm).
      exists (m_start m - pos), s'. split_and!; [lia | done |].
      replace (m_start m - pos) with (S (m_start m - S pos)) by lia. exact Hm.
Qed.

Lemma search_sound r s m :
  search r s = Some m →
  ∃ s', matches r (m_start m) (str_drop (m_start m) s) [] (m_end m) s' (m_caps m).
Proof.
  intros H. apply search_from_sound in H as (skipped & s' & _ & -> & Hm).
  rewrite Nat.sub_0_r in Hm. by exists s'.
Qed.

Lemma matches_lit t : ∀ pos s c pos' s' c',
  matches (lit t) pos s c pos' s' c' → s = t +:+ s' ∧ c' = c.
Proof.
  induction t as [|x t IH]; intros pos s c pos' s' c' H; cbn [lit] in H.
  - inversion H; by subst.
  - apply matches_seq_inv in H as (pos1 & s1 & c1 & Hx & Ht).
    apply matches_chr_inv in Hx as (y & -> & Hy & -> & ->).
    apply IH in Ht as [-> ->]. apply Ascii.eqb_eq in Hy as ->. done.
Qed.

Lemma matches_take r pos s c pos' s' c' :
  matches r pos s c pos' s' c' → s = str_take (pos' - pos) s +:+ s'.
Proof.
  intros [_ ->]%matches_extent. by rewrite str_take_drop.
Qed.

(** The text taken by a repeated class, set apart from the rest. *)
Lemma matches_star_text greedy p pos s c pos' s' c' :
  matches (Star greedy (Chr p)) pos s c pos' s' c' →
  ∃ t, t = str_take (pos' - pos) s ∧ s = t +:+ s' ∧ c' = c ∧ str_forall p t = true.
Proof.
  intros H. exists (str_take (pos' - pos) s).
  pose proof (matches_take _ _ _ _ _ _ _ H) as Ht.
  apply matches_star_class in H as [-> Hall]. done.
Qed.

Lemma matches_plus_text greedy p pos s c pos' s' c' :
  matches (plus greedy (Chr p)) pos s c pos' s' c' →
  ∃ t, t = str_take (pos' - pos) s ∧ s = t +:+ s' ∧ c' = c ∧ t ≠ ""
       ∧ str_forall p t = true.
Proof.
  intros H. exists (str_take (pos' - pos) s).
  pose proof (matches_take _ _ _ _ _ _ _ H) as Ht.
  apply matches_plus_class in H as (-> & Hne & Hall). done.
Qed.

(** Steps over the first part of a sequence when it has no group. *)
Ltac step_over H :=
  let pos := fresh "pos" in let s := fresh "s" in let c := fresh "c" in
  let Ha := fresh "Ha" in
  apply matches_seq_inv in H as (pos & s & c & Ha & H);
  apply matches_groupless in Ha as ->; [| reflexivity].

(** ** The names found in a request (lines 77-84) *)

(** X1. The common name taken from a request is never empty and holds no
    whitespace, comma, semicolon or slash; it is one of the domains. *)
Theorem common_name_shape (csr_dump : string) (m : rmatch) :
  search common_name_re csr_dump = Some m →
  group 1 m ≠ ""
  ∧ str_forall name_char (group 1 m) = true
  ∧ group 1 m ∈ find_domains csr_dump.
Proof.
  intros Hs. pose proof (search_sound _ _ _ Hs) as [s' H].
  unfold common_name_re in H. cbn [seqs] in H.
  do 6 step_over H.
  apply matches_grp_inv in H as (c1 & H & Hc).
  apply matches_plus_class in H as (-> & Hne & Hall).
  unfold group, Re.group. rewrite Hc. cbn.
  split_and!; [done | done |].
  unfold find_domains. rewrite Hs.
  match type of Hc with
  | _ = (1, ?t) :: _ =>
      assert (group 1 m = t) as <- by (unfold group, Re.group; by rewrite Hc)
  end.
  destruct (search alt_names_re csr_dump); [| set_solver].
  apply add_alt_names_elem. left. set_solver.
Qed.

Lemma common_name_shape_witness :
  ∃ m, search common_name_re Demo.csr_text = Some m
       ∧ group 1 m ≠ "" ∧ str_forall name_char (group 1 m) = true
       ∧ group 1 m ∈ find_domains Demo.csr_text.
Proof.
  destruct (search common_name_re Demo.csr_text) as [m|] eqn:E;
    [| vm_compute in E; discriminate].
  exists m. split; [reflexivity |]. exact (common_name_shape Demo.csr_text m E).
Defined.

(** ** The target of a [Link] header (lines 158-162) *)

(** X2. A [Link] header that is followed reads, from its first character
    on: optional whitespace, the target between angle brackets, any text
    without a newline, a semicolon, optional whitespace and [rel="up"].
    The URL fetched is the text between the opening bracket and the first
    closing bracket after it. *)
Theorem link_target_shape (link : string) (m : rmatch) :
  search link_up_re link = Some m →
  ∃ lead mid gap rest,
    link = lead +:+ "<" +:+ group 1 m +:+ ">" +:+ mid +:+ ";" +:+ gap
             +:+ "rel=" +:+ str1 dquote +:+ "up" +:+ str1 dquote +:+ rest
    ∧ str_forall is_space lead = true
    ∧ str_forall (fun c => negb (is_char ">" c)) (group 1 m) = true
    ∧ str_forall any_but_nl mid = true
    ∧ str_forall is_space gap = true.
Proof.
  intros Hs. pose proof (search_sound _ _ _ Hs) as [s' H].
  unfold link_up_re in H. cbn [seqs] in H.
  apply matches_seq_inv in H as (p0 & s0 & c0 & Hbol & H).
  apply matches_bol_inv in Hbol as (Hstart & -> & -> & ->).
  rewrite Hstart in H. cbn [str_drop] in H.
  apply matches_seq_inv in H as (p1 & s1 & c1 & Hlead & H).
  apply matches_star_text in Hlead as (lead & _ & Hl & -> & Hlead).
  apply matches_seq_inv in H as (p2 & s2 & c2 & Hopen & H).
  apply matches_lit in Hopen as [Hopen ->].
  apply matches_seq_inv in H as (p3 & s3 & c3 & Hgrp & H).
  apply matches_grp_inv in Hgrp as (c4 & Htarget & ->).
  apply matches_star_text in Htarget as (target & Htq & Ht & -> & Htarget).
  rewrite <- Htq in H. clear Htq.
  apply matches_seq_inv in H as (p4 & s4 & c5 & Hclose & H).
  apply matches_lit in Hclose as [Hclose ->].
  apply matches_seq_inv in H as (p5 & s5 & c6 & Hmid & H).
  apply matches_star_text in Hmid as (mid & _ & Hm & -> & Hmid).
  apply matches_seq_inv in H as (p6 & s6 & c7 & Hsemi & H).
  apply matches_lit in Hsemi as [Hsemi ->].
  apply matches_seq_inv in H as (p7 & s7 & c8 & Hgap & H).
  apply matches_star_text in Hgap as (gap & _ & Hg & -> & Hgap).
  apply matches_seq_inv in H as (p8 & s8 & c9 & Hrel & H).
  apply matches_lit in Hrel as [Hrel ->].
  apply matches_seq_inv in H as (p9 & s9 & c10 & Hq1 & H).
  apply matches_chr_inv in Hq1 as (q1 & Hq1 & Hq1c & -> & ->).
  apply matches_seq_inv in H as (p10 & s10 & c11 & Hup & H).
  apply matches_lit in Hup as [Hup ->].
  apply matches_chr_inv in H as (q2 & Hq2 & Hq2c & Hend & Hcaps).
  apply Ascii.eqb_eq in Hq1c as <-. apply Ascii.eqb_eq in Hq2c as <-.
  assert (group 1 m = target) as ->
    by (unfold group, Re.group; by rewrite Hcaps).
  exists lead, mid, gap, s'. split_and!; try done.
  by rewrite Hl, Hopen, Ht, Hclose, Hm, Hsemi, Hg, Hrel, Hq1, Hup, Hq2.
Qed.

Lemma link_target_shape_witness :
  ∃ m lead mid gap rest,
    search link_up_re (" " +:+ Demo.up_link "https://ca.test/acme/issuer-cert") = Some m
    ∧ " " +:+ Demo.up_link "https://ca.test/acme/issuer-cert"
      = lead +:+ "<" +:+ group 1 m +:+ ">" +:+ mid +:+ ";" +:+ gap
          +:+ "rel=" +:+ str1 dquote +:+ "up" +:+ str1 dquote +:+ rest
    ∧ str_forall (fun c => negb (is_char ">" c)) (group 1 m) = true.
Proof.
  destruct (search link_up_re (" " +:+ Demo.up_link "https://ca.test/acme/issuer-cert"))
    as [m|] eqn:E; [| vm_compute in E; discriminate].
  destruct (link_target_shape _ m E) as (lead & mid & gap & rest & Heq & _ & Ht & _).
  by exists m, lead, mid, gap, rest.
Defined.

(** ** The account key (lines 34-47) *)

Lemma digit_char (c : ascii) (d : Decimal.uint) :
  is_digit c = true → is_Some (DecimalString.uint_of_char c (Some d)).
Proof.
  destruct c as [[] [] [] [] [] [] [] []]; intros H; try discriminate H; by eexists.
Qed.

Lemma digits_uint (s : string) :
  str_forall is_digit s = true → is_Some (DecimalString.NilEmpty.uint_of_string s).
Proof.
  induction s as [|c s IH]; [by eexists |].
  cbn [str_forall DecimalString.NilEmpty.uint_of_string].
  intros [Hc Hs]%andb_true_iff. destruct (IH Hs) as [u ->]. by apply digit_char.
Qed.

(** [int] accepts every non-empty string of digits within the limit, and
    no longer one. *)
Lemma int_of_digits_some (s : string) :
  str_forall is_digit s = true → s ≠ "" → (String.length s ≤ max_str_digits)%nat →
  is_Some (int_of_digits s).
Proof.
  intros Hd Hne Hlen. unfold int_of_digits. rewrite Hd.
  apply Nat.leb_le in Hlen. rewrite Hlen.
  destruct s as [|c s]; [done |]. cbn [String.eqb negb andb].
  unfold DecimalString.NilZero.uint_of_string.
  destruct (digits_uint _ Hd) as [u ->]. by eexists.
Qed.

Lemma int_of_digits_long (s : string) :
  (max_str_digits < String.length s)%nat → int_of_digits s = None.
Proof.
  intros Hlen. unfold int_of_digits. apply Nat.leb_gt in Hlen. rewrite Hlen.
  by rewrite andb_false_r.
Qed.

Lemma hex_digits_of_uint (d : Hexadecimal.uint) :
  str_forall is_hex (HexadecimalString.NilEmpty.string_of_uint d) = true.
Proof. induction d; cbn [HexadecimalString.NilEmpty.string_of_uint str_forall]; by rewrite ?IHd. Qed.

(** [format] with [x] prints hexadecimal digits, and at least one. *)
Lemma hex_of_N_digits (n : N) :
  str_forall is_hex (hex_of_N n) = true ∧ hex_of_N n ≠ "".
Proof.
  unfold hex_of_N, HexadecimalString.NilZero.string_of_uint.
  destruct (N.to_hex_uint n) as [|d|d|d|d|d|d|d|d|d|d|d|d|d|d|d|d];
    (split; [| done]); try done;
    cbn [HexadecimalString.NilEmpty.string_of_uint str_forall];
    by rewrite hex_digits_of_uint.
Qed.

Lemma hex_value_some (c : ascii) : is_hex c = true → is_Some (hex_value c).
Proof.
  unfold is_hex, hex_value. destruct (is_digit c); [by eexists |].
  cbn [orb]. intros ->. by eexists.
Qed.

(** [unhexlify] reads every even number of hexadecimal digits, and no odd
    number of characters. *)
Lemma unhexlify_hex (n : nat) : ∀ s : string,
  (String.length s ≤ n)%nat → str_forall is_hex s = true →
  if Nat.even (String.length s) then is_Some (unhexlify s) else unhexlify s = None.
Proof.
  induction n as [|n IH]; intros [|a [|b s]] Hlen Hall; cbn in Hlen; try lia;
    try (by eexists); try done.
  cbn [str_forall] in Hall.
  apply andb_true_iff in Hall as [Ha Hall]. apply andb_true_iff in Hall as [Hb Hall].
  destruct (hex_value_some a Ha) as [hi Hhi], (hex_value_some b Hb) as [lo Hlo].
  cbn [unhexlify String.length Nat.even]. rewrite Hhi, Hlo. cbn [mbind option_bind].
  assert (String.length s ≤ n)%nat as Hs by lia.
  specialize (IH s Hs Hall). destruct (Nat.even (String.length s)).
  - destruct IH as [tl ->]. by eexists.
  - by rewrite IH.
Qed.

(** [re.sub] with a pattern of two alternative classes and the empty
    replacement deletes the characters of the two classes. *)
Lemma sub_go_noise (p q : ascii → bool) (i : nat) (s : string) (pos : nat) :
  sub_go (Grp i (Alt (Chr p) (Chr q))) "" pos s 0
  = str_filter (fun c => negb (p c || q c)) s.
Proof.
  revert pos. induction s as [|x s IH]; intros pos; [reflexivity |].
  cbn [sub_go match_at run str_filter].
  destruct (p x); cbn [m_end orb negb].
  - replace (S pos - pos) with 1 by lia. cbn. by rewrite IH.
  - destruct (q x); cbn [m_end orb negb].
    + replace (S pos - pos) with 1 by lia. cbn. by rewrite IH.
    + by rewrite IH.
Qed.

Lemma sub_hex_noise (s : string) :
  sub hex_noise_re "" s = str_filter (fun c => negb (hex_noise c)) s.
Proof. apply sub_go_noise. Qed.

Lemma str_filter_forall (p q r : ascii → bool) (s : string) :
  (∀ c, p c = true → q c = true → r c = true) →
  str_forall p s = true → str_forall r (str_filter q s) = true.
Proof.
  intros Hpq. induction s as [|c s IH]; [done |]. cbn [str_forall str_filter].
  intros [Hc Hs]%andb_true_iff. destruct (q c) eqn:Hq; [| by apply IH].
  cbn [str_forall]. by rewrite (Hpq c Hc Hq), IH.
Qed.

Lemma modulus_digits (s : string) :
  str_forall modulus_char s = true →
  str_forall is_hex (sub hex_noise_re "" s) = true.
Proof.
  rewrite sub_hex_noise. apply str_filter_forall. intros c.
  unfold modulus_char, hex_noise, is_hex.
  destruct (between 97 102 c), (is_digit c), (is_char ":" c), (is_space c); done.
Qed.

(** What the pattern of line 36 captures: a modulus of hexadecimal digits,
    colons and whitespace, and an exponent of decimal digits. *)
Lemma account_key_groups (text : string) (m : rmatch) :
  search account_key_re text = Some m →
  group 1 m ≠ "" ∧ str_forall modulus_char (group 1 m) = true
  ∧ group 2 m ≠ "" ∧ str_forall is_digit (group 2 m) = true.
Proof.
  intros Hs. pose proof (search_sound _ _ _ Hs) as [s' H].
  unfold account_key_re in H. cbn [seqs] in H.
  do 4 step_over H.
  apply matches_seq_inv in H as (pa & sa & ca & Hg1 & H).
  apply matches_grp_inv in Hg1 as (cb & Hg1 & ->).
  apply matches_plus_text in Hg1 as (g1 & Hq1 & _ & -> & Hne1 & Hall1).
  rewrite <- Hq1 in H. clear Hq1.
  do 2 step_over H.
  apply matches_grp_inv in H as (cc & Hg2 & Hcaps).
  apply matches_plus_text in Hg2 as (g2 & Hq2 & _ & -> & Hne2 & Hall2).
  rewrite <- Hq2 in Hcaps. clear Hq2.
  assert (group 1 m = g1) as -> by (unfold group, Re.group; by rewrite Hcaps).
  assert (group 2 m = g2) as -> by (unfold group, Re.group; by rewrite Hcaps).
  done.
Qed.

Lemma exponent_hex_decodes (n : N) : is_Some (unhexlify (exponent_hex n)).
Proof.
  unfold exponent_hex. cbv zeta.
  destruct (hex_of_N_digits n) as [Hhex _].
  destruct (Nat.odd (String.length (hex_of_N n))) eqn:Hodd.
  - change ("0" +:+ hex_of_N n) with (String "0" (hex_of_N n)).
    pose proof (unhexlify_hex _ (String "0" (hex_of_N n)) (Nat.le_refl _)) as H.
    cbn [str_forall String.length] in H.
    rewrite Nat.even_succ, Hodd in H. apply H. by rewrite Hhex.
  - pose proof (unhexlify_hex _ (hex_of_N n) (Nat.le_refl _) Hhex) as H.
    rewrite <- Nat.negb_odd, Hodd in H. exact H.
Qed.

(** ** URL-safe base64 (lines 18-19) *)

Lemma b64_digit_token (n : N) : token_char (b64_digit true n) = true.
Proof.
  assert (∀ k, k < 62 → token_char (b64_digit true (N.of_nat k)) = true) as Hsmall.
  { assert (forallb (fun k => token_char (b64_digit true (N.of_nat k))) (seq 0 62) = true)
      as Hall by (vm_compute; reflexivity).
    intros k Hk. apply (proj1 (forallb_forall _ _) Hall). apply in_seq. lia. }
  destruct (N.ltb n 62) eqn:Hn.
  - apply N.ltb_lt in Hn. rewrite <- (N2Nat.id n). apply Hsmall. lia.
  - apply N.ltb_ge in Hn. unfold b64_digit.
    replace (n <? 26)%N with false by (symmetry; apply N.ltb_ge; lia).
    replace (n <? 52)%N with false by (symmetry; apply N.ltb_ge; lia).
    replace (n <? 62)%N with false by (symmetry; apply N.ltb_ge; lia).
    by destruct (n =? 62)%N.
Qed.

Lemma urlsafe_b64encode_chars (b : string) :
  str_forall (fun c => token_char c || is_char pad c) (urlsafe_b64encode b) = true.
Proof.
  unfold urlsafe_b64encode.
  enough (∀ n b, (String.length b ≤ n)%nat →
            str_forall (fun c => token_char c || is_char pad c) (b64_go true b) = true) as H
    by by apply (H (String.length b)).
  clear b. induction n as [|n IH]; intros b Hlen.
  - destruct b; [done | cbn in Hlen; lia].
  - destruct b as [|x [|y [|z rest]]]; cbn [b64_go str_forall];
      rewrite ?b64_digit_token; try done.
    cbn [andb orb]. apply IH. cbn in Hlen. lia.
Qed.

Lemma _b64_chars (b : string) : str_forall token_char (_b64 b) = true.
Proof.
  unfold _b64, remove_char.
  eapply str_filter_forall; [| apply urlsafe_b64encode_chars].
  intros c. cbn beta. by destruct (token_char c), (is_char pad c).
Qed.

Lemma escape_char_token (c : ascii) : token_char c = true → escape_char c = str1 c.
Proof.
  destruct c as [[] [] [] [] [] [] [] []]; intros H; try discriminate H; reflexivity.
Qed.

(** A text of letters, digits, [_] and [-] is written into JSON as it is. *)
Lemma quote_token (s : string) : str_forall token_char s = true → quote s = quoted s.
Proof.
  intros H. unfold quote, quoted. f_equal. f_equal.
  induction s as [|c s IH]; [done |]. cbn [str_forall] in H.
  apply andb_true_iff in H as [Hc Hs]. cbn [escape]. by rewrite escape_char_token, IH.
Qed.

Lemma canonical_key_dumps (e n : string) :
  str_forall token_char e = true → str_forall token_char n = true →
  dumps_with true "," ":" (JObj [("e", JStr e); ("kty", JStr "RSA"); ("n", JStr n)])
  = canonical_key e n.
Proof.
  intros He Hn. unfold canonical_key.
  cbn [dumps_with List.map fst snd]. rewrite (quote_token e He), (quote_token n Hn).
  change (sort_fields [("e", quoted e); ("kty", quote "RSA"); ("n", quoted n)])
    with [("e", quoted e); ("kty", quote "RSA"); ("n", quoted n)].
  cbn [List.map join fst snd]. by rewrite !append_assoc.
Qed.

(** ** The session header and the thumbprint (lines 34-47) *)

Section session.
Context (sha256 : string → string) (utf8_decode : string → option string)
        (W : world) (account_key : string).

Abbreviation parse_account_key' := (parse_account_key sha256 utf8_decode W account_key).

(** The state once [openssl] has been asked about the key. *)
Abbreviation asked st :=
  (after [EvOpenssl "rsa" (key_dump_options account_key) None;
          EvLog "Parsing account key..."] 1 st).

(** The run of the parsing once the exponent and the modulus are decoded. *)
Lemma session_objects (st : state) (e modulus : string) :
  ∃ jwk header,
    st_heap st !! jwk = None ∧ st_heap st !! header = None ∧ jwk ≠ header
    ∧ (jwk ← alloc (key_object (_b64 e) (_b64 modulus));
       header ← alloc (header_object jwk);
       held ← read header;
       key ← lift_option KeyError (assoc "jwk" held);
       accountkey_json ← dumps_value true "," ":" key;
       ret (header, _b64 (sha256 accountkey_json))) st
      = (Ret (header, _b64 (sha256 (canonical_key (_b64 e) (_b64 modulus)))),
         with_heap (<[header := header_object jwk]>
                      (<[jwk := key_object (_b64 e) (_b64 modulus)]> (st_heap st))) st).
Proof.
  destruct (alloc_fresh (key_object (_b64 e) (_b64 modulus)) st) as (jwk & Hjwk & Hfresh).
  set (st1 := {| st_heap := <[jwk := key_object (_b64 e) (_b64 modulus)]> (st_heap st);
                 st_files := st_files st; st_trace := st_trace st;
                 st_clock := st_clock st |}) in Hjwk.
  destruct (alloc_fresh (header_object jwk) st1) as (header & Hheader & Hfresh').
  cbn [st1 st_heap] in Hfresh'.
  assert (jwk ≠ header) as Hne.
  { intros ->. by rewrite (lookup_insert_eq (st_heap st)) in Hfresh'. }
  rewrite lookup_insert_ne in Hfresh' by done.
  exists jwk, header. split_and!; try done.
  erewrite bind_returns by exact Hjwk. erewrite bind_returns by exact Hheader.
  unfold read, dumps_value. unfold_m. cbn [st_heap st1].
  rewrite (lookup_insert_eq _ header).
  change (assoc "jwk" (header_object jwk)) with (Some (Ref jwk)).
  cbv beta iota. cbn [st_heap st_files st_trace st_clock st1].
  change depth with (S (pred depth)). rewrite snapshot_ref.
  rewrite lookup_insert_ne by done. rewrite (lookup_insert_eq _ jwk).
  cbn [mbind option_bind key_object mapM]. unfold snapshot_field. cbn [fst snd].
  rewrite !snapshot_lit. cbn [mbind option_bind mret option_ret].
  rewrite canonical_key_dumps by apply _b64_chars. done.
Qed.

(** Every way the parsing can go once the dump matches the pattern and
    the exponent is converted. *)
Lemma parse_account_key_cases (st : state) (out err text : string) (m : rmatch) (n : N) :
  w_openssl W (st_clock st) "rsa" (key_dump_options account_key) None = (0%Z, out, err) →
  utf8_decode out = Some text →
  search account_key_re text = Some m →
  int_of_digits (group 2 m) = Some n →
  ∃ e,
    unhexlify (exponent_hex n) = Some e
    ∧ match unhexlify (sub hex_noise_re "" (group 1 m)) with
      | None => parse_account_key' st = (Raise BinasciiError, asked st)
      | Some modulus =>
          ∃ jwk header,
            st_heap st !! jwk = None ∧ st_heap st !! header = None ∧ jwk ≠ header
            ∧ parse_account_key' st
              = (Ret (header, _b64 (sha256 (canonical_key (_b64 e) (_b64 modulus)))),
                 with_heap (<[header := header_object jwk]>
                              (<[jwk := key_object (_b64 e) (_b64 modulus)]> (st_heap st)))
                   (asked st))
      end.
Proof.
  intros Hdump Hdecode Hsearch Hn.
  destruct (exponent_hex_decodes n) as [e He].
  exists e. split; [done |].
  assert (∀ B (k : string → string → M B),
            (log_info "Parsing account key...";;
             out ← _openssl W "rsa" ["-in"; account_key; "-noout"; "-text"] None;
             text ← decode utf8_decode out;
             m ← lift_option AttributeError (search account_key_re text);
             let pub_hex := group 1 m in
             let pub_exp := group 2 m in
             n ← lift_option (int_error pub_exp) (int_of_digits pub_exp);
             let pub_exp := hex_of_N n in
             let pub_exp :=
               if Nat.odd (String.length pub_exp) then "0" +:+ pub_exp else pub_exp in
             e ← lift_option BinasciiError (unhexlify pub_exp);
             modulus ← lift_option BinasciiError (unhexlify (sub hex_noise_re "" pub_hex));
             k e modulus) st
            = (modulus ← lift_option BinasciiError
                           (unhexlify (sub hex_noise_re "" (group 1 m)));
               k e modulus) (asked st)) as Hrun.
  { intros B k. unfold _openssl, decode. unfold_m. cbn [st_clock].
    unfold key_dump_options in Hdump. rewrite Hdump. cbv beta iota zeta.
    change (0 =? 0)%Z with true. cbv beta iota. rewrite Hdecode, Hsearch, Hn.
    fold (exponent_hex n). by rewrite He. }
  unfold parse_account_key. rewrite Hrun.
  destruct (unhexlify (sub hex_noise_re "" (group 1 m))) as [modulus|]; [| done].
  destruct (session_objects (asked st) e modulus) as (jwk & header & H1 & H2 & H3 & Hs).
  exists jwk, header. split_and!; try done.
Qed.

Lemma session_snapshot (h : gmap nat dict) (jwk header : nat) (e n : string) :
  jwk ≠ header →
  snapshot depth (<[header := header_object jwk]> (<[jwk := key_object e n]> h)) (Ref header)
  = Some (JObj (header_json e n)).
Proof.
  intros Hne. change depth with (S (S (pred (pred depth)))).
  rewrite snapshot_ref, (lookup_insert_eq _ header).
  cbn [mbind option_bind header_object mapM]. unfold snapshot_field at 1 2. cbn [fst snd].
  rewrite snapshot_lit, snapshot_ref, lookup_insert_ne by done.
  rewrite (lookup_insert_eq _ jwk).
  cbn [mbind option_bind key_object mapM]. unfold snapshot_field. cbn [fst snd].
  by rewrite !snapshot_lit.
Qed.

(** The parsing returns only when [openssl] has answered, the answer is
    text, the text matches the pattern and the exponent is converted. *)
Lemma parse_account_key_returns (st st' : state) (r : nat * string) :
  parse_account_key' st = (Ret r, st') →
  ∃ out err text m n,
    w_openssl W (st_clock st) "rsa" (key_dump_options account_key) None = (0%Z, out, err)
    ∧ utf8_decode out = Some text ∧ search account_key_re text = Some m
    ∧ int_of_digits (group 2 m) = Some n.
Proof.
  unfold parse_account_key, _openssl, decode, key_dump_options. unfold_m. cbn [st_clock].
  destruct (w_openssl W (st_clock st) "rsa" ["-in"; account_key; "-noout"; "-text"] None)
    as [[rc out] err] eqn:Hdump.
  cbv beta iota zeta. destruct (Z.eqb rc 0) eqn:Hrc; [| done].
  apply Z.eqb_eq in Hrc as ->.
  destruct (utf8_decode out) as [text|] eqn:Hdecode; [| done].
  destruct (search account_key_re text) as [m|] eqn:Hsearch; [| done].
  cbv beta iota zeta.
  destruct (int_of_digits (group 2 m)) as [n|] eqn:Hn; [| done].
  intros _. by exists out, err, text, m, n.
Qed.

(** An exponent beyond the limit of [int] ends the parsing. *)
Lemma parse_account_key_long (st : state) (out err text : string) (m : rmatch) :
  w_openssl W (st_clock st) "rsa" (key_dump_options account_key) None = (0%Z, out, err) →
  utf8_decode out = Some text →
  search account_key_re text = Some m →
  int_of_digits (group 2 m) = None →
  parse_account_key' st = (Raise (int_error (group 2 m)), asked st).
Proof.
  intros Hdump Hdecode Hsearch Hn.
  unfold parse_account_key, _openssl, decode. unfold_m. cbn [st_clock].
  unfold key_dump_options in Hdump. rewrite Hdump. cbv beta iota zeta.
  change (0 =? 0)%Z with true. cbv beta iota. by rewrite Hdecode, Hsearch, Hn.
Qed.

(** X3. Once the dump of the key matches the pattern, the parsing can stop
    in two ways only.  What the pattern takes as exponent is a non-empty
    string of decimal digits: [int] refuses it when it has more than 4300
    digits, and the parsing stops with that [ValueError]; a shorter one
    always converts, to a number whose hexadecimal text always decodes.
    What the pattern takes as modulus holds, colons and whitespace apart,
    only hexadecimal digits: with an odd number of them the decoding
    raises [binascii.Error], with an even number the parsing returns. *)
Theorem account_key_parsing (st : state) (out err text : string) (m : rmatch) :
  w_openssl W (st_clock st) "rsa" (key_dump_options account_key) None = (0%Z, out, err) →
  utf8_decode out = Some text →
  search account_key_re text = Some m →
  let digits := sub hex_noise_re "" (group 1 m) in
  let exponent := group 2 m in
  (str_forall is_hex digits = true
   ∧ exponent ≠ "" ∧ str_forall is_digit exponent = true)
  ∧ ((max_str_digits < String.length exponent)%nat →
       parse_account_key' st = (Raise (int_error exponent), asked st)
       ∧ ∃ message, int_error exponent = ValueError message)
  ∧ ((String.length exponent ≤ max_str_digits)%nat →
       (∃ n e, int_of_digits exponent = Some n ∧ unhexlify (exponent_hex n) = Some e)
       ∧ (Nat.even (String.length digits) = false →
            parse_account_key' st = (Raise BinasciiError, asked st))
       ∧ (Nat.even (String.length digits) = true →
            ∃ session st', parse_account_key' st = (Ret session, st')
                           ∧ st_trace st' = st_trace (asked st)
                           ∧ st_clock st' = S (st_clock st)
                           ∧ st_files st' = st_files st)).
Proof.
  intros Hdump Hdecode Hsearch digits exponent.
  destruct (account_key_groups text m Hsearch) as (_ & Hmod & Hne & Hdigits).
  pose proof (modulus_digits _ Hmod) as Hhex. fold digits in Hhex.
  pose proof (unhexlify_hex _ digits (Nat.le_refl _) Hhex) as Hdec.
  split_and!; [done | done | done | |].
  - intros Hlong. split.
    + apply (parse_account_key_long st out err text m Hdump Hdecode Hsearch).
      by apply int_of_digits_long.
    + unfold int_error. apply Nat.leb_gt in Hlong. rewrite Hlong. by eexists.
  - intros Hshort.
    destruct (int_of_digits_some _ Hdigits Hne Hshort) as [n Hn].
    destruct (parse_account_key_cases st out err text m n Hdump Hdecode Hsearch Hn)
      as (e & He & Hcase).
    fold digits in Hcase.
    split_and!; [by exists n, e | |]; intros Heven; rewrite Heven in Hdec.
    + by rewrite Hdec in Hcase.
    + destruct Hdec as [modulus Hdec]. rewrite Hdec in Hcase.
      destruct Hcase as (jwk & header & _ & _ & _ & ->). by eexists _, _.
Qed.

(** X4. A session that the parsing returns holds a header object standing
    for the JSON value with the algorithm [RS256] and the key of members
    [e], [kty] and [n]; the thumbprint is the URL-safe base64 text of the
    hash of that key written with its members in the order of their names
    and no whitespace.  The two texts of the key and the thumbprint hold
    letters, digits, [_] and [-] only.  The objects that were there
    before are kept, and no file is touched. *)
Theorem session_header (st st' : state) (header : nat) (thumbprint : string) :
  parse_account_key' st = (Ret (header, thumbprint), st') →
  ∃ e n,
    snapshot depth (st_heap st') (Ref header) = Some (JObj (header_json e n))
    ∧ thumbprint = _b64 (sha256 (canonical_key e n))
    ∧ str_forall token_char e = true ∧ str_forall token_char n = true
    ∧ str_forall token_char thumbprint = true
    ∧ st_heap st ⊆ st_heap st' ∧ st_heap st !! header = None
    ∧ st_files st' = st_files st.
Proof.
  intros Hret.
  destruct (parse_account_key_returns st st' _ Hret)
    as (out & err & text & m & n & Hdump & Hdecode & Hsearch & Hn).
  destruct (parse_account_key_cases st out err text m n Hdump Hdecode Hsearch Hn)
    as (e & He & Hcase).
  destruct (unhexlify (sub hex_noise_re "" (group 1 m))) as [modulus|];
    [| rewrite Hcase in Hret; discriminate].
  destruct Hcase as (jwk & header' & Hjwk & Hheader & Hne & Hrun).
  rewrite Hrun in Hret. injection Hret as <- <- <-.
  exists (_b64 e), (_b64 modulus). cbn [with_heap after st_heap st_files].
  split_and!; try done; try apply _b64_chars.
  - by apply session_snapshot.
  - etrans; [| apply insert_subseteq; by rewrite lookup_insert_ne].
    by apply insert_subseteq.
Qed.

End session.

Lemma account_key_parsing_witness :
  let W := sample_world plain_headers in
  ∃ m, search account_key_re Demo.key_text = Some m
       ∧ str_forall is_hex (sub hex_noise_re "" (group 1 m)) = true
       ∧ ∃ session st',
           parse_account_key Demo.digest Demo.ascii_decode W "account.key" initial
           = (Ret session, st')
           ∧ st_files st' = ∅.
Proof.
  intros W.
  destruct (search account_key_re Demo.key_text) as [m|] eqn:E;
    [| vm_compute in E; discriminate].
  pose proof E as E'. vm_compute in E'. injection E' as <-.
  eexists. split; [reflexivity |].
  destruct (account_key_parsing Demo.digest Demo.ascii_decode W "account.key" initial
              Demo.key_text "" Demo.key_text _ eq_refl eq_refl E)
    as ((Hhex & _ & _) & _ & Hshort).
  split; [exact Hhex |].
  destruct Hshort as (_ & _ & Hreturns); [apply Nat.leb_le; vm_compute; reflexivity |].
  destruct (Hreturns eq_refl) as (session & st' & Hrun & _ & _ & Hfiles).
  by exists session, st'.
Defined.

Lemma session_header_witness :
  let r := sample_session plain_headers in
  fst r = Ret (sample_header, Demo.thumbprint)
  ∧ ∃ e n,
      snapshot depth (st_heap (snd r)) (Ref sample_header) = Some (JObj (header_json e n))
      ∧ Demo.thumbprint = _b64 (Demo.digest (canonical_key e n)).
Proof.
  intros r. split; [vm_compute; reflexivity |].
  destruct (session_header Demo.digest Demo.ascii_decode (sample_world plain_headers)
              "account.key" initial (snd r) sample_header Demo.thumbprint)
    as (e & n & Hsnap & Hthumb & _); [vm_compute; reflexivity |].
  by exists e, n.
Defined.

(** X5. The text [_b64] gives holds letters, digits, [-] and [_] only: no
    padding, no [+] and no [/]; for [n] bytes it has the length of
    [4n/3] rounded up, and sanitising it as a token changes nothing. *)
Theorem _b64_alphabet_and_length (b : string) :
  str_forall token_char (_b64 b) = true
  ∧ String.length (_b64 b) = (4 * String.length b + 2) / 3
  ∧ sanitize_token (_b64 b) = _b64 b.
Proof.
  split_and!; [apply _b64_chars | |].
  - unfold _b64, remove_char, urlsafe_b64encode.
    assert (∀ c s, token_char c = true →
              str_filter (fun c => negb (is_char pad c)) (String c s)
              = String c (str_filter (fun c => negb (is_char pad c)) s)) as Hkeep.
    { intros c s Hc. cbn [str_filter].
      destruct (is_char pad c) eqn:Hp; [| done].
      apply Ascii.eqb_eq in Hp as <-. discriminate Hc. }
    enough (∀ n b, (String.length b ≤ n)%nat →
              String.length (str_filter (fun c => negb (is_char pad c)) (b64_go true b))
              = (4 * String.length b + 2) / 3) as H by by apply (H (String.length b)).
    clear b. induction n as [|n IH]; intros b Hlen.
    + destruct b; [done | cbn in Hlen; lia].
    + destruct b as [|x [|y [|z rest]]]; cbn [b64_go]; cbv zeta;
        rewrite ?Hkeep by apply b64_digit_token; try done.
      cbn [String.length]. rewrite IH by (cbn in Hlen; lia).
      replace (4 * S (S (S (String.length rest))) + 2)
        with ((4 * String.length rest + 2) + 4 * 3) by lia.
      rewrite Nat.div_add by done. lia.
  - rewrite sanitize_token_map.
    pose proof (_b64_chars b) as H. induction (_b64 b) as [|c s IH]; [done |].
    cbn [str_forall] in H. apply andb_true_iff in H as [Hc Hs].
    cbn [str_map]. by rewrite safe_char_fixed, IH.
Qed.

(** ** The place of the challenge file (lines 112-119) *)

Lemma token_char_path (c : ascii) : token_char c = true → is_path_char c = false.
Proof. destruct c as [[] [] [] [] [] [] [] []]; intros H; try discriminate H; reflexivity. Qed.

Lemma startswith_slash (s : string) :
  str_forall token_char s = true → startswith "/" s = false.
Proof.
  destruct s as [|c s]; [done |]. cbn [str_forall]. intros [Hc _]%andb_true_iff.
  unfold startswith. cbn [String.prefix].
  destruct (ascii_dec "/" c) as [<- |]; [discriminate Hc | done].
Qed.

Lemma sanitize_token_chars (raw : string) :
  str_forall token_char (sanitize_token raw) = true.
Proof.
  rewrite sanitize_token_map. induction raw as [|c s IH]; [done |].
  cbn [str_map str_forall]. by rewrite safe_char_token, IH.
Qed.

(** X6. Whatever token the authority sends, the challenge file lies
    directly in the challenge directory: its path is the directory, a
    slash unless the directory is empty or ends with one, and the
    sanitised token, which holds neither a slash nor a dot and is as long
    as the token sent. *)
Theorem challenge_file_inside_directory (acme_dir raw_token : string) :
  let token := sanitize_token raw_token in
  os_path_join acme_dir token = acme_dir +:+ path_separator acme_dir +:+ token
  ∧ str_forall (fun c => negb (is_path_char c)) token = true
  ∧ String.length token = String.length raw_token.
Proof.
  intros token. pose proof (sanitize_token_chars raw_token) as Hchars. fold token in Hchars.
  split_and!.
  - unfold os_path_join, path_separator. rewrite (startswith_slash token Hchars).
    destruct (String.eqb acme_dir "") eqn:Hempty.
    + by apply String.eqb_eq in Hempty as ->.
    + by destruct (startswith "/" (String.rev acme_dir)).
  - clear -Hchars. induction token as [|c s IH]; [done |].
    cbn [str_forall] in *. apply andb_true_iff in Hchars as [Hc Hs].
    by rewrite (token_char_path c Hc), IH.
  - unfold token. rewrite sanitize_token_map. apply str_map_length.
Qed.

(** ** The host of the terms request (lines 89-94) *)

Lemma rev_app_rev_app (b : string) : ∀ cur acc,
  String.rev_app (String.rev_app b cur) acc = String.rev_app cur (b +:+ acc).
Proof.
  induction b as [|c b IH]; intros cur acc; [done |].
  cbn [String.rev_app]. by rewrite IH.
Qed.

Lemma rev_rev_app (b : string) : String.rev (String.rev_app b "") = b.
Proof. unfold String.rev. rewrite rev_app_rev_app. cbn. apply append_empty. Qed.

Lemma split_go_slash_free (b : string) : ∀ cur,
  str_forall no_slash b = true →
  split_go "/" b 0 cur = [String.rev (String.rev_app b cur)].
Proof.
  induction b as [|c b IH]; intros cur Hb; [done |].
  cbn [str_forall] in Hb. apply andb_true_iff in Hb as [Hc Hb].
  cbn [split_go]. unfold startswith. cbn [String.prefix].
  destruct (ascii_dec "/" c) as [<- |]; [discriminate Hc |].
  by rewrite IH.
Qed.

Lemma prefix_empty (s : string) : String.prefix "" s = true.
Proof. by destruct s. Qed.

Lemma split_go_nonempty (sep s : string) : ∀ skip cur, split_go sep s skip cur ≠ [].
Proof.
  induction s as [|c s IH]; intros skip cur; [done |].
  cbn [split_go]. destruct skip; [| apply IH].
  by destruct (startswith sep (String c s)).
Qed.

Lemma last_cons {A} (x d : A) (l : list A) : l ≠ [] → List.last (x :: l) d = List.last l d.
Proof. by destruct l. Qed.

(** The last piece of a text cut at its slashes is what follows the last
    slash. *)
Lemma split_slash_last (a b : string) : ∀ cur,
  str_forall no_slash b = true →
  List.last (split_go "/" (a +:+ "/" +:+ b) 0 cur) "" = b.
Proof.
  induction a as [|c a IH]; intros cur Hb.
  - change ("" +:+ "/" +:+ b) with (String "/" b). cbn [split_go].
    unfold startswith. cbn [String.prefix]. destruct (ascii_dec "/" "/"); [| done].
    rewrite prefix_empty. cbn [String.length Nat.sub].
    rewrite last_cons by apply split_go_nonempty.
    rewrite split_go_slash_free by done. cbn [List.last]. apply rev_rev_app.
  - rewrite append_cons. cbn [split_go]. destruct (startswith "/" _).
    + cbn [String.length Nat.sub]. rewrite last_cons by apply split_go_nonempty. by apply IH.
    + by apply IH.
Qed.

(** X7. The terms of service are asked for, with [HEAD /terms], at the
    host named by what follows the last slash of the authority's URL
    (nothing, when the URL ends with a slash); the agreement is the
    [location] header of the answer, and an exception of the connection
    ends the run. *)
Theorem terms_request_host (W : world) (CA : string) (st : state) (a host : string) :
  CA = a +:+ "/" +:+ host →
  str_forall no_slash host = true →
  terms_location W CA st
  = match w_head W (st_clock st) host "/terms" with
    | inl location => (Ret location, terms_asked host st)
    | inr e => (Raise e, terms_asked host st)
    end.
Proof.
  intros -> Hhost. unfold terms_location, split. rewrite split_slash_last by done.
  unfold_m. cbn. by destruct (w_head W (st_clock st) host "/terms").
Qed.

Lemma terms_request_host_witness :
  terms_location (sample_world plain_headers) DEFAULT_CA initial
  = (Ret (Some (Demo.ca +:+ "/terms/v1")),
     terms_asked "acme-v01.api.letsencrypt.org" initial).
Proof.
  by rewrite (terms_request_host (sample_world plain_headers) DEFAULT_CA initial
                "https:/" "acme-v01.api.letsencrypt.org" eq_refl eq_refl).
Defined.

(** ** The names of the alternative-names line (lines 80-84) *)

Lemma str_forall_rev_app p (s : string) : ∀ acc,
  str_forall p (String.rev_app s acc) = str_forall p s && str_forall p acc.
Proof.
  induction s as [|c s IH]; intros acc; [done |].
  cbn [String.rev_app str_forall]. rewrite IH. cbn [str_forall].
  by destruct (p c), (str_forall p s), (str_forall p acc).
Qed.

(** The pieces of a text hold no character the text does not hold. *)
Lemma split_go_forall p (sep s : string) : ∀ skip cur,
  str_forall p s = true → str_forall p cur = true →
  Forall (fun piece => str_forall p piece = true) (split_go sep s skip cur).
Proof.
  induction s as [|c s IH]; intros skip cur Hs Hcur.
  - constructor; [| constructor]. unfold String.rev.
    by rewrite str_forall_rev_app, Hcur.
  - cbn [str_forall] in Hs. apply andb_true_iff in Hs as [Hc Hs].
    cbn [split_go]. destruct skip; [| by apply IH].
    destruct (startswith sep (String c s)).
    + constructor; [| by apply IH]. unfold String.rev.
      by rewrite str_forall_rev_app, Hcur.
    + apply IH; [done |]. cbn [str_forall]. by rewrite Hc, Hcur.
Qed.

Lemma str_drop_forall p (n : nat) : ∀ s,
  str_forall p s = true → str_forall p (str_drop n s) = true.
Proof.
  induction n as [|n IH]; intros [|c s] H; try done.
  cbn [str_forall] in H. apply andb_true_iff in H as [_ H]. by apply IH.
Qed.

Lemma alt_names_line (csr_dump : string) (m : rmatch) :
  search alt_names_re csr_dump = Some m →
  group 1 m ≠ "" ∧ str_forall any_but_nl (group 1 m) = true.
Proof.
  intros Hs. pose proof (search_sound _ _ _ Hs) as [s' H].
  unfold alt_names_re in H. cbn [seqs] in H.
  do 3 step_over H.
  apply matches_seq_inv in H as (pa & sa & ca & Hg & H).
  apply matches_grp_inv in Hg as (cb & Hg & ->).
  apply matches_plus_text in Hg as (line & Hq & _ & -> & Hne & Hall).
  rewrite <- Hq in H. clear Hq.
  apply matches_chr_inv in H as (x & _ & _ & _ & Hcaps).
  assert (group 1 m = line) as -> by (unfold group, Re.group; by rewrite Hcaps).
  done.
Qed.

Lemma name_char_line (c : ascii) : name_char c = true → any_but_nl c = true.
Proof. destruct c as [[] [] [] [] [] [] [] []]; intros H; try discriminate H; reflexivity. Qed.

(** X8. No domain found in a request holds a newline: each name is
    written on one line of the log and gives one line of the URL that is
    checked. *)
Theorem domains_hold_no_newline (csr_dump d : string) :
  d ∈ find_domains csr_dump → str_forall any_but_nl d = true.
Proof.
  unfold find_domains.
  assert (∀ domains : gset string,
            (∀ x, x ∈ domains → str_forall any_but_nl x = true) →
            d ∈ match search alt_names_re csr_dump with
                | Some subject_alt_names =>
                    foldl add_alt_name domains (split ", " (group 1 subject_alt_names))
                | None => domains
                end →
            str_forall any_but_nl d = true) as Hsan.
  { intros domains Hdom. destruct (search alt_names_re csr_dump) as [m|] eqn:Hs; [| apply Hdom].
    rewrite add_alt_names_elem. intros [Hd | (san & Hin & _ & ->)]; [by apply Hdom |].
    apply str_drop_forall. destruct (alt_names_line _ _ Hs) as [_ Hline].
    pose proof (split_go_forall any_but_nl ", " (group 1 m) 0 "" Hline eq_refl) as Hall.
    rewrite Forall_forall in Hall. by apply Hall. }
  apply Hsan. destruct (search common_name_re csr_dump) as [m|] eqn:Hs; [| set_solver].
  intros x [Hx | ->%elem_of_singleton]%elem_of_union; [set_solver |].
  pose proof (search_sound _ _ _ Hs) as [s' H].
  unfold common_name_re in H. cbn [seqs] in H.
  do 6 step_over H.
  apply matches_grp_inv in H as (c1 & H & Hc).
  apply matches_plus_text in H as (name & Hq & _ & -> & _ & Hall).
  rewrite <- Hq in Hc. clear Hq.
  assert (group 1 m = name) as -> by (unfold group, Re.group; by rewrite Hc).
  clear -Hall. induction name as [|c s IH]; [done |].
  cbn [str_forall] in *. apply andb_true_iff in Hall as [Hc Hs].
  by rewrite (name_char_line c Hc), IH.
Qed.

Lemma domains_hold_no_newline_witness :
  "www.example.com" ∈ find_domains Demo.csr_text
  ∧ str_forall any_but_nl "www.example.com" = true.
Proof.
  assert ("www.example.com" ∈ find_domains Demo.csr_text) as Hin.
  { replace (find_domains Demo.csr_text)
      with ({[ "example.com"; "www.example.com" ]} : gset string)
      by (vm_compute; reflexivity).
    set_solver. }
  split; [exact Hin |]. exact (domains_hold_no_newline Demo.csr_text _ Hin).
Defined.

(** ** Signed requests without a status code (lines 59-71) *)

(** X9. When [urlopen] raises something else than an [HTTPError], the
    signed request never returns, whatever the table of codes: a
    [URLError] gives the error of the template with the code [None] and
    the reason, any other exception gives [UnboundLocalError].  The
    request has been sent once and nothing else has changed. *)
Theorem reply_without_status (W : world) (url signed_request : string)
    (return_codes : gmap Z (option string)) (error_message : string)
    (st : state) (e : exn) :
  w_urlopen W (st_clock st) (_request url) (Some signed_request) = Raises e →
  (∀ code reason body hdrs, e ≠ HTTPError code reason body hdrs) →
  send_and_classify W url signed_request return_codes error_message st
  = (Raise (no_status_error error_message e), posted url signed_request st).
Proof.
  intros Hreply Hhttp. unfold send_and_classify. unfold_m.
  rewrite urlopen_step, Hreply.
  destruct e; try done. by destruct (Hhttp code reason body hdrs).
Qed.

Lemma reply_without_status_witness :
  send_and_classify (serving "abc.def") "https://ca.test/acme/new-reg" "signed"
    registration_codes "Error registering: {code} {result}" initial
  = (Raise (ValueError (Fmt "Error registering: {code} {result}"
                          [ACode None; AStr "unreachable"])),
     posted "https://ca.test/acme/new-reg" "signed" initial).
Proof.
  by rewrite (reply_without_status (serving "abc.def") "https://ca.test/acme/new-reg"
                "signed" registration_codes "Error registering: {code} {result}" initial
                (URLError "unreachable") eq_refl).
Defined.

(** ** The steps of a signed request (lines 50-71) *)

(** X10. A signed request asks the directory for a nonce, has the signing
    input signed and only then posts: when the directory request raises,
    or the signing fails, that error ends the request and nothing is
    posted.  Otherwise the body posted is the JSON text of the envelope
    with the session header written out in it, and the outcome is the
    classification of the reply to that post. *)
Theorem signed_request_steps (W : world) (account_key CA : string) (header : nat)
    (url : string) (payload : json) (return_codes : gmap Z (option string))
    (error_message : string) (st : state) (hj : list (string * json)) :
  snapshot depth (st_heap st) (Ref header) = Some (JObj hj) →
  let r := _send_signed_request W account_key CA header url payload return_codes
             error_message st in
  let asked := EvUrlopen (directory CA) None :: st_trace st in
  (∀ e, w_urlopen W (st_clock st) (directory CA) None = Raises e →
        fst r = Raise e ∧ st_trace (snd r) = asked ∧ st_files (snd r) = st_files st)
  ∧ (∀ code body info returncode out err,
       w_urlopen W (st_clock st) (directory CA) None = Resp code body info →
       let nonce := nonce_value info in
       let input := signing_input hj payload nonce in
       w_openssl W (S (st_clock st)) "dgst" ["-sha256"; "-sign"; account_key] (Some input)
         = (returncode, out, err) →
       (returncode ≠ 0%Z →
          fst r = Raise (OSError (Fmt "OpenSSL Error: {0}" [ABytes err]))
          ∧ st_trace (snd r) = sign_event account_key input :: asked
          ∧ st_files (snd r) = st_files st)
       ∧ (returncode = 0%Z →
          ∃ st', r = send_and_classify W url (signed_body hj payload nonce out)
                       return_codes error_message st'
                 ∧ st_trace st' = sign_event account_key input :: asked
                 ∧ st_clock st' = 2 + st_clock st
                 ∧ st_files st' = st_files st
                 ∧ st_heap st ⊆ st_heap st')).
Proof.
  intros Hheader r asked.
  destruct (build_envelope_cases W account_key CA header payload st hj Hheader)
    as (l' & h & d' & Hfresh & Hsub & Hbuild).
  assert (∀ d, st_heap st ⊆ <[l' := d]> h) as Hkept.
  { intros d. etrans; [exact Hsub |]. by apply insert_subseteq. }
  split.
  - intros e Hreply. rewrite Hreply in Hbuild.
    unfold r, _send_signed_request. erewrite bind_raises by exact Hbuild. done.
  - intros code body info returncode out err Hreply nonce input Hsigned.
    rewrite Hreply in Hbuild. cbv zeta in Hbuild. fold nonce input in Hbuild.
    rewrite Hsigned in Hbuild. cbv beta iota in Hbuild. split.
    + intros Hrc. apply Z.eqb_neq in Hrc. rewrite Hrc in Hbuild.
      unfold r, _send_signed_request. erewrite bind_raises by exact Hbuild. done.
    + intros ->. change (0 =? 0)%Z with true in Hbuild. cbv iota in Hbuild.
      exists (after [sign_event account_key input; EvUrlopen (directory CA) None] 2
                (with_heap (<[l' := setitem "nonce" (Lit nonce) d']> h) st)).
      split_and!; [| reflexivity | reflexivity | reflexivity | apply Hkept].
      unfold r, _send_signed_request. erewrite bind_returns by exact Hbuild.
      erewrite bind_returns; [reflexivity |].
      unfold dumps_dict, envelope_of. cbn [mapM snd fst after with_heap st_heap].
      rewrite (snapshot_mono depth (st_heap st) _ (Ref header) (JObj hj) (Hkept _) Hheader).
      by rewrite !snapshot_lit.
Qed.

Lemma signed_request_steps_witness :
  let W := sample_world plain_headers in
  let st := snd (sample_session plain_headers) in
  let payload := JObj [("resource", JStr "new-reg")] in
  snapshot depth (st_heap st) (Ref sample_header) = Some (JObj sample_header_json)
  ∧ ∃ st', _send_signed_request W "account.key" Demo.ca sample_header
             (Demo.ca +:+ "/acme/new-reg") payload registration_codes
             "Error registering: {code} {result}" st
           = send_and_classify W (Demo.ca +:+ "/acme/new-reg")
               (signed_body sample_header_json payload (JStr (Demo.nonce 1))
                  "signature-bytes")
               registration_codes "Error registering: {code} {result}" st'
           ∧ st_clock st' = 3.
Proof.
  intros W st payload.
  assert (snapshot depth (st_heap st) (Ref sample_header) = Some (JObj sample_header_json))
    as Hheader by (vm_compute; reflexivity).
  split; [exact Hheader |].
  destruct (signed_request_steps W "account.key" Demo.ca sample_header
              (Demo.ca +:+ "/acme/new-reg") payload registration_codes
              "Error registering: {code} {result}" st sample_header_json Hheader)
    as [_ Hsteps].
  destruct (Hsteps 200%Z "" [("Replay-Nonce", Demo.nonce 1)] 0%Z "signature-bytes" ""
              eq_refl eq_refl) as [_ Hpost].
  destruct (Hpost eq_refl) as (st' & Hrun & _ & Hclock & _).
  exists st'. split; [exact Hrun |]. rewrite Hclock. vm_compute. reflexivity.
Defined.

(** ** A status request that raises (lines 135-140) *)

(** X11. When the fetch of the challenge raises, the loop ends at once
    and the challenge file stays where it is.  For an [HTTPError] whose
    body is JSON the error is the one of line 139 with the code and the
    parsed body; if the body does not decode or parse, that failure is
    raised instead.  A [URLError] or another [OSError] has no [code], so
    the handler itself raises [AttributeError].  Any other exception is
    not caught. *)
Theorem poll_fetch_raises (utf8_decode : string → option string)
    (json_loads : string → option json) (W : world) (fuel : nat)
    (domain uri path : string) (st : state) (e : exn) :
  w_urlopen W (st_clock st) (_request uri) None = Raises e →
  let r := poll utf8_decode json_loads W (S fuel) domain uri path st in
  r = (Raise (poll_error utf8_decode json_loads e),
       after [EvUrlopen (_request uri) None] 1 st)
  ∧ st_files (snd r) = st_files st.
Proof.
  intros Hreply r.
  assert (r = (Raise (poll_error utf8_decode json_loads e),
               after [EvUrlopen (_request uri) None] 1 st)) as ->; [| done].
  unfold r. cbn [poll]. unfold decode, loads. unfold_m. rewrite urlopen_step, Hreply.
  destruct e; cbn [is_IOError poll_error]; try done.
  destruct (utf8_decode body) as [text|]; [| done].
  by destruct (json_loads text).
Qed.

Lemma poll_fetch_raises_witness :
  let r := poll Demo.ascii_decode Demo.parse (serving "abc.def") 1 "example.com"
             "https://ca.test/c/1" "/srv/acme/abc"
             (published "/srv/acme/abc" "abc.def" initial) in
  fst r = Raise AttributeError ∧ st_files (snd r) !! "/srv/acme/abc" = Some "abc.def".
Proof.
  intros r.
  destruct (poll_fetch_raises Demo.ascii_decode Demo.parse (serving "abc.def") 0
              "example.com" "https://ca.test/c/1" "/srv/acme/abc"
              (published "/srv/acme/abc" "abc.def" initial) (URLError "unreachable")
              eq_refl) as [Hrun Hfiles].
  fold r in Hrun, Hfiles. rewrite Hfiles. by rewrite Hrun.
Defined.

(** ** The steps that leave the files alone *)

Lemma keeps_files_ret {A} (a : A) : keeps_files (mret a).
Proof. done. Qed.

Lemma keeps_files_raise {A} (e : exn) : keeps_files (@raise A e).
Proof. done. Qed.

Lemma keeps_files_bind {A B} (m : M A) (k : A → M B) :
  keeps_files m → (∀ a, keeps_files (k a)) → keeps_files (m ≫= k).
Proof.
  intros Hm Hk st. unfold_m. specialize (Hm st).
  destruct (m st) as [[a | e |] st']; cbn in Hm |- *; try done.
  by rewrite Hk.
Qed.

Lemma keeps_files_try {A} (m : M A) (catches : exn → bool) (h : exn → M A) :
  keeps_files m → (∀ e, keeps_files (h e)) → keeps_files (try_except m catches h).
Proof.
  intros Hm Hh st. unfold try_except. specialize (Hm st).
  destruct (m st) as [[a | e |] st']; cbn in Hm |- *; try done.
  destruct (catches e); [by rewrite Hh | done].
Qed.

Lemma keeps_files_lift {A} (e : exn) (o : option A) : keeps_files (lift_option e o).
Proof. by destruct o. Qed.

Lemma keeps_files_emit (ev : event) : keeps_files (emit ev).
Proof. done. Qed.

Lemma keeps_files_log (msg : string) : keeps_files (log_info msg).
Proof. done. Qed.

Lemma keeps_files_tick : keeps_files tick.
Proof. done. Qed.

Lemma keeps_files_alloc (d : dict) : keeps_files (alloc d).
Proof. done. Qed.

Lemma keeps_files_read (l : nat) : keeps_files (read l).
Proof. intros st. unfold read. by destruct (st_heap st !! l). Qed.

Lemma keeps_files_store (l : nat) (key : string) (v : pyval) : keeps_files (store l key v).
Proof. intros st. unfold store. by destruct (st_heap st !! l). Qed.

Lemma keeps_files_dumps_value sort_keys isep ksep (v : pyval) :
  keeps_files (dumps_value sort_keys isep ksep v).
Proof. intros st. unfold dumps_value. by destruct (snapshot depth (st_heap st) v). Qed.

Lemma keeps_files_dumps_dict (d : dict) : keeps_files (dumps_dict d).
Proof. intros st. unfold dumps_dict. by destruct (mapM _ d). Qed.

Lemma keeps_files_deepcopy_fields (copy : pyval → M pyval) (d : dict) :
  (∀ v, keeps_files (copy v)) → keeps_files (deepcopy_fields copy d).
Proof.
  intros Hcopy. induction d as [|[k v] d IH]; [apply keeps_files_ret |].
  cbn [deepcopy_fields]. apply keeps_files_bind; [apply Hcopy | intros v'].
  apply keeps_files_bind; [apply IH | intros d'']. apply keeps_files_ret.
Qed.

Lemma keeps_files_deepcopy (fuel l : nat) : keeps_files (deepcopy fuel l).
Proof.
  revert l. induction fuel as [|fuel IH]; intros l; [apply keeps_files_raise |].
  rewrite deepcopy_succ. apply keeps_files_bind; [apply keeps_files_read | intros d].
  apply keeps_files_bind; [| intros d'; apply keeps_files_alloc].
  apply keeps_files_deepcopy_fields. intros [j | l']; [apply keeps_files_ret |].
  cbn [copy_value]. apply keeps_files_bind; [apply IH | intros l'']. apply keeps_files_ret.
Qed.

Lemma keeps_files_urlopen W req data : keeps_files (urlopen W req data).
Proof. intros st. rewrite urlopen_step. by destruct (w_urlopen W _ req data). Qed.

Lemma keeps_files_openssl W command options communicate :
  keeps_files (_openssl W command options communicate).
Proof.
  intros st. unfold _openssl. unfold_m. cbn.
  destruct (w_openssl W (st_clock st) command options communicate) as [[rc out] err].
  by destruct (rc =? 0)%Z.
Qed.

(** Takes a step apart along its binds and case distinctions; [known]
    closes the steps already dealt with. *)
Ltac keeps_basic :=
  first [ simple apply @keeps_files_ret | simple apply @keeps_files_raise
        | simple apply @keeps_files_lift | simple apply keeps_files_emit
        | simple apply keeps_files_log | simple apply keeps_files_tick
        | simple apply keeps_files_alloc | simple apply keeps_files_read
        | simple apply keeps_files_store | simple apply keeps_files_dumps_value
        | simple apply keeps_files_dumps_dict | simple apply keeps_files_deepcopy
        | simple apply keeps_files_urlopen | simple apply keeps_files_openssl ].

Ltac keeps_by known :=
  repeat first
    [ known
    | keeps_basic
    | simple apply @keeps_files_bind; [| intros ?]
    | simple apply @keeps_files_try; [| intros ?]
    | match goal with
      | |- keeps_files (match ?x with _ => _ end) => destruct x
      end ].

Ltac keeps := keeps_by fail.

Lemma keeps_files_classify return_codes error_message code shown result hdrs :
  keeps_files (classify return_codes error_message code shown result hdrs).
Proof. unfold classify. keeps. Qed.

Lemma keeps_files_send W url signed_request return_codes error_message :
  keeps_files (send_and_classify W url signed_request return_codes error_message).
Proof. unfold send_and_classify. keeps_by ltac:(simple apply keeps_files_classify). Qed.

Lemma keeps_files_build W account_key CA header payload :
  keeps_files (build_envelope W account_key CA header payload).
Proof. unfold build_envelope. cbv zeta. keeps. Qed.

Lemma keeps_files_signed W account_key CA header url payload return_codes error_message :
  keeps_files (_send_signed_request W account_key CA header url payload return_codes
                 error_message).
Proof.
  unfold _send_signed_request.
  keeps_by ltac:(first [simple apply keeps_files_build | simple apply keeps_files_send]).
Qed.

Ltac keeps_requests :=
  keeps_by ltac:(first [ simple apply keeps_files_signed
                       | simple apply keeps_files_classify ]).

Lemma keeps_files_select (cs : list json) :
  keeps_files
    ((fix select (cs : list json) : M (list json) :=
        match cs with
        | [] => ret []
        | c :: cs' =>
            type ← subscript "type" c;
            rest ← select cs';
            ret (if is_str "http-01" (Some type) then c :: rest else rest)
        end) cs).
Proof.
  induction cs as [|c cs IH]; [apply (keeps_files_ret []) |].
  apply keeps_files_bind; [unfold subscript; keeps | intros type].
  apply keeps_files_bind; [exact IH | intros rest]. apply keeps_files_ret.
Qed.

Lemma keeps_files_fetch_links W (links : list string) :
  ∀ certchain, keeps_files (fetch_links W links certchain).
Proof.
  induction links as [|link links IH]; intros certchain; [apply keeps_files_ret |].
  cbn [fetch_links]. destruct (search link_up_re link); [| apply IH].
  keeps. apply IH.
Qed.

Lemma keeps_files_parse_key sha256 utf8_decode W account_key :
  keeps_files (parse_account_key sha256 utf8_decode W account_key).
Proof. unfold parse_account_key, decode. cbv zeta. keeps. Qed.

Lemma keeps_files_parse_csr utf8_decode W csr : keeps_files (parse_csr utf8_decode W csr).
Proof. unfold parse_csr, decode. keeps. Qed.

Lemma keeps_files_register W account_key account_email CA header :
  keeps_files (register W account_key account_email CA header).
Proof. unfold register, terms_location. cbv zeta. keeps_requests. Qed.

Lemma keeps_files_request_challenge utf8_decode json_loads W account_key CA header domain :
  keeps_files (request_challenge utf8_decode json_loads W account_key CA header domain).
Proof.
  unfold request_challenge, decode, loads, subscript, iterate.
  keeps_by ltac:(first [ simple apply keeps_files_signed
                       | simple apply keeps_files_select ]).
Qed.

Lemma keeps_files_issue W account_key csr CA chain header :
  keeps_files (issue W account_key csr CA chain header).
Proof.
  unfold issue, sign_certificate, encode_chain, assemble_chain. cbv zeta.
  keeps_by ltac:(first [ simple apply keeps_files_signed
                       | simple apply keeps_files_fetch_links ]).
Qed.

Lemma keeps_files_run {A} (m : M A) (st st' : state) (o : outcome A) :
  keeps_files m → m st = (o, st') → st_files st' = st_files st.
Proof. intros Hm Hrun. specialize (Hm st). by rewrite Hrun in Hm. Qed.

(** X12. The challenge files are touched by nothing but the answering of
    a challenge: parsing the key and the request, registering, asking for
    a challenge, every signed request and the issuing of the certificate
    with its chain leave the files exactly as they are, however they end. *)
Theorem files_left_alone (sha256 : string → string)
    (utf8_decode : string → option string) (json_loads : string → option json)
    (W : world) (account_key csr : string) (account_email : option string)
    (CA : string) (chain : bool) (header : nat) :
  keeps_files (parse_account_key sha256 utf8_decode W account_key)
  ∧ keeps_files (parse_csr utf8_decode W csr)
  ∧ keeps_files (register W account_key account_email CA header)
  ∧ (∀ url payload return_codes error_message,
       keeps_files (_send_signed_request W account_key CA header url payload
                      return_codes error_message))
  ∧ (∀ domain,
       keeps_files (request_challenge utf8_decode json_loads W account_key CA header domain))
  ∧ keeps_files (issue W account_key csr CA chain header).
Proof.
  split_and!.
  - apply keeps_files_parse_key.
  - apply keeps_files_parse_csr.
  - apply keeps_files_register.
  - intros. apply keeps_files_signed.
  - intros. apply keeps_files_request_challenge.
  - apply keeps_files_issue.
Qed.

(** ** Trimming (line 122) *)

Lemma lstrip_spaces (lead s : string) :
  str_forall is_space lead = true → lstrip (lead +:+ s) = lstrip s.
Proof.
  induction lead as [|c lead IH]; [done |]. cbn [str_forall].
  intros [Hc Hlead]%andb_true_iff. rewrite append_cons. cbn [lstrip]. rewrite Hc. by apply IH.
Qed.

Lemma lstrip_bare (s : string) : starts_bare s = true → lstrip s = s.
Proof. destruct s as [|c s]; [done |]. cbn. by destruct (is_space c). Qed.

Lemma rstrip_all_spaces (trail : string) :
  str_forall is_space trail = true → rstrip trail = "".
Proof.
  induction trail as [|c trail IH]; [done |]. cbn [str_forall].
  intros [Hc Htrail]%andb_true_iff. cbn [rstrip]. by rewrite IH, Hc.
Qed.

Lemma rstrip_bare (s : string) : ends_bare s = true → rstrip s = s.
Proof.
  unfold ends_bare. induction s as [|c s IH]; [done |].
  destruct s as [|d s].
  - cbn. by destruct (is_space c).
  - change (last_char (String c (String d s))) with (last_char (String d s)).
    intros H. specialize (IH H).
    change (rstrip (String c (String d s)))
      with (match rstrip (String d s) with
            | EmptyString => if is_space c then EmptyString else str1 c
            | r => String c r
            end).
    by rewrite IH.
Qed.

Lemma rstrip_spaces (s trail : string) :
  s ≠ "" → ends_bare s = true → str_forall is_space trail = true →
  rstrip (s +:+ trail) = s.
Proof.
  intros Hne Hs Htrail. induction s as [|c s IH]; [done |].
  rewrite append_cons.
  change (rstrip (String c (s +:+ trail)))
    with (match rstrip (s +:+ trail) with
          | EmptyString => if is_space c then EmptyString else str1 c
          | r => String c r
          end).
  destruct s as [|d s].
  - change ("" +:+ trail) with trail. rewrite rstrip_all_spaces by done.
    unfold ends_bare in Hs. cbn in Hs. by destruct (is_space c).
  - rewrite IH; [done | done |].
    unfold ends_bare in *. exact Hs.
Qed.

(** [strip] takes away the whitespace around a text and nothing else. *)
Lemma strip_around (lead core trail : string) :
  str_forall is_space lead = true → str_forall is_space trail = true →
  starts_bare core = true → ends_bare core = true →
  strip (lead +:+ core +:+ trail) = core.
Proof.
  intros Hlead Htrail Hstart Hend. unfold strip. rewrite lstrip_spaces by done.
  destruct core as [|c core].
  - change ("" +:+ trail) with trail.
    assert (lstrip trail = "") as ->; [| done].
    clear -Htrail. induction trail as [|c trail IH]; [done |].
    cbn [str_forall] in Htrail. apply andb_true_iff in Htrail as [Hc Htrail].
    cbn [lstrip]. rewrite Hc. by apply IH.
  - rewrite lstrip_bare by (by rewrite append_cons).
    by apply rstrip_spaces.
Qed.

(** ** Publishing and checking the file (lines 112-131) *)

Section answering.
Context (utf8_decode : string → option string) (json_loads : string → option json)
        (W : world) (account_key acme_dir CA : string) (fuel header : nat)
        (thumbprint domain raw_token : string) (fields : list (string * json))
        (st : state).

Abbreviation keyauth := (keyauthorization_of raw_token thumbprint).
Abbreviation path := (wellknown_path_of acme_dir raw_token).
Abbreviation url := (wellknown_url_of domain raw_token).
Abbreviation answer :=
  (answer_challenge utf8_decode json_loads W account_key acme_dir CA fuel header
     thumbprint domain (JObj fields)).

(** The answer to a challenge with a token, from the check on, once the
    file is written. *)
Lemma answer_from_check :
  assoc "token" fields = Some (JStr raw_token) →
  w_open W (st_clock st) path = None →
  answer st
  = (self_check utf8_decode W path url keyauth;;
     uri ← subscript "uri" (JObj fields);
     let uri := url_text W uri in
     _send_signed_request W account_key CA header uri (notification keyauth)
       {[ 202%Z := None ]} "Error triggering challenge: {code} {result}";;
     poll utf8_decode json_loads W fuel domain uri path) (published path keyauth st).
Proof.
  intros Htoken Hopen. unfold answer_challenge. cbn [subscript]. rewrite Htoken.
  unfold write_file, as_str. unfold_m.
  fold (wellknown_path_of acme_dir raw_token). by rewrite Hopen.
Qed.

Lemma answer_unwritable (e : exn) :
  assoc "token" fields = Some (JStr raw_token) →
  w_open W (st_clock st) path = Some e →
  answer st = (Raise e, st).
Proof.
  intros Htoken Hopen. unfold answer_challenge. cbn [subscript]. rewrite Htoken.
  unfold write_file, as_str. unfold_m.
  fold (wellknown_path_of acme_dir raw_token). by rewrite Hopen.
Qed.

(** X13. When the authority does not accept the notification, or the
    signed request fails on the way, the error of the request ends the
    answer and the challenge file, written and checked by then, stays in
    place with the key authorization in it: nothing removes it. *)
Theorem rejected_notification_leaves_file (target : json) (code : Z)
    (body text : string) (hdrs : headers) (e : exn) (st' : state) :
  assoc "token" fields = Some (JStr raw_token) →
  w_open W (st_clock st) path = None →
  assoc "uri" fields = Some target →
  w_urlopen W (st_clock st) (_request url) None = Resp code body hdrs →
  utf8_decode body = Some text →
  strip text = keyauth →
  _send_signed_request W account_key CA header (url_text W target) (notification keyauth)
    {[ 202%Z := None ]} "Error triggering challenge: {code} {result}"
    (checked path keyauth url st) = (Raise e, st') →
  answer st = (Raise e, st')
  ∧ st_files st' = <[path := keyauth]> (st_files st)
  ∧ st_files st' !! path = Some keyauth.
Proof.
  intros Htoken Hopen Huri Hreply Hdecode Hstrip Hnotify.
  assert (st_files st' = <[path := keyauth]> (st_files st)) as Hfiles.
  { pose proof (keeps_files_signed W account_key CA header (url_text W target)
                  (notification keyauth)
                  {[ 202%Z := None ]} "Error triggering challenge: {code} {result}"
                  (checked path keyauth url st)) as Hkeep.
    by rewrite Hnotify in Hkeep. }
  split_and!; [| done | by rewrite Hfiles, lookup_insert_eq].
  rewrite answer_from_check by done.
  erewrite bind_returns; [| by eapply self_check_pass].
  cbn [subscript]. rewrite Huri. unfold_m. cbv zeta.
  fold (checked path keyauth url st). by rewrite Hnotify.
Qed.

(** X14. The check of the written file removes it only for the errors it
    catches.  When the fetch raises an exception that is neither an
    [IOError] nor an [AssertionError], or returns a body that does not
    decode, that exception ends the answer, nothing is sent to the
    authority and the file stays in place. *)
Theorem escaped_check_leaves_file (e : exn) :
  assoc "token" fields = Some (JStr raw_token) →
  w_open W (st_clock st) path = None →
  match w_urlopen W (st_clock st) (_request url) None with
  | Raises raised => raised = e ∧ is_IOError e = false ∧ e ≠ AssertionError
  | Resp _ body _ => utf8_decode body = None ∧ e = UnicodeDecodeError
  end →
  answer st = (Raise e, checked path keyauth url st)
  ∧ st_files (checked path keyauth url st) !! path = Some keyauth.
Proof.
  intros Htoken Hopen Hreply. split; [| apply lookup_insert_eq].
  rewrite answer_from_check by done.
  erewrite bind_raises; [reflexivity |].
  unfold self_check, decode. unfold_m. rewrite urlopen_step. cbn [published st_clock].
  destruct (w_urlopen W (st_clock st) (_request url) None) as [c body h | raised].
  - destruct Hreply as [-> ->]. done.
  - destruct Hreply as (-> & Hio & Hassert). rewrite Hio. by destruct e.
Qed.

(** X19. When the challenge file cannot be written (the path is the
    directory itself for an empty token, or too long, or not writable),
    the error of [open] ends the answer at once: no file is published,
    nothing is fetched and nothing is sent to the authority. *)
Theorem unwritable_file_stops_answer (e : exn) :
  assoc "token" fields = Some (JStr raw_token) →
  w_open W (st_clock st) path = Some e →
  answer st = (Raise e, st)
  ∧ (raw_token = "" → path = acme_dir +:+ path_separator acme_dir).
Proof.
  intros Htoken Hopen. split; [by apply answer_unwritable |]. intros ->.
  unfold wellknown_path_of, os_path_join, path_separator.
  change (sanitize_token "") with "". change (startswith "/" "") with false. cbv iota.
  destruct (String.eqb acme_dir "") eqn:Hempty.
  - by apply String.eqb_eq in Hempty as ->.
  - destruct (startswith "/" (String.rev acme_dir)); [done |].
    by rewrite <- (append_assoc acme_dir "/" ""), append_empty.
Qed.

(** X20. Once the file is written it is checked at
    [http://<domain>/.well-known/acme-challenge/<token>].  The check
    passes exactly when the fetch returns a body whose decoded text, with
    the whitespace around it taken away, equals the key authorization.
    When the fetch raises an [IOError] or the trimmed text differs, the
    file is removed and the domain fails with the error naming the path
    and the URL; the only effects are then the write, the fetch and the
    removal: no request is sent to the authority.  When the check passes,
    the notification follows, sent to the [uri] of the challenge. *)
Theorem self_verification :
  assoc "token" fields = Some (JStr raw_token) →
  w_open W (st_clock st) path = None →
  let reply := w_urlopen W (st_clock st) (_request url) None in
  let passes := ∃ code body hdrs text,
                  reply = Resp code body hdrs ∧ utf8_decode body = Some text
                  ∧ strip text = keyauth in
  (url = "http://" +:+ domain +:+ "/.well-known/acme-challenge/" +:+ sanitize_token raw_token
   ∧ ∀ lead core trail,
       str_forall is_space lead = true → str_forall is_space trail = true →
       starts_bare core = true → ends_bare core = true →
       strip (lead +:+ core +:+ trail) = core)
  ∧ (fst (self_check utf8_decode W path url keyauth (published path keyauth st)) = Ret tt
     ↔ passes)
  ∧ ((∃ e, reply = Raises e ∧ is_IOError e = true)
     ∨ (∃ code body hdrs text,
          reply = Resp code body hdrs ∧ utf8_decode body = Some text
          ∧ strip text ≠ keyauth) →
     answer st = (Raise (check_failed path url), withdrawn path keyauth url st))
  ∧ (passes →
     answer st
     = (uri ← subscript "uri" (JObj fields);
        let uri := url_text W uri in
        _send_signed_request W account_key CA header uri (notification keyauth)
          {[ 202%Z := None ]} "Error triggering challenge: {code} {result}";;
        poll utf8_decode json_loads W fuel domain uri path)
         (checked path keyauth url st)).
Proof.
  intros Htoken Hopen reply passes. split_and!.
  - reflexivity.
  - apply strip_around.
  - split.
    + intros H. by apply self_check_passes_only in H.
    + intros (code & body & hdrs & text & Hr & Hd & Hs).
      by erewrite self_check_pass.
  - intros Hfail. rewrite answer_from_check by done.
    erewrite bind_raises; [reflexivity |].
    erewrite self_check_fail; [| by apply lookup_insert_eq | exact Hfail].
    unfold withdrawn, published. cbn. by rewrite delete_insert_eq.
  - intros (code & body & hdrs & text & Hr & Hd & Hs). rewrite answer_from_check by done.
    erewrite bind_returns; [reflexivity |]. by erewrite self_check_pass.
Qed.

End answering.

Lemma rejected_notification_leaves_file_witness :
  let W := rejecting "abc.def" in
  let st := snd (sample_session plain_headers) in
  let r := answer_challenge Demo.ascii_decode Demo.parse W "account.key" "/srv/acme"
             "https://ca.test" 1 sample_header "def" "example.com"
             (JObj sample_challenge) st in
  fst r = Raise (ValueError (Fmt "Error triggering challenge: {code} {result}"
                               [ACode (Some 400%Z); ABytes "malformed"]))
  ∧ st_files (snd r) !! "/srv/acme/abc" = Some "abc.def".
Proof.
  intros W st r.
  destruct (rejected_notification_leaves_file Demo.ascii_decode Demo.parse W "account.key"
              "/srv/acme" "https://ca.test" 1 sample_header "def" "example.com" "abc"
              sample_challenge st (JStr "https://ca.test/c/1") 200%Z "abc.def" "abc.def" []
              (ValueError (Fmt "Error triggering challenge: {code} {result}"
                             [ACode (Some 400%Z); ABytes "malformed"]))
              (snd r) eq_refl eq_refl eq_refl eq_refl eq_refl eq_refl)
    as (Hrun & _ & Hfile).
  - vm_compute. reflexivity.
  - fold r in Hrun. split; [by rewrite Hrun | exact Hfile].
Defined.

Lemma escaped_check_leaves_file_witness :
  let W := serving (String (Codec.chr 255) "") in
  let r := answer_challenge Demo.ascii_decode Demo.parse W "account.key" "/srv/acme"
             "https://ca.test" 1 0 "def" "example.com" (JObj sample_challenge) initial in
  fst r = Raise UnicodeDecodeError
  ∧ st_files (snd r) !! "/srv/acme/abc" = Some "abc.def".
Proof.
  intros W r.
  destruct (escaped_check_leaves_file Demo.ascii_decode Demo.parse W "account.key"
              "/srv/acme" "https://ca.test" 1 0 "def" "example.com" "abc"
              sample_challenge initial UnicodeDecodeError eq_refl eq_refl)
    as (Hrun & Hfile).
  - split; reflexivity.
  - fold r in Hrun. rewrite Hrun. split; [reflexivity | exact Hfile].
Defined.

Lemma unwritable_file_stops_answer_witness :
  let r := answer_challenge Demo.ascii_decode Demo.parse (read_only "abc.def")
             "account.key" "/srv/acme/" "https://ca.test" 1 0 "def" "example.com"
             (JObj [("type", JStr "http-01"); ("token", JStr "");
                    ("uri", JStr "https://ca.test/c/1")]) initial in
  r = (Raise (OSError (Fmt "Is a directory: {0}" [AStr "/srv/acme/"])), initial).
Proof.
  intros r.
  exact (proj1 (unwritable_file_stops_answer Demo.ascii_decode Demo.parse
                  (read_only "abc.def") "account.key" "/srv/acme/" "https://ca.test" 1 0
                  "def" "example.com" ""
                  [("type", JStr "http-01"); ("token", JStr "");
                   ("uri", JStr "https://ca.test/c/1")] initial
                  (OSError (Fmt "Is a directory: {0}" [AStr "/srv/acme/"]))
                  eq_refl eq_refl)).
Defined.

Lemma self_verification_witness :
  let content := " " +:+ "abc.def" +:+ String (Codec.chr 9) (str1 nl) in
  strip content = "abc.def"
  ∧ fst (answer_challenge Demo.ascii_decode Demo.parse (serving content) "account.key"
           "/srv/acme" "https://ca.test" 1 0 "def" "example.com" (JObj sample_challenge)
           initial)
    ≠ Raise (check_failed "/srv/acme/abc"
               "http://example.com/.well-known/acme-challenge/abc")
  ∧ answer_challenge Demo.ascii_decode Demo.parse (serving "abc.deg") "account.key"
      "/srv/acme" "https://ca.test" 1 0 "def" "example.com" (JObj sample_challenge) initial
    = (Raise (check_failed "/srv/acme/abc"
                "http://example.com/.well-known/acme-challenge/abc"),
       {| st_heap := ∅; st_files := ∅;
          st_trace := [ EvRemove "/srv/acme/abc";
                        EvUrlopen (_request "http://example.com/.well-known/acme-challenge/abc") None;
                        EvWrite "/srv/acme/abc" "abc.def" ];
          st_clock := 1 |}).
Proof.
  intros content.
  destruct (self_verification Demo.ascii_decode Demo.parse (serving content)
              "account.key" "/srv/acme" "https://ca.test" 1 0 "def" "example.com"
              "abc" sample_challenge initial eq_refl eq_refl)
    as ((_ & Hstrip) & _ & _ & Hpass).
  destruct (self_verification Demo.ascii_decode Demo.parse (serving "abc.deg")
              "account.key" "/srv/acme" "https://ca.test" 1 0 "def" "example.com"
              "abc" sample_challenge initial eq_refl eq_refl)
    as (_ & _ & Hfail & _).
  assert (strip content = "abc.def") as Hcontent
    by (apply (Hstrip " " "abc.def" (String (Codec.chr 9) (str1 nl))); reflexivity).
  split_and!; [exact Hcontent | |].
  - rewrite Hpass; [vm_compute; discriminate |].
    exists 200%Z, content, [], content. by split_and!.
  - rewrite Hfail; [reflexivity |].
    right. exists 200%Z, "abc.deg", [], "abc.deg". by split_and!.
Defined.

(** ** The loop over the domains (lines 102-149) *)

Lemma for_each_app {A} (body : A → M unit) (xs ys : list A) (st : state) :
  for_each (xs ++ ys) body st = (for_each xs body;; for_each ys body) st.
Proof.
  revert st. induction xs as [|x xs IH]; intros st; [done |].
  cbn [app for_each]. unfold_m. destruct (body x st) as [[[] | e |] st1]; [| done | done].
  rewrite IH. by unfold_m.
Qed.

(** X15. The first domain whose verification fails ends the run with
    that failure, in the state the failure left: the domains after it are
    not tried and no certificate is asked for. *)
Theorem failing_domain_stops_run (sha256 : string → string)
    (utf8_decode : string → option string) (json_loads : string → option json)
    (W : world) (account_key csr acme_dir : string) (account_email : option string)
    (CA : string) (chain : bool) (fuel header : nat) (thumbprint : string)
    (domains : gset string) (verified later : list string) (failing : string)
    (registered : string * headers) (e : exn) (st0 st1 st2 st3 st4 st5 : state) :
  parse_account_key sha256 utf8_decode W account_key st0 = (Ret (header, thumbprint), st1) →
  parse_csr utf8_decode W csr st1 = (Ret domains, st2) →
  register W account_key account_email CA header st2 = (Ret registered, st3) →
  elements domains = (verified ++ failing :: later)%list →
  let verify := verify_domain utf8_decode json_loads W account_key acme_dir CA fuel
                  header thumbprint in
  for_each verified verify st3 = (Ret tt, st4) →
  verify failing st4 = (Raise e, st5) →
  for_each (elements domains) verify st3 = (Raise e, st5)
  ∧ get_crt sha256 utf8_decode json_loads W account_key csr acme_dir account_email
      CA chain fuel st0 = (Raise e, st5).
Proof.
  intros Hkey Hcsr Hreg Hsplit verify Hverified Hfails.
  assert (for_each (elements domains) verify st3 = (Raise e, st5)) as Hloop.
  { rewrite Hsplit, for_each_app. erewrite bind_returns by exact Hverified.
    cbn [for_each]. by erewrite bind_raises. }
  split; [done |]. unfold get_crt.
  erewrite bind_returns by exact Hkey. cbn beta iota.
  erewrite bind_returns by exact Hcsr.
  erewrite bind_returns by exact Hreg.
  by erewrite bind_raises.
Qed.

Lemma failing_domain_stops_run_witness :
  let W := Demo.world_of Demo.csr_text (fun _ => "invalid") [] in
  let key := parse_account_key Demo.digest Demo.ascii_decode W "account.key" initial in
  let names := parse_csr Demo.ascii_decode W "domain.csr" (snd key) in
  let reg := register W "account.key" None Demo.ca sample_header (snd names) in
  let failed := verify_domain Demo.ascii_decode Demo.parse W "account.key"
                  "/var/www/challenges/" Demo.ca 5 sample_header Demo.thumbprint
                  "www.example.com" (snd reg) in
  elements (find_domains Demo.csr_text) = ["www.example.com"; "example.com"]
  ∧ Demo.run Demo.csr_text (fun _ => "invalid") [] false 5
    = (Raise (did_not_pass "www.example.com" (Demo.status_json "invalid")), snd failed).
Proof.
  intros W key names reg failed.
  assert (elements (find_domains Demo.csr_text) = ["www.example.com"; "example.com"])
    as Hnames by (vm_compute; reflexivity).
  split; [exact Hnames |].
  refine (proj2 (failing_domain_stops_run Demo.digest Demo.ascii_decode Demo.parse W
                   "account.key" "domain.csr" "/var/www/challenges/" None Demo.ca false
                   5 sample_header Demo.thumbprint (find_domains Demo.csr_text)
                   [] ["example.com"] "www.example.com" ("already registered", [])
                   (did_not_pass "www.example.com" (Demo.status_json "invalid"))
                   initial (snd key) (snd names) (snd reg) (snd reg) (snd failed)
                   _ _ _ Hnames _ _)); vm_compute; reflexivity.
Defined.

(** ** The choice of the challenge (lines 105-111) *)

Abbreviation select_http01 :=
  (fix select (cs : list json) : M (list json) :=
     match cs with
     | [] => ret []
     | c :: cs' =>
         type ← subscript "type" c;
         rest ← select cs';
         ret (if is_str "http-01" (Some type) then c :: rest else rest)
     end).

Lemma subscript_type (c : json) (st : state) :
  subscript "type" c st
  = match getitem "type" c with
    | Some type => (Ret type, st)
    | None => (Raise (untyped_error c), st)
    end.
Proof. destruct c as [| | | | |fs]; try done. cbn. by destruct (assoc "type" fs). Qed.

Lemma select_typed (items : list json) (st : state) :
  Forall (fun c => is_Some (getitem "type" c)) items →
  select_http01 items st = (Ret (List.filter is_http01 items), st).
Proof.
  induction 1 as [|c items [type Htype] _ IH]; [done |].
  change (select_http01 (c :: items) st)
    with ((type ← subscript "type" c;
           rest ← select_http01 items;
           ret (if is_str "http-01" (Some type) then c :: rest else rest)) st).
  erewrite bind_returns by (by rewrite subscript_type, Htype).
  erewrite bind_returns by exact IH.
  change (List.filter is_http01 (c :: items))
    with (if is_str "http-01" (getitem "type" c)
          then c :: List.filter is_http01 items else List.filter is_http01 items).
  by rewrite Htype.
Qed.

Lemma select_untyped (typed rest : list json) (bad : json) (st : state) :
  Forall (fun c => is_Some (getitem "type" c)) typed →
  getitem "type" bad = None →
  select_http01 (typed ++ bad :: rest)%list st = (Raise (untyped_error bad), st).
Proof.
  intros Htyped Hbad. induction Htyped as [|c items [type Htype] _ IH].
  - change (select_http01 ([] ++ bad :: rest)%list st)
      with ((type ← subscript "type" bad;
             rest ← select_http01 rest;
             ret (if is_str "http-01" (Some type) then bad :: rest else rest)) st).
    erewrite bind_raises; [reflexivity |]. by rewrite subscript_type, Hbad.
  - change (select_http01 ((c :: items) ++ bad :: rest)%list st)
      with ((type ← subscript "type" c;
             rest ← select_http01 (items ++ bad :: rest)%list;
             ret (if is_str "http-01" (Some type) then c :: rest else rest)) st).
    erewrite bind_returns by (by rewrite subscript_type, Htype).
    by erewrite bind_raises.
Qed.

Lemma head_filter {A} (p : A → bool) (l : list A) : head (List.filter p l) = List.find p l.
Proof. induction l as [|x l IH]; [done |]. cbn. by destruct (p x). Qed.

(** X16. Of the challenges the authority offers for a domain, the first
    one of type [http-01] is taken, whatever comes before or after it; if
    none has that type the domain fails with [IndexError].  Every entry is
    asked for its type first: an entry without one makes the choice fail,
    with [KeyError] for an object and [TypeError] otherwise, even when an
    [http-01] challenge is offered as well. *)
Theorem challenge_choice (utf8_decode : string → option string)
    (json_loads : string → option json) (W : world) (account_key CA : string)
    (header : nat) (domain result text : string) (hdrs : headers) (authz : json)
    (items : list json) (st st' : state) :
  _send_signed_request W account_key CA header (CA +:+ "/acme/new-authz")
    (JObj [("resource", JStr "new-authz");
           ("identifier", JObj [("type", JStr "dns"); ("value", JStr domain)])])
    {[ 201%Z := None ]} "Error requesting challenges: {code} {result}" st
  = (Ret (result, hdrs), st') →
  utf8_decode result = Some text →
  json_loads text = Some authz →
  getitem "challenges" authz = Some (JArr items) →
  let run := request_challenge utf8_decode json_loads W account_key CA header domain st in
  (Forall (fun c => is_Some (getitem "type" c)) items →
     run = match List.find is_http01 items with
           | Some challenge => (Ret challenge, st')
           | None => (Raise IndexError, st')
           end)
  ∧ (∀ typed bad rest,
       items = (typed ++ bad :: rest)%list →
       Forall (fun c => is_Some (getitem "type" c)) typed →
       getitem "type" bad = None →
       run = (Raise (untyped_error bad), st')).
Proof.
  intros Hsent Hdecode Hloads Hoffered run.
  assert (run = (candidates ← mret items;
                 http01 ← select_http01 candidates;
                 lift_option IndexError (head http01)) st') as ->.
  { unfold run, request_challenge. erewrite bind_returns by exact Hsent.
    cbn beta iota. unfold decode, loads. rewrite Hdecode. cbn [lift_option].
    erewrite bind_returns by reflexivity. rewrite Hloads. cbn [lift_option].
    erewrite bind_returns by reflexivity.
    destruct authz as [| | | | |fs]; try done. cbn [getitem] in Hoffered.
    cbn [subscript]. rewrite Hoffered. cbn [lift_option].
    erewrite bind_returns by reflexivity. reflexivity. }
  erewrite bind_returns by reflexivity. split.
  - intros Htyped. erewrite bind_returns by (by apply select_typed).
    rewrite head_filter. by destruct (List.find is_http01 items).
  - intros typed bad rest -> Htyped Hbad.
    erewrite bind_raises; [reflexivity |]. by apply select_untyped.
Qed.

Lemma challenge_choice_witness :
  let W := sample_world plain_headers in
  let st := snd (sample_session plain_headers) in
  fst (request_challenge Demo.ascii_decode Demo.parse W "account.key" Demo.ca
         sample_header "example.com" st)
  = Ret Demo.challenge_json.
Proof.
  intros W st.
  set (sent := _send_signed_request W "account.key" Demo.ca sample_header
                 (Demo.ca +:+ "/acme/new-authz")
                 (JObj [("resource", JStr "new-authz");
                        ("identifier", JObj [("type", JStr "dns");
                                             ("value", JStr "example.com")])])
                 {[ 201%Z := None ]} "Error requesting challenges: {code} {result}" st).
  destruct (challenge_choice Demo.ascii_decode Demo.parse W "account.key" Demo.ca
              sample_header "example.com" (dumps Demo.authz_json) (dumps Demo.authz_json)
              [] Demo.authz_json
              [JObj [("type", JStr "dns-01"); ("token", JStr "other")]; Demo.challenge_json]
              st (snd sent)) as [Hchoice _].
  - vm_compute. reflexivity.
  - reflexivity.
  - reflexivity.
  - reflexivity.
  - rewrite Hchoice; [reflexivity |]. repeat constructor; by eexists.
Defined.

(** ** What a run that returns leaves behind (lines 102-167) *)

Lemma bind_ret_inv {A B} (m : M A) (k : A → M B) (st st' : state) (b : B) :
  (m ≫= k) st = (Ret b, st') →
  ∃ a st1, m st = (Ret a, st1) ∧ k a st1 = (Ret b, st').
Proof.
  unfold_m. destruct (m st) as [[a | e |] st1]; try done. intros H. by exists a, st1.
Qed.

(** A loop that returns has removed the file. *)
Lemma poll_returns_files utf8_decode json_loads W fuel domain uri path st st' content :
  st_files st !! path = Some content →
  poll utf8_decode json_loads W fuel domain uri path st = (Ret tt, st') →
  st_files st' = delete path (st_files st).
Proof.
  intros Hfile Hrun.
  destruct (poll_returns_only utf8_decode json_loads W domain uri path fuel st)
    as (k & Hk & Hpending & Hvalid); [by rewrite Hrun |].
  rewrite (poll_until_valid utf8_decode json_loads W domain uri path k st fuel content
             Hpending Hvalid Hfile Hk) in Hrun.
  by injection Hrun as <-.
Qed.

(** An answer that returns has published one file and removed it. *)
Lemma answer_returns_files utf8_decode json_loads W account_key acme_dir CA fuel header
    thumbprint domain challenge st st' :
  answer_challenge utf8_decode json_loads W account_key acme_dir CA fuel header
    thumbprint domain challenge st = (Ret tt, st') →
  ∃ path, st_files st' = delete path (st_files st).
Proof.
  intros Hrun.
  assert (∃ fields raw_token,
            challenge = JObj fields ∧ assoc "token" fields = Some (JStr raw_token))
    as (fields & raw_token & -> & Htoken).
  { unfold answer_challenge in Hrun.
    apply bind_ret_inv in Hrun as (token & st1 & Hsub & Hrun).
    apply bind_ret_inv in Hrun as (text & st2 & Hstr & _).
    destruct challenge as [| | | | |fields]; try done. cbn [subscript] in Hsub.
    destruct (assoc "token" fields) as [j|] eqn:Htok; [| done]. injection Hsub as <- <-.
    destruct j as [| | |raw| |]; try done. by exists fields, raw. }
  exists (wellknown_path_of acme_dir raw_token).
  destruct (w_open W (st_clock st) (wellknown_path_of acme_dir raw_token)) as [e|] eqn:Hopen.
  { rewrite (answer_unwritable _ _ _ _ _ _ _ _ _ _ _ _ _ e Htoken Hopen) in Hrun.
    discriminate Hrun. }
  rewrite (answer_from_check _ _ _ _ _ _ _ _ _ _ _ _ _ Htoken Hopen) in Hrun.
  apply bind_ret_inv in Hrun as ([] & st1 & Hcheck & Hrun).
  pose proof (f_equal fst Hcheck) as Hpass. cbn [fst] in Hpass.
  apply self_check_passes_only in Hpass
    as (code & body & hdrs & text & Hreply & Hdecode & Hstrip).
  rewrite (self_check_pass utf8_decode W _ _ _ _ code body hdrs text Hreply Hdecode Hstrip)
    in Hcheck.
  injection Hcheck as <-.
  apply bind_ret_inv in Hrun as (found & st2 & Hfound & Hrun).
  cbv zeta in Hrun.
  apply bind_ret_inv in Hrun as (sent & st4 & Hsent & Hrun).
  assert (st2 = checked (wellknown_path_of acme_dir raw_token)
                  (keyauthorization_of raw_token thumbprint)
                  (wellknown_url_of domain raw_token) st) as ->.
  { cbn [subscript] in Hfound. destruct (assoc "uri" fields); [| done].
    by injection Hfound as _ <-. }
  pose proof (keeps_files_run _ _ _ _ (keeps_files_signed _ _ _ _ _ _ _ _) Hsent) as Hkept.
  rewrite (poll_returns_files _ _ _ _ _ _ _ _ _ (keyauthorization_of raw_token thumbprint)
             ltac:(rewrite Hkept; apply lookup_insert_eq) Hrun).
  rewrite Hkept. cbn [checked after published st_files]. by rewrite delete_insert_eq.
Qed.

Lemma verify_returns_files utf8_decode json_loads W account_key acme_dir CA fuel header
    thumbprint domain st st' :
  verify_domain utf8_decode json_loads W account_key acme_dir CA fuel header
    thumbprint domain st = (Ret tt, st') →
  st_files st' ⊆ st_files st.
Proof.
  unfold verify_domain. intros Hrun.
  apply bind_ret_inv in Hrun as ([] & st1 & Hlog & Hrun).
  apply bind_ret_inv in Hrun as (challenge & st2 & Hchallenge & Hrun).
  apply answer_returns_files in Hrun as [path ->].
  rewrite (keeps_files_run _ _ _ _ (keeps_files_request_challenge _ _ _ _ _ _ _) Hchallenge).
  rewrite (keeps_files_run _ _ _ _ (keeps_files_log _) Hlog).
  apply delete_subseteq.
Qed.

Lemma for_each_returns_files {A} (body : A → M unit) (xs : list A) :
  (∀ x st st', body x st = (Ret tt, st') → st_files st' ⊆ st_files st) →
  ∀ st st', for_each xs body st = (Ret tt, st') → st_files st' ⊆ st_files st.
Proof.
  intros Hbody. induction xs as [|x xs IH]; intros st st' Hrun.
  - by injection Hrun as <-.
  - cbn [for_each] in Hrun. apply bind_ret_inv in Hrun as ([] & st1 & Hx & Hrun).
    etrans; [by eapply IH | by eapply Hbody].
Qed.

(** X17. A run that returns the certificate leaves no challenge file
    behind: every file it published it has removed again, and it has
    touched no other file, so the files at the end are among those at the
    start; from an empty challenge directory it ends with an empty one. *)
Theorem returned_run_leaves_no_file (sha256 : string → string)
    (utf8_decode : string → option string) (json_loads : string → option json)
    (W : world) (account_key csr acme_dir : string) (account_email : option string)
    (CA : string) (chain : bool) (fuel : nat) (certificate : string)
    (st st' : state) :
  get_crt sha256 utf8_decode json_loads W account_key csr acme_dir account_email
    CA chain fuel st = (Ret certificate, st') →
  st_files st' ⊆ st_files st ∧ (st_files st = ∅ → st_files st' = ∅).
Proof.
  intros Hrun.
  assert (st_files st' ⊆ st_files st) as Hsub.
  { unfold get_crt in Hrun.
    apply bind_ret_inv in Hrun as ([header thumbprint] & st1 & Hkey & Hrun).
    apply bind_ret_inv in Hrun as (domains & st2 & Hcsr & Hrun).
    apply bind_ret_inv in Hrun as (registered & st3 & Hreg & Hrun).
    apply bind_ret_inv in Hrun as ([] & st4 & Hloop & Hrun).
    rewrite (keeps_files_run _ _ _ _ (keeps_files_issue _ _ _ _ _ _) Hrun).
    rewrite <- (keeps_files_run _ _ _ _ (keeps_files_parse_key _ _ _ _) Hkey).
    rewrite <- (keeps_files_run _ _ _ _ (keeps_files_parse_csr _ _ _) Hcsr).
    rewrite <- (keeps_files_run _ _ _ _ (keeps_files_register _ _ _ _ _) Hreg).
    eapply for_each_returns_files; [| exact Hloop].
    intros x s s'. apply verify_returns_files. }
  split; [done |]. intros Hempty. rewrite Hempty in Hsub.
  apply map_eq. intros path. rewrite lookup_empty.
  by eapply lookup_weaken_None; [apply lookup_empty |].
Qed.

Lemma returned_run_leaves_no_file_witness :
  let r := Demo.run Demo.csr_text (fun _ => "valid") two_up_links true 1 in
  fst r = Ret (pem ["leaf-der"; "issuer-der"; "root-der"]) ∧ st_files (snd r) = ∅.
Proof.
  intros r.
  assert (fst r = Ret (pem ["leaf-der"; "issuer-der"; "root-der"])) as Hret
    by (vm_compute; reflexivity).
  split; [exact Hret |].
  refine (proj2 (returned_run_leaves_no_file Demo.digest Demo.ascii_decode Demo.parse
                   (Demo.world_of Demo.csr_text (fun _ => "valid") two_up_links)
                   "account.key" "domain.csr" "/var/www/challenges/" None Demo.ca true 1
                   (pem ["leaf-der"; "issuer-der"; "root-der"]) initial (snd r) _)
                eq_refl).
  fold (Demo.run Demo.csr_text (fun _ => "valid") two_up_links true 1). fold r.
  destruct r as [o s]. cbn [fst snd] in *. by rewrite Hret.
Defined.

(** ** The numbers of the key (lines 38-43) *)

Lemma hex_value_bound (c : ascii) (v : N) : hex_value c = Some v → (v < 16)%N.
Proof.
  destruct c as [[] [] [] [] [] [] [] []]; intros H; try discriminate H;
    injection H as <-; reflexivity.
Qed.

(** The bytes [unhexlify] gives stand for the number its digits stand for. *)
Lemma unhexlify_number (n : nat) : ∀ (s b : string) (acc : N),
  (String.length s ≤ n)%nat → unhexlify s = Some b →
  hex_number_from acc s = Some (big_endian_from acc b).
Proof.
  induction n as [|n IH]; intros [|x [|y s]] b acc Hlen Hb; cbn in Hlen; try lia;
    try (by injection Hb as <-); try done.
  cbn [unhexlify] in Hb.
  destruct (hex_value x) as [hi|] eqn:Hhi; [| done].
  destruct (hex_value y) as [lo|] eqn:Hlo; [| done]. cbn [mbind option_bind] in Hb.
  destruct (unhexlify s) as [tl|] eqn:Htl; [| done]. injection Hb as <-.
  cbn [hex_number_from big_endian_from]. rewrite Hhi, Hlo. cbn [mbind option_bind].
  pose proof (hex_value_bound _ _ Hhi). pose proof (hex_value_bound _ _ Hlo).
  rewrite (IH s tl) by (done || lia). f_equal. f_equal.
  unfold ord, chr. rewrite N_ascii_embedding by lia. lia.
Qed.

(** The number a hexadecimal numeral stands for, read digit by digit. *)
Lemma hex_number_of_uint (d : Hexadecimal.uint) : ∀ acc,
  ∃ v, hex_number_from acc (HexadecimalString.NilEmpty.string_of_uint d) = Some v
       ∧ v = (HexadecimalPos.Unsigned.of_lu (Hexadecimal.rev d)
              + acc * 16 ^ HexadecimalPos.Unsigned.usize d)%N.
Proof.
  induction d; intros acc;
    cbn [HexadecimalString.NilEmpty.string_of_uint hex_number_from
         HexadecimalPos.Unsigned.usize];
    [ exists acc; split; [done |]; cbn; lia | .. ];
    (match goal with
     | |- context [hex_value ?c] =>
         let v := eval vm_compute in (hex_value c) in change (hex_value c) with v
     end;
     cbn [mbind option_bind];
     match goal with
     | |- context [hex_number_from ?a _] =>
         destruct (IHd a) as (v & -> & ->)
     end;
     eexists; split; [reflexivity |];
     match goal with
     | |- context [Hexadecimal.rev (?f d)] =>
         change (Hexadecimal.rev (f d)) with (Hexadecimal.revapp d (f Hexadecimal.Nil))
     end;
     rewrite HexadecimalPos.Unsigned.of_lu_revapp;
     cbn [HexadecimalPos.Unsigned.of_lu];
     rewrite N.pow_succ_r'; lia).
Qed.

Lemma hex_number_hex_of_N (n : N) : hex_number (hex_of_N n) = Some n.
Proof.
  unfold hex_number, hex_of_N, HexadecimalString.NilZero.string_of_uint.
  destruct (hex_number_of_uint (N.to_hex_uint n) 0) as (v & Hv & ->).
  rewrite N.mul_0_l, N.add_0_r, <- HexadecimalPos.Unsigned.of_uint_alt in Hv.
  change (Pos.of_hex_uint (N.to_hex_uint n)) with (N.of_hex_uint (N.to_hex_uint n)) in Hv.
  rewrite HexadecimalN.Unsigned.of_to in Hv.
  destruct (N.to_hex_uint n); exact Hv.
Qed.

(** X18. The bytes put into the key stand for the numbers of the dump:
    read with the most significant byte first, the bytes of the exponent
    give the exponent, and the bytes of the modulus give the number that
    the hexadecimal digits of the modulus stand for. *)
Theorem key_numbers (n : N) (digits e modulus : string) :
  unhexlify (exponent_hex n) = Some e →
  unhexlify digits = Some modulus →
  big_endian e = n ∧ hex_number digits = Some (big_endian modulus).
Proof.
  intros He Hm. split.
  - pose proof (unhexlify_number _ _ _ 0 (Nat.le_refl _) He) as Hnum.
    fold (hex_number (exponent_hex n)) in Hnum. fold (big_endian e) in Hnum.
    assert (hex_number (exponent_hex n) = Some n) as Hn.
    { unfold exponent_hex. cbv zeta.
      destruct (Nat.odd (String.length (hex_of_N n))); [| apply hex_number_hex_of_N].
      change ("0" +:+ hex_of_N n) with (String "0" (hex_of_N n)).
      exact (hex_number_hex_of_N n). }
    rewrite Hn in Hnum. by injection Hnum as <-.
  - exact (unhexlify_number _ _ _ 0 (Nat.le_refl _) Hm).
Qed.

Lemma key_numbers_witness :
  ∃ e modulus,
    unhexlify (exponent_hex 65537) = Some e
    ∧ unhexlify "c15ea70feed5" = Some modulus
    ∧ big_endian e = 65537%N
    ∧ hex_number "c15ea70feed5" = Some (big_endian modulus).
Proof.
  destruct (unhexlify (exponent_hex 65537)) as [e|] eqn:He; [| vm_compute in He; discriminate].
  destruct (unhexlify "c15ea70feed5") as [modulus|] eqn:Hm;
    [| vm_compute in Hm; discriminate].
  exists e, modulus. split_and!; try reflexivity; apply (key_numbers 65537 _ e modulus He Hm).
Defined.

(** ** Nothing is lost in the encoding (lines 166-167) *)

Lemma b64_digit_ord (n : N) :
  ord (b64_digit false n)
  = (if n <? 26 then 65 + n
     else if n <? 52 then 71 + n
     else if n <? 62 then n - 4
     else if n =? 62 then 43 else 47)%N.
Proof.
  unfold b64_digit, chr, ord.
  destruct (n <? 26)%N eqn:H1; [apply N.ltb_lt in H1; rewrite N_ascii_embedding; lia |].
  destruct (n <? 52)%N eqn:H2;
    [apply N.ltb_lt in H2; apply N.ltb_ge in H1; rewrite N_ascii_embedding; lia |].
  destruct (n <? 62)%N eqn:H3;
    [apply N.ltb_lt in H3; apply N.ltb_ge in H2; rewrite N_ascii_embedding; lia |].
  by destruct (n =? 62)%N.
Qed.

Ltac digit_cases :=
  repeat match goal with
         | H : context [if ?b then _ else _] |- _ => destruct b eqn:?
         end;
  repeat match goal with
         | H : (_ <? _)%N = true |- _ => apply N.ltb_lt in H
         | H : (_ <? _)%N = false |- _ => apply N.ltb_ge in H
         | H : (_ =? _)%N = true |- _ => apply N.eqb_eq in H
         | H : (_ =? _)%N = false |- _ => apply N.eqb_neq in H
         end.

Lemma b64_digit_inj (n m : N) :
  (n < 64)%N → (m < 64)%N → b64_digit false n = b64_digit false m → n = m.
Proof.
  intros Hn Hm H. apply (f_equal ord) in H. rewrite !b64_digit_ord in H.
  digit_cases; lia.
Qed.

Lemma b64_digit_pad (n : N) : b64_digit false n ≠ pad.
Proof.
  intros H. apply (f_equal ord) in H. rewrite b64_digit_ord in H.
  change (ord pad) with 61%N in H. digit_cases; lia.
Qed.

Lemma lor_shiftl_add (a b k : N) :
  (b < 2 ^ k)%N → N.lor (N.shiftl a k) b = (a * 2 ^ k + b)%N.
Proof.
  intros Hb. rewrite <- N.shiftl_mul_pow2.
  assert (N.land (N.shiftl a k) b = 0%N) as Hland.
  { apply N.bits_inj_0. intros i. rewrite N.land_spec.
    destruct (N.lt_ge_cases i k) as [Hi | Hi].
    - by rewrite N.shiftl_spec_low.
    - rewrite <- (N.mod_small b (2 ^ k)) by done.
      rewrite N.mod_pow2_bits_high by done. apply andb_false_r. }
  by rewrite <- N.lxor_lor, <- N.add_nocarry_lxor.
Qed.

(** The four digits of three bytes, in numbers. *)
Lemma sextets (n m o : N) :
  (n < 256)%N → (m < 256)%N → (o < 256)%N →
  N.shiftr n 2 = (n / 4)%N
  ∧ N.shiftl (N.land n 3) 4 = (16 * (n mod 4))%N
  ∧ N.lor (N.shiftl (N.land n 3) 4) (N.shiftr m 4) = (16 * (n mod 4) + m / 16)%N
  ∧ N.shiftl (N.land m 15) 2 = (4 * (m mod 16))%N
  ∧ N.lor (N.shiftl (N.land m 15) 2) (N.shiftr o 6) = (4 * (m mod 16) + o / 64)%N
  ∧ N.land o 63 = (o mod 64)%N.
Proof.
  intros Hn Hm Ho.
  change 3%N with (N.ones 2). change 15%N with (N.ones 4). change 63%N with (N.ones 6).
  rewrite !N.land_ones, !N.shiftr_div_pow2.
  change (2 ^ 2)%N with 4%N. change (2 ^ 4)%N with 16%N. change (2 ^ 6)%N with 64%N.
  assert (m / 16 < 16)%N by (apply N.Div0.div_lt_upper_bound; lia).
  assert (o / 64 < 4)%N by (apply N.Div0.div_lt_upper_bound; lia).
  rewrite !lor_shiftl_add by done. rewrite !N.shiftl_mul_pow2.
  change (2 ^ 2)%N with 4%N. change (2 ^ 4)%N with 16%N.
  split_and!; lia.
Qed.

Lemma ord_inj (x y : ascii) : ord x = ord y → x = y.
Proof.
  unfold ord. intros H. by rewrite <- (ascii_N_embedding x), H, ascii_N_embedding.
Qed.

Lemma ord_bound (x : ascii) : (ord x < 256)%N.
Proof. apply N_ascii_bounded. Qed.

(** Quotients and remainders of a byte by 4, 16 and 64, for [lia]. *)
Ltac byte_parts v :=
  pose proof (ord_bound v);
  pose proof (N.div_mod (ord v) 4 ltac:(done));
  pose proof (N.mod_lt (ord v) 4 ltac:(done));
  pose proof (N.div_mod (ord v) 16 ltac:(done));
  pose proof (N.mod_lt (ord v) 16 ltac:(done));
  pose proof (N.div_mod (ord v) 64 ltac:(done));
  pose proof (N.mod_lt (ord v) 64 ltac:(done)).

Ltac sextet_numbers x y z :=
  let H := fresh in
  pose proof (sextets (ord x) (ord y) (ord z) (ord_bound x) (ord_bound y) (ord_bound z))
    as H;
  destruct H as (? & ? & ? & ? & ? & ?).

Lemma bytes3_inj (x y z x' y' z' : ascii) :
  b64_digit false (N.shiftr (ord x) 2) = b64_digit false (N.shiftr (ord x') 2) →
  b64_digit false (N.lor (N.shiftl (N.land (ord x) 3) 4) (N.shiftr (ord y) 4))
  = b64_digit false (N.lor (N.shiftl (N.land (ord x') 3) 4) (N.shiftr (ord y') 4)) →
  b64_digit false (N.lor (N.shiftl (N.land (ord y) 15) 2) (N.shiftr (ord z) 6))
  = b64_digit false (N.lor (N.shiftl (N.land (ord y') 15) 2) (N.shiftr (ord z') 6)) →
  b64_digit false (N.land (ord z) 63) = b64_digit false (N.land (ord z') 63) →
  x = x' ∧ y = y' ∧ z = z'.
Proof.
  intros H1 H2 H3 H4.
  destruct (sextets (ord x) (ord y) (ord z) (ord_bound x) (ord_bound y) (ord_bound z))
    as (E1 & _ & E2 & _ & E3 & E4).
  destruct (sextets (ord x') (ord y') (ord z') (ord_bound x') (ord_bound y') (ord_bound z'))
    as (E1' & _ & E2' & _ & E3' & E4').
  rewrite E1, E1' in H1. rewrite E2, E2' in H2. rewrite E3, E3' in H3. rewrite E4, E4' in H4.
  byte_parts x. byte_parts y. byte_parts z. byte_parts x'. byte_parts y'. byte_parts z'.
  apply b64_digit_inj in H1; [| lia | lia].
  apply b64_digit_inj in H2; [| lia | lia].
  apply b64_digit_inj in H3; [| lia | lia].
  apply b64_digit_inj in H4; [| lia | lia].
  split_and!; apply ord_inj; lia.
Qed.

Lemma bytes2_inj (x y x' y' : ascii) :
  b64_digit false (N.shiftr (ord x) 2) = b64_digit false (N.shiftr (ord x') 2) →
  b64_digit false (N.lor (N.shiftl (N.land (ord x) 3) 4) (N.shiftr (ord y) 4))
  = b64_digit false (N.lor (N.shiftl (N.land (ord x') 3) 4) (N.shiftr (ord y') 4)) →
  b64_digit false (N.shiftl (N.land (ord y) 15) 2)
  = b64_digit false (N.shiftl (N.land (ord y') 15) 2) →
  x = x' ∧ y = y'.
Proof.
  intros H1 H2 H3.
  destruct (sextets (ord x) (ord y) (ord y) (ord_bound x) (ord_bound y) (ord_bound y))
    as (E1 & _ & E2 & E3 & _ & _).
  destruct (sextets (ord x') (ord y') (ord y') (ord_bound x') (ord_bound y') (ord_bound y'))
    as (E1' & _ & E2' & E3' & _ & _).
  rewrite E1, E1' in H1. rewrite E2, E2' in H2. rewrite E3, E3' in H3.
  byte_parts x. byte_parts y. byte_parts x'. byte_parts y'.
  apply b64_digit_inj in H1; [| lia | lia].
  apply b64_digit_inj in H2; [| lia | lia].
  apply b64_digit_inj in H3; [| lia | lia].
  split_and!; apply ord_inj; lia.
Qed.

Lemma bytes1_inj (x x' : ascii) :
  b64_digit false (N.shiftr (ord x) 2) = b64_digit false (N.shiftr (ord x') 2) →
  b64_digit false (N.shiftl (N.land (ord x) 3) 4)
  = b64_digit false (N.shiftl (N.land (ord x') 3) 4) →
  x = x'.
Proof.
  intros H1 H2.
  destruct (sextets (ord x) (ord x) (ord x) (ord_bound x) (ord_bound x) (ord_bound x))
    as (E1 & E2 & _).
  destruct (sextets (ord x') (ord x') (ord x') (ord_bound x') (ord_bound x') (ord_bound x'))
    as (E1' & E2' & _).
  rewrite E1, E1' in H1. rewrite E2, E2' in H2.
  byte_parts x. byte_parts x'.
  apply b64_digit_inj in H1; [| lia | lia].
  apply b64_digit_inj in H2; [| lia | lia].
  apply ord_inj; lia.
Qed.

Lemma b64_go_inj (n : nat) : ∀ a b : string,
  (String.length a ≤ n)%nat → b64_go false a = b64_go false b → a = b.
Proof.
  induction n as [|n IH]; intros a b Hlen H.
  - destruct a; [| cbn in Hlen; lia].
    by destruct b as [|x' [|y' [|z' rb]]].
  - destruct a as [|x [|y [|z ra]]]; destruct b as [|x' [|y' [|z' rb]]];
      cbn [b64_go] in H; cbv zeta in H; try discriminate H; try done;
      injection H; intros;
      try (exfalso; eapply b64_digit_pad; eauto; fail);
      try (exfalso; eapply b64_digit_pad; symmetry; eauto; fail).
    + by rewrite (bytes1_inj x x').
    + by destruct (bytes2_inj x y x' y') as [-> ->].
    + destruct (bytes3_inj x y z x' y' z') as (-> & -> & ->); try done.
      f_equal. f_equal. f_equal. apply IH; [cbn in Hlen; lia | done].
Qed.

Lemma append_inj_r (t : string) : ∀ a b : string, a +:+ t = b +:+ t → a = b.
Proof.
  assert (∀ a c s, String.length (a +:+ String c s +:+ t) ≠ String.length t) as Hlonger.
  { intros a c s. rewrite !length_append. cbn. lia. }
  induction a as [|x a IH]; intros [|y b] H.
  - done.
  - exfalso. apply (Hlonger "" y b). by rewrite <- H.
  - exfalso. apply (Hlonger "" x a). by rewrite H.
  - rewrite !append_cons in H. injection H as -> H. f_equal. by apply IH.
Qed.

Lemma str_take_forall p (n : nat) : ∀ s,
  str_forall p s = true → str_forall p (str_take n s) = true.
Proof.
  induction n as [|n IH]; intros [|c s] H; try done.
  cbn [str_forall str_take] in *. apply andb_true_iff in H as [Hc H].
  by rewrite Hc, IH.
Qed.

Lemma wrap_go_forall p (width fuel : nat) : ∀ text,
  str_forall p text = true →
  Forall (fun line => str_forall p line = true) (wrap_go fuel width text).
Proof.
  induction fuel as [|fuel IH]; intros [|c text] H; try by constructor.
  cbn [wrap_go]. constructor; [by apply str_take_forall |].
  apply IH. by apply str_drop_forall.
Qed.

(** Taking the line breaks out of the lines gives the text they hold. *)
Lemma remove_breaks (lines : list string) :
  Forall (fun line => str_forall any_but_nl line = true) lines →
  remove_char nl (join (str1 nl) lines) = join "" lines.
Proof.
  assert (∀ line rest, str_forall any_but_nl line = true →
            remove_char nl (line +:+ rest) = line +:+ remove_char nl rest) as Hline.
  { induction line as [|c line IHl]; intros rest Hl; [done |].
    cbn [str_forall] in Hl. apply andb_true_iff in Hl as [Hc Hl].
    rewrite !append_cons. unfold remove_char in *. cbn [str_filter].
    unfold any_but_nl in Hc. rewrite Hc. by rewrite IHl. }
  induction 1 as [|line lines Hl _ IH]; [done |].
  destruct lines as [|next lines].
  - cbn [join]. rewrite <- (append_empty line) at 1. rewrite Hline by done.
    by rewrite append_empty.
  - change (join (str1 nl) (line :: next :: lines))
      with (line +:+ str1 nl +:+ join (str1 nl) (next :: lines)).
    rewrite Hline by done.
    change (str1 nl +:+ join (str1 nl) (next :: lines))
      with (String nl (join (str1 nl) (next :: lines))).
    change (remove_char nl (String nl (join (str1 nl) (next :: lines))))
      with (remove_char nl (join (str1 nl) (next :: lines))).
    rewrite IH. symmetry. apply join_empty_cons.
Qed.

Lemma b64_char_line (c : ascii) : b64_char c = true → any_but_nl c = true.
Proof. intros H. destruct (b64_char_unbroken c H) as [Hs _]. by destruct c as [[] [] [] [] [] [] [] []]. Qed.

(** X21. Nothing is lost in the output: two certificates with the same
    base64 text are the same, and so are two with the same framed entry.
    The base64 text of a certificate is got back from its entry by taking
    away the two frame lines and the line breaks. *)
Theorem encoding_loses_nothing (cert cert' : string) :
  pem_entry cert = pem_entry cert' →
  cert = cert'
  ∧ remove_char nl (join (str1 nl) (wrap (b64encode cert) 64)) = b64encode cert.
Proof.
  assert (∀ c, remove_char nl (join (str1 nl) (wrap (b64encode c) 64)) = b64encode c)
    as Hback.
  { intros c. rewrite remove_breaks.
    - by destruct (wrap_lines (b64encode c) 64) as [Hjoin _]; [lia |].
    - unfold wrap. apply wrap_go_forall. pose proof (b64encode_chars c) as H.
      induction (b64encode c) as [|x s IH]; [done |].
      cbn [str_forall] in *. apply andb_true_iff in H as [Hx Hs].
      by rewrite (b64_char_line x Hx), IH. }
  intros H. split; [| apply Hback].
  unfold pem_entry in H.
  apply String.app_inj in H. apply String.app_inj in H.
  apply append_inj_r in H.
  apply (f_equal (remove_char nl)) in H. rewrite !Hback in H.
  by apply (b64_go_inj (String.length cert)).
Qed.

Lemma encoding_loses_nothing_witness :
  remove_char nl (join (str1 nl) (wrap (b64encode long_certificate) 64))
  = "AAECAwQFBgcICQoLDA0ODxAREhMUFRYXGBkaGxwdHh8gISIjJCUmJygpKissLS4vMA==".
Proof.
  rewrite (proj2 (encoding_loses_nothing long_certificate long_certificate eq_refl)).
  reflexivity.
Defined.
